(** * Perception-and-action automation engine: shallow embedding

  The development follows the Python sources file by file:

  - [Text]            the [str] operations the sources call
  - [Float]           the [float] operations that are rounded
  - [ActionSystem]    src/skills/action/action_system.py
  - [ScreenCapture]   src/skills/vision/screen_capture.py
  - [Retry]           src/skills/action/intelligent_retry_manager.py
  - [MultiOCR]        src/skills/vision/multi_ocr_manager.py
  - [OCREngine]       src/skills/vision/ocr_engine.py
  - [ElementDetector] src/skills/vision/element_detector.py

  Conventions.  Python [int] is [Z].  A [str] is a [string] holding its
  UTF-8 encoding: [len], [strip], [lower] and the edit distance work on
  characters (code points), blanks are the characters of [str.isspace],
  and what the interpreter's character database says of a character (its
  lower-case form, whether it is alphanumeric) is a parameter, [Unicode],
  of which only the ASCII part is assumed.  A Python [float] is a rational
  [Q]; the sums, products and quotients whose last bit matters to a
  property ([_estimate_confidence], the running average of
  [_update_engine_stats], the score of [get_best_engine]) are rounded to
  the nearest double by [Float.round], the conversion of [2 ** attempt]
  to a float raises from 2 ** 1024 on, and the other float computations
  (durations, ratios of areas, thresholds) are exact.  A [dict] keyed by
  strings is a [gmap string _]; [Optional] is [option].  Calls that leave
  the program (the operating system, OpenCV, an OCR backend, the clock,
  the random generator, a caller-supplied callback) are parameters of the
  enclosing section, and what they return is either a value or a raised
  exception.  [print] is not modelled. *)

From Stdlib Require Import ZArith QArith Qminmax Qround Lqa Lia List String Ascii Bool.
From Stdlib Require Import Sorting.Sorted Permutation.
From Stdlib Require DecimalString Qpower.
From stdpp Require Import base option gmap strings list.
Import ListNotations.

Local Open Scope Z_scope.

(** [x < y] on floats, as a test. *)
Definition Qltb (x y : Q) : bool := if Qlt_le_dec x y then true else false.

(** ** What a call can do: return or raise *)

Inductive outcome (A : Type) : Type :=
| Returns (a : A)
| Raises (msg : string).
Arguments Returns {A} a.
Arguments Raises {A} msg.

(** A state-and-exception monad: the Python statements of one method body,
  threaded over the mutable state [S] they touch.  State changes made
  before an exception is raised are kept, as in Python. *)
Module Eff.
Section Eff.
Context {S : Type}.

Definition M (A : Type) : Type := S -> outcome A * S.

Definition ret {A} (a : A) : M A := fun s => (Returns a, s).

Definition bind {A B} (c : M A) (k : A -> M B) : M B :=
  fun s => match c s with
           | (Returns a, s') => k a s'
           | (Raises e, s') => (Raises e, s')
           end.

Definition raise {A} (e : string) : M A := fun s => (Raises e, s).

Definition get : M S := fun s => (Returns s, s).
Definition put (s : S) : M unit := fun _ => (Returns tt, s).
Definition modify (f : S -> S) : M unit := fun s => (Returns tt, f s).

(** [lift o]: the result of a call that does not touch the state. *)
Definition lift {A} (o : outcome A) : M A := fun s => (o, s).

(** [try: body except Exception as e: handler e] *)
Definition try_except {A} (body : M A) (handler : string -> M A) : M A :=
  fun s => match body s with
           | (Returns a, s') => (Returns a, s')
           | (Raises e, s') => handler e s'
           end.
End Eff.
End Eff.

Declare Scope eff_scope.
Delimit Scope eff_scope with eff.
Notation "x <- c ;; k" := (Eff.bind c (fun x => k))
(at level 100, c at next level, right associativity) : eff_scope.
Notation "c ;;; k" := (Eff.bind c (fun _ => k))
(at level 100, k at level 200, right associativity) : eff_scope.

(** ** Python [str] operations *)
Module Text.

Definition code (c : ascii) : N := N_of_ascii c.

(** A [str] is held as its UTF-8 encoding: a byte below 0x80 is a
    character of its own, a byte in 0x80..0xBF continues the character
    that the bytes before it began. *)
Definition is_ascii (c : ascii) : bool := (code c <? 0x80)%N.

Definition is_continuation (c : ascii) : bool :=
  ((0x80 <=? code c) && (code c <? 0xC0))%N.

Definition continues (s : string) : bool :=
  match s with
  | String c _ => is_continuation c
  | EmptyString => false
  end.

(** [list(s)]: the characters of [s], each one as the bytes that encode
    it. *)
Fixpoint chars (s : string) : list string :=
  match s with
  | EmptyString => []
  | String c r =>
      match chars r with
      | k :: ks =>
          if negb (is_ascii c) && continues r
          then String c k :: ks
          else String c EmptyString :: k :: ks
      | [] => [String c EmptyString]
      end
  end.

(** [''.join(cs)] *)
Definition join (cs : list string) : string :=
  fold_right String.append EmptyString cs.

(** [len(s)] *)
Definition len (s : string) : Z := Z.of_nat (length (chars s)).

(** [chr(n)], encoded. *)
Definition chr (n : N) : string :=
  let byte (k : N) := String (ascii_of_N k) EmptyString in
  let cont (k : N) := byte (0x80 + k mod 0x40)%N in
  if (n <? 0x80)%N then byte n
  else if (n <? 0x800)%N then byte (0xC0 + n / 0x40)%N ++ cont n
  else if (n <? 0x10000)%N
       then byte (0xE0 + n / 0x1000)%N ++ cont (n / 0x40)%N ++ cont n
  else byte (0xF0 + n / 0x40000)%N ++ cont (n / 0x1000)%N
       ++ cont (n / 0x40)%N ++ cont n.

(** The characters for which [isspace()] holds, which are the ones that
    [strip()] removes. *)
Definition whitespace : list N :=
  [0x09; 0x0A; 0x0B; 0x0C; 0x0D; 0x1C; 0x1D; 0x1E; 0x1F; 0x20; 0x85; 0xA0;
   0x1680; 0x2000; 0x2001; 0x2002; 0x2003; 0x2004; 0x2005; 0x2006; 0x2007;
   0x2008; 0x2009; 0x200A; 0x2028; 0x2029; 0x202F; 0x205F; 0x3000]%N.

(** [c.isspace()] *)
Definition isspace (c : string) : bool :=
  existsb (fun n => String.eqb c (chr n)) whitespace.

Fixpoint drop_spaces (cs : list string) : list string :=
  match cs with
  | [] => []
  | c :: rest => if isspace c then drop_spaces rest else cs
  end.

(** [s.strip()] *)
Definition strip (s : string) : string :=
  join (rev (drop_spaces (rev (drop_spaces (chars s))))).

Fixpoint startswith (p s : string) : bool :=
  match p, s with
  | EmptyString, _ => true
  | String a p', String b s' => if Ascii.eqb a b then startswith p' s' else false
  | String _ _, EmptyString => false
  end.

(** [sub in s] *)
Fixpoint contains (sub s : string) : bool :=
  startswith sub s ||
  match s with
  | EmptyString => false
  | String _ r => contains sub r
  end.

(** The lower-case form of a character of the ASCII range. *)
Definition lower_ascii (c : ascii) : ascii :=
  let n := code c in
  if ((65 <=? n) && (n <=? 90))%N then ascii_of_N (n + 32) else c.

Fixpoint ascii_lower (s : string) : string :=
  match s with
  | EmptyString => EmptyString
  | String c r => String (lower_ascii c) (ascii_lower r)
  end.

(** What the interpreter's character database says of one character: its
    lower-case form, which can be more than one character long; whether it
    is cased; whether it is ignored when the case context of a neighbour
    is looked at; whether [isalnum()] holds of it.  On the ASCII range the
    lower-case forms are those of the 26 letters. *)
Class Unicode : Type := {
  to_lower_full : string -> string;
  is_cased : string -> bool;
  is_case_ignorable : string -> bool;
  isalnum : string -> bool;
  to_lower_full_ascii (c : ascii) :
    is_ascii c = true ->
    to_lower_full (String c EmptyString) = String (lower_ascii c) EmptyString
}.

Section Lower.
Context {U : Unicode}.

(** The first character of [cs] that is not case-ignorable, if any. *)
Fixpoint skip_ignorable (cs : list string) : option string :=
  match cs with
  | [] => None
  | c :: rest => if is_case_ignorable c then skip_ignorable rest else Some c
  end.

(** Whether a capital sigma stands at the end of a word: a cased
    character before it and none after it, case-ignorable characters
    apart.  [before] holds the characters before it, nearest first. *)
Definition final_sigma (before after : list string) : bool :=
  match skip_ignorable before with
  | Some c =>
      is_cased c &&
      match skip_ignorable after with
      | Some c' => negb (is_cased c')
      | None => true
      end
  | None => false
  end.

Fixpoint lower_from (before cs : list string) : list string :=
  match cs with
  | [] => []
  | c :: rest =>
      (if String.eqb c (chr 0x3A3)
       then if final_sigma before rest then chr 0x3C2 else chr 0x3C3
       else to_lower_full c)
      :: lower_from (c :: before) rest
  end.

(** [s.lower()] *)
Definition lower (s : string) : string := join (lower_from [] (chars s)).

End Lower.

(** The part of the character database that the examples of this
    development use: the ASCII range, the Kelvin sign U+212A (lower-case
    form k), the dotted capital I U+0130 (lower-case form i followed by
    the combining dot U+0307), the combining dot itself and the CJK
    ideographs U+4E00..U+9FFF.  On these characters it agrees with
    CPython's database. *)
Definition ord (c : string) : N :=
  match map code (list_ascii_of_string c) with
  | [a] => a
  | [a; b] => ((a - 0xC0) * 0x40 + (b - 0x80))%N
  | [a; b; c] => ((a - 0xE0) * 0x1000 + (b - 0x80) * 0x40 + (c - 0x80))%N
  | [a; b; c; d] =>
      ((a - 0xF0) * 0x40000 + (b - 0x80) * 0x1000 + (c - 0x80) * 0x40
       + (d - 0x80))%N
  | _ => 0%N
  end.

Definition in_range (lo hi n : N) : bool := ((lo <=? n) && (n <=? hi))%N.

Definition sample_to_lower_full (c : string) : string :=
  match c with
  | String a EmptyString => String (lower_ascii a) EmptyString
  | _ => if (ord c =? 0x130)%N then chr 0x69 ++ chr 0x307
         else if (ord c =? 0x212A)%N then chr 0x6B
         else c
  end.

Definition sample_is_cased (c : string) : bool :=
  let n := ord c in
  in_range 0x41 0x5A n || in_range 0x61 0x7A n || (n =? 0x130)%N
  || (n =? 0x212A)%N.

Definition sample_is_case_ignorable (c : string) : bool :=
  existsb (N.eqb (ord c)) [0x27; 0x2E; 0x3A; 0x5E; 0x60; 0x307]%N.

Definition sample_isalnum (c : string) : bool :=
  let n := ord c in
  in_range 0x30 0x39 n || in_range 0x41 0x5A n || in_range 0x61 0x7A n
  || (n =? 0x130)%N || (n =? 0x212A)%N || in_range 0x4E00 0x9FFF n.

Definition sample_unicode : Unicode :=
  {| to_lower_full := sample_to_lower_full;
     is_cased := sample_is_cased;
     is_case_ignorable := sample_is_case_ignorable;
     isalnum := sample_isalnum;
     to_lower_full_ascii := fun c _ => eq_refl |}.

End Text.

(** ** Python [float] arithmetic *)
Module Float.
Local Open Scope Q_scope.

(** The integer nearest to [q], the even one of the two when [q] lies
    half way. *)
Definition round_half_even (q : Q) : Z :=
  let f := Qfloor q in
  match Qcompare (q - inject_Z f) (1 # 2) with
  | Lt => f
  | Gt => (f + 1)%Z
  | Eq => if Z.even f then f else (f + 1)%Z
  end.

(** The exponent [e] with [2^e <= q < 2^(e+1)], for [0 < q]. *)
Definition exponent (q : Q) : Z :=
  let e := (Z.log2 (Qnum q) - Z.log2 (Zpos (Qden q)))%Z in
  if Qle_bool (2 ^ e) q then e else (e - 1)%Z.

(** The double nearest to [q], for [0 < q] below the overflow threshold:
    53 significant bits, and steps of 2^-1074 below 2^-1022. *)
Definition nearest (q : Q) : Q :=
  let e := Z.max (exponent q) (-1022) in
  Qred (inject_Z (round_half_even (q * 2 ^ (52 - e))) * 2 ^ (e - 52)).

(** The result of a float operation whose exact value is [q]: round to
    nearest, ties to even.  Overflow to infinity is not modelled. *)
Definition round (q : Q) : Q :=
  match Qcompare q 0 with
  | Eq => 0
  | Gt => nearest q
  | Lt => - nearest (- q)
  end.

Definition add (x y : Q) : Q := round (x + y).
Definition sub (x y : Q) : Q := round (x - y).
Definition mul (x y : Q) : Q := round (x * y).
Definition div (x y : Q) : Q := round (x / y).

(** [float(n)] for an integer. *)
Definition of_int (n : Z) : Q := round (inject_Z n).

End Float.

(** ** Dynamically typed values held in parameter dictionaries *)
Inductive PyVal : Type :=
| VNone
| VBool (b : bool)
| VInt (z : Z)
| VFloat (q : Q)
| VStr (s : string)
| VTuple (a b : PyVal).

(** ** src/skills/action/action_system.py *)
Module ActionSystem.

Record ActionResult := {
  success : bool;
  message : string;
  data : PyVal;
  timestamp : Q
}.

(** The dictionary built by [_record_action]. *)
Record OperationRecord := {
  rec_action_type : string;
  rec_params : gmap string PyVal;
  rec_success : bool;
  rec_message : string;
  rec_execution_time : Q;
  rec_timestamp : Q
}.

(** [l[-n:]] for a positive [n]: the last [n] items, or all of [l] when it
    has fewer. *)
Definition last_items {A} (n : nat) (l : list A) : list A :=
  skipn (length l - n)%nat l.

(** [_record_action]; [now] is the reading of [time.time()].  The state is
    [self.action_history]. *)
Definition _record_action (action_history : list OperationRecord)
    (action_type : string) (params : gmap string PyVal)
    (result : ActionResult) (execution_time now : Q)
  : list OperationRecord :=
  let record := {| rec_action_type := action_type;
                   rec_params := params;
                   rec_success := success result;
                   rec_message := message result;
                   rec_execution_time := execution_time;
                   rec_timestamp := now |} in
  let action_history := action_history ++ [record] in
  if (1000 <? Z.of_nat (length action_history))
  then last_items 500 action_history
  else action_history.

End ActionSystem.

(** ** src/skills/vision/screen_capture.py *)
Module ScreenCapture.

(** The attributes of a [ScreenCapture] object. *)
Record Self {Image : Type} := {
  save_path : string;
  screenshot_count : Z;
  last_screenshot : option Image;
  last_screenshot_time : option Q
}.
Arguments Self Image : clear implicits.

(** The calls into pyautogui and OpenCV, logged in program order. *)
Inductive os_call : Type :=
| CallSize
| CallScreenshot (x y width height : Z)
| CallImwrite (path : string).

Section ScreenCapture.
Variable Image : Type.

(** The module-level flag set by the guarded import. *)
Variable VISION_AVAILABLE : bool.
(** [pyautogui.size()], [pyautogui.screenshot(region=...)],
    [cv2.cvtColor(np.array(...), cv2.COLOR_RGB2BGR)] and [cv2.imwrite]:
    each is called at most once per capture, and may raise. *)
Variable pyautogui_size : outcome (Z * Z).
Variable pyautogui_screenshot : Z -> Z -> Z -> Z -> outcome Image.
Variable cvtColor : Image -> outcome Image.
Variable imwrite : string -> Image -> outcome bool.
(** The default file name
    [f"region_{x}_{y}_{width}x{height}_{timestamp}.png"], the path
    [os.path.join], and the reading of [time.time()]. *)
Variable region_file_name : Z -> Z -> Z -> Z -> string.
Variable path_join : string -> string -> string.
Variable time_time : Q.

Definition State : Type := Self Image * list os_call.

(** An external call: logged, then its result. *)
Definition call {A} (c : os_call) (o : outcome A) : Eff.M (S := State) A :=
  fun s => (o, (fst s, snd s ++ [c])).

Definition update_self (f : Self Image -> Self Image) : Eff.M (S := State) unit :=
  Eff.modify (fun s => (f (fst s), snd s)).

Definition capture_region (x y width height : Z) (save_file : option string)
  : Eff.M (S := State) (option Image) :=
  (if negb VISION_AVAILABLE then Eff.ret None
   else
     Eff.try_except
       (size <- call CallSize pyautogui_size ;;
        let '(screen_width, screen_height) := size in
        if (x <? 0) || (y <? 0) || (screen_width <? x + width)
           || (screen_height <? y + height)
        then Eff.ret None
        else
          region_screenshot <-
            call (CallScreenshot x y width height)
                 (pyautogui_screenshot x y width height) ;;
          region_cv <- Eff.lift (cvtColor region_screenshot) ;;
          let save_file :=
            match save_file with
            | None => region_file_name x y width height
            | Some f => f
            end in
          self <- Eff.get ;;
          let save_path := path_join (save_path (fst self)) save_file in
          _ <- call (CallImwrite save_path) (imwrite save_path region_cv) ;;
          update_self (fun self =>
            {| save_path := ScreenCapture.save_path self;
               screenshot_count := screenshot_count self + 1;
               last_screenshot := Some region_cv;
               last_screenshot_time := Some time_time |}) ;;;
          Eff.ret (Some region_cv))
       (fun _ => Eff.ret None))%eff.

End ScreenCapture.
End ScreenCapture.

(** ** src/skills/action/intelligent_retry_manager.py *)
Module Retry.

Inductive FailureType : Type :=
| ELEMENT_NOT_FOUND
| CLICK_FAILED
| INPUT_FAILED
| OCR_FAILED
| TIMEOUT
| NETWORK_ERROR
| PERMISSION_DENIED
| UNKNOWN.

#[global] Instance FailureType_eq_dec : EqDecision FailureType.
Proof. solve_decision. Defined.

Record RetryContext := {
  operation_type : string;
  target : PyVal;
  parameters : gmap string PyVal;
  attempt_count : Z;
  last_error : option string;
  failure_history : list FailureType
}.

Record OperationResult := mkResult {
  success : bool;
  message : string;
  data : PyVal;
  execution_time : Q;
  failure_type : option FailureType
}.

(** One entry of [self.failure_stats]; the keys that only one of
    [_record_success] and [_record_failure] creates are optional. *)
Record Stats := {
  total_attempts : Z;
  successful_attempts : Z;
  avg_retry_count : option Q;
  failed_attempts : option Z;
  total_retries : option Z
}.

(** The attributes of an [IntelligentRetryManager]. *)
Record Self := {
  max_retries : Z;
  base_wait_time : Q;
  max_wait_time : Q;
  failure_stats : gmap string Stats
}.

(** [__init__] *)
Definition init : Self :=
  {| max_retries := 5;
     base_wait_time := 1.0;
     max_wait_time := 30.0;
     failure_stats := ∅ |}.

Definition _analyze_failure {U : Text.Unicode}
    (result : OperationResult) (context : RetryContext)
  : FailureType :=
  match failure_type result with
  | Some t => t
  | None =>
      let message := Text.lower (message result) in
      if Text.contains "not found" message || Text.contains "element" message
      then ELEMENT_NOT_FOUND
      else if Text.contains "click" message || Text.contains "mouse" message
      then CLICK_FAILED
      else if Text.contains "ocr" message || Text.contains "text" message
              || Text.contains "recognition" message
      then OCR_FAILED
      else if Text.contains "timeout" message || Text.contains "time" message
      then TIMEOUT
      else if Text.contains "network" message || Text.contains "connection" message
      then NETWORK_ERROR
      else if Text.contains "permission" message || Text.contains "access" message
      then PERMISSION_DENIED
      else UNKNOWN
  end.

(** *** Arithmetic on dynamically typed parameter values *)

(** The numeric reading of a value: [bool] and [int] are integers. *)
Definition number (v : PyVal) : option (Z + Q) :=
  match v with
  | VBool b => Some (inl (if b then 1 else 0))
  | VInt z => Some (inl z)
  | VFloat q => Some (inr q)
  | _ => None
  end.

Definition as_float (n : Z + Q) : Q :=
  match n with inl z => inject_Z z | inr q => q end.

(** [v - c], [v + c] and [v * c] for a float literal [c]: a float, or a
    [TypeError] when [v] is not a number. *)
Definition float_op (op : Q -> Q -> Q) (v : PyVal) (c : Q) : outcome Q :=
  match number v with
  | Some n => Returns (op (as_float n) c)
  | None => Raises "TypeError: unsupported operand type(s)"
  end.

(** [v + c] for an int literal [c]. *)
Definition add_int (v : PyVal) (c : Z) : outcome PyVal :=
  match number v with
  | Some (inl z) => Returns (VInt (z + c))
  | Some (inr q) => Returns (VFloat (q + inject_Z c))
  | None => Raises "TypeError: unsupported operand type(s)"
  end.

(** [l[i]] *)
Definition index {A} (l : list A) (i : Z) : option A :=
  if i <? 0 then
    if i + Z.of_nat (length l) <? 0 then None
    else nth_error l (Z.to_nat (i + Z.of_nat (length l)))
  else nth_error l (Z.to_nat i).

(** *** The retry strategies

    A strategy mutates [context.parameters] in place and may draw random
    numbers: its state is the context and the number of draws made. *)
Definition Strat : Type -> Type := Eff.M (S := RetryContext * nat).

Definition with_parameters (c : RetryContext) (p : gmap string PyVal)
  : RetryContext :=
  {| operation_type := operation_type c; target := target c;
     parameters := p; attempt_count := attempt_count c;
     last_error := last_error c; failure_history := failure_history c |}.

(** [key in context.parameters] *)
Definition has_param (key : string) : Strat bool :=
  fun s => (Returns (bool_decide (is_Some (parameters (fst s) !! key))), s).

(** [context.parameters[key]] *)
Definition get_param (key : string) : Strat PyVal :=
  fun s => match parameters (fst s) !! key with
           | Some v => (Returns v, s)
           | None => (Raises "KeyError", s)
           end.

(** [context.parameters.get(key, dflt)] *)
Definition get_param_default (key : string) (dflt : PyVal) : Strat PyVal :=
  fun s => (Returns (default dflt (parameters (fst s) !! key)), s).

(** [context.parameters[key] = v] *)
Definition set_param (key : string) (v : PyVal) : Strat unit :=
  fun s => (Returns tt,
            (with_parameters (fst s) (<[key := v]> (parameters (fst s))), snd s)).

(** [if attempt < len(choices): context.parameters[key] = choices[attempt]] *)
Definition set_param_by_attempt (key : string) (choices : list string)
    (attempt : Z) : Strat unit :=
  if attempt <? Z.of_nat (length choices) then
    match index choices attempt with
    | Some m => set_param key (VStr m)
    | None => Eff.raise "IndexError: list index out of range"
    end
  else Eff.ret tt.

Section Strategies.
(** The successive values returned by [random.randint(-5, 5)] and by
    [random.uniform(0.8, 1.2)], indexed by the number of draws made. *)
Variable random_randint : nat -> Z.
Variable random_uniform : nat -> Q.

Definition randint : Strat Z :=
  fun s => (Returns (random_randint (snd s)), (fst s, S (snd s))).

Definition _retry_element_search (attempt : Z) : Strat unit :=
  (present <- has_param "search_tolerance" ;;
   (if negb present then set_param "search_tolerance" (VFloat 0.8)
    else
      v <- get_param "search_tolerance" ;;
      d <- Eff.lift (float_op Qminus v 0.1) ;;
      set_param "search_tolerance" (VFloat (Qmax 0.5 d))) ;;;
   set_param_by_attempt "detection_method"
     ["ocr_text"; "image_match"; "coordinate_estimate"; "fuzzy_match"]%string
     attempt ;;;
   present <- has_param "search_area_expansion" ;;
   (if negb present then set_param "search_area_expansion" (VFloat 1.0)
    else
      v <- get_param "search_area_expansion" ;;
      d <- Eff.lift (float_op Qplus v 0.2) ;;
      set_param "search_area_expansion" (VFloat d)) ;;;
   set_param "force_new_screenshot" (VBool true) ;;;
   (if 2 <=? attempt then
      set_param "try_scroll" (VBool true) ;;;
      set_param "scroll_direction"
        (VStr (if attempt mod 2 =? 0 then "down" else "up"))
    else Eff.ret tt))%eff.

Definition _retry_click_operation (attempt : Z) : Strat unit :=
  (present <- has_param "click_offset" ;;
   (if negb present then set_param "click_offset" (VTuple (VInt 0) (VInt 0))
    else
      offset_x <- randint ;;
      offset_y <- randint ;;
      set_param "click_offset" (VTuple (VInt offset_x) (VInt offset_y))) ;;;
   set_param_by_attempt "click_method"
     ["single"; "double"; "right"; "middle"]%string attempt ;;;
   set_param "pre_click_wait" (VFloat (0.5 + inject_Z attempt * 0.2)) ;;;
   set_param "click_duration" (VFloat (0.1 + inject_Z attempt * 0.05)))%eff.

Definition _retry_input_operation (attempt : Z) : Strat unit :=
  (set_param "clear_before_input" (VBool true) ;;;
   current_delay <- get_param_default "input_delay" (VFloat 0.1) ;;
   d <- Eff.lift (float_op Qmult current_delay 1.5) ;;
   set_param "input_delay" (VFloat (Qmin d 1.0)) ;;;
   set_param "refocus" (VBool true) ;;;
   current_method <- get_param_default "input_method" (VStr "type") ;;
   set_param "input_method"
     (VStr match current_method with
           | VStr "type" => "paste"
           | VStr "paste" => "send_keys"
           | VStr "send_keys" => "type"
           | _ => "type"
           end))%eff.

Definition _retry_ocr_recognition (attempt : Z) : Strat unit :=
  (set_param_by_attempt "preferred_ocr_engine"
     ["paddleocr"; "easyocr"; "tesseract"; "builtin"]%string attempt ;;;
   set_param_by_attempt "image_preprocessing"
     ["none"; "enhance_contrast"; "denoise"; "sharpen"; "binarize"]%string
     attempt ;;;
   present <- has_param "ocr_region_expansion" ;;
   (if negb present then set_param "ocr_region_expansion" (VFloat 1.0)
    else
      v <- get_param "ocr_region_expansion" ;;
      d <- Eff.lift (float_op Qplus v 0.1) ;;
      set_param "ocr_region_expansion" (VFloat d)) ;;;
   present <- has_param "confidence_threshold" ;;
   (if negb present then set_param "confidence_threshold" (VFloat 0.8)
    else
      v <- get_param "confidence_threshold" ;;
      d <- Eff.lift (float_op Qminus v 0.1) ;;
      set_param "confidence_threshold" (VFloat (Qmax 0.3 d))))%eff.

(** [context.parameters[key] += step] for an int [step], starting from
    [first] when the key is absent. *)
Definition bump_int (key : string) (first step : Z) : Strat unit :=
  (present <- has_param key ;;
   if negb present then set_param key (VInt first)
   else
     v <- get_param key ;;
     v' <- Eff.lift (add_int v step) ;;
     set_param key v')%eff.

Definition _retry_with_longer_wait (attempt : Z) : Strat unit :=
  (bump_int "operation_timeout" 30 10 ;;;
   bump_int "element_wait_time" 5 3)%eff.

Definition _retry_network_operation (attempt : Z) : Strat unit :=
  (bump_int "connection_timeout" 10 5 ;;;
   set_param "enable_reconnect" (VBool true))%eff.

Definition _retry_permission_operation (attempt : Z) : Strat unit :=
  (set_param "request_elevated_privileges" (VBool true) ;;;
   set_param "use_alternative_method" (VBool true))%eff.

Definition _retry_generic (attempt : Z) : Strat unit :=
  (present <- has_param "generic_wait_time" ;;
   (if negb present then set_param "generic_wait_time" (VFloat 1.0)
    else
      v <- get_param "generic_wait_time" ;;
      d <- Eff.lift (float_op Qplus v 0.5) ;;
      set_param "generic_wait_time" (VFloat d)) ;;;
   set_param "verbose_logging" (VBool true))%eff.

(** [self.retry_strategies], which has an entry for every failure type. *)
Definition _apply_retry_strategy (failure_type : FailureType) (attempt : Z)
  : Strat unit :=
  match failure_type with
  | ELEMENT_NOT_FOUND => _retry_element_search attempt
  | CLICK_FAILED => _retry_click_operation attempt
  | INPUT_FAILED => _retry_input_operation attempt
  | OCR_FAILED => _retry_ocr_recognition attempt
  | TIMEOUT => _retry_with_longer_wait attempt
  | NETWORK_ERROR => _retry_network_operation attempt
  | PERMISSION_DENIED => _retry_permission_operation attempt
  | UNKNOWN => _retry_generic attempt
  end.

(** *** Backoff *)

(** The dictionary [type_multipliers]; it has no entry for
    [INPUT_FAILED]. *)
Definition type_multipliers (t : FailureType) : option Q :=
  match t with
  | ELEMENT_NOT_FOUND => Some 0.5
  | CLICK_FAILED => Some 0.3
  | OCR_FAILED => Some 1.0
  | TIMEOUT => Some 2.0
  | NETWORK_ERROR => Some 3.0
  | PERMISSION_DENIED => Some 1.5
  | UNKNOWN => Some 1.0
  | INPUT_FAILED => None
  end%Q.

(** [x * (2 ** n)] for a float [x]: the integer [2 ** n] is converted to
    a float first, which Python refuses from [2 ** 1024] on; for a negative
    [n] the power is a float already, and is 0.0 below the smallest
    one. *)
Definition times_pow2 (x : Q) (n : Z) : outcome Q :=
  if 1024 <=? n then Raises "OverflowError: int too large to convert to float"
  else if n <? -1074 then Returns 0%Q
  else Returns (x * 2 ^ n)%Q.

(** [random.uniform(0.8, 1.2)] *)
Definition uniform : Strat Q :=
  fun s => (Returns (random_uniform (snd s)), (fst s, S (snd s))).

(** [_calculate_wait_time]; the context object is in the state. *)
Definition _calculate_wait_time (self : Self) (attempt : Z)
    (failure_type : FailureType) : Strat Q :=
  (base_wait <- Eff.lift (times_pow2 (base_wait_time self) attempt) ;;
   let multiplier := default 1.0%Q (type_multipliers failure_type) in
   let wait_time := (base_wait * multiplier)%Q in
   jitter <- uniform ;;
   let wait_time := (wait_time * jitter)%Q in
   Eff.ret (Qmin wait_time (max_wait_time self)))%eff.

End Strategies.

(** *** Success and failure statistics *)

Definition with_failure_stats (self : Self) (m : gmap string Stats) : Self :=
  {| max_retries := max_retries self;
     base_wait_time := base_wait_time self;
     max_wait_time := max_wait_time self;
     failure_stats := m |}.

(** [_record_success]: the counters are updated in place before the
    average is divided out, so they stay updated if the division raises. *)
Definition _record_success (context : RetryContext) (attempts : Z)
  : Eff.M (S := Self) unit :=
  fun self =>
    let operation_type := operation_type context in
    let stats :=
      default {| total_attempts := 0; successful_attempts := 0;
                 avg_retry_count := Some 0%Q; failed_attempts := None;
                 total_retries := None |}
              (failure_stats self !! operation_type) in
    let total := total_attempts stats + 1 in
    let successful := successful_attempts stats + 1 in
    let retries := default 0 (total_retries stats) + attempts in
    let store avg :=
      with_failure_stats self
        (<[operation_type :=
             {| total_attempts := total; successful_attempts := successful;
                avg_retry_count := avg;
                failed_attempts := failed_attempts stats;
                total_retries := Some retries |}]> (failure_stats self)) in
    if successful =? 0
    then (Raises "ZeroDivisionError: division by zero",
          store (avg_retry_count stats))
    else (Returns tt, store (Some (inject_Z retries / inject_Z successful)%Q)).

(** [_record_failure] *)
Definition _record_failure (context : RetryContext) (attempts : Z)
  : Eff.M (S := Self) unit :=
  fun self =>
    let operation_type := operation_type context in
    let stats :=
      default {| total_attempts := 0; successful_attempts := 0;
                 avg_retry_count := None; failed_attempts := Some 0;
                 total_retries := None |}
              (failure_stats self !! operation_type) in
    (Returns tt,
     with_failure_stats self
       (<[operation_type :=
            {| total_attempts := total_attempts stats + 1;
               successful_attempts := successful_attempts stats;
               avg_retry_count := avg_retry_count stats;
               failed_attempts := Some (default 0 (failed_attempts stats) + 1);
               total_retries := total_retries stats |}]> (failure_stats self))).

(** *** [execute_with_retry] *)

(** What the [operation] callback hands back: an [OperationResult], or
    any other object (the compatibility branch). *)
Inductive OpReturn : Type :=
| RetResult (r : OperationResult)
| RetOther (v : PyVal).

(** [bool(v)] *)
Definition truthy (v : PyVal) : bool :=
  match v with
  | VNone => false
  | VBool b => b
  | VInt z => negb (z =? 0)
  | VFloat q => negb (Qeq_bool q 0)
  | VStr s => negb (String.eqb s "")
  | VTuple _ _ => true
  end.

(** Everything one call of [execute_with_retry] reads and writes: the
    manager, the context object, the hidden state of the callback, the
    numbers of clock readings and random draws made so far, the calls of
    [time.sleep] that [execute_with_retry] itself makes, and what each
    invocation of the callback did. *)
Record World {OpSt : Type} := {
  self : Self;
  context : RetryContext;
  op_state : OpSt;
  ticks : nat;
  draws : nat;
  sleeps : list Q;
  calls : list (outcome OpReturn)
}.
Arguments World OpSt : clear implicits.

(** How one pass through the loop body ends. *)
Inductive signal : Type :=
| Return (result : OperationResult)
| Break (last_result : OperationResult)
| Continue (last_result : OperationResult).

Section Execute.
Context {U : Text.Unicode}.
Variable OpSt : Type.
(** The callback: it receives the context object and may mutate it; it can
    also reach the manager that is calling it (the callbacks of this
    repository are closures over the object that owns the manager) and
    assign to its attributes; and it returns or raises. *)
Variable operation :
  OpSt -> RetryContext -> Self -> outcome OpReturn * RetryContext * Self * OpSt.
(** The successive readings of [time.time()] and the random draws. *)
Variable time_time : nat -> Q.
Variable random_randint : nat -> Z.
Variable random_uniform : nat -> Q.

Local Abbreviation W := (World OpSt).
Local Abbreviation M := (Eff.M (S := W)).

Definition now : M Q :=
  fun w => (Returns (time_time (ticks w)),
            {| self := self w; context := context w; op_state := op_state w;
               ticks := S (ticks w); draws := draws w; sleeps := sleeps w;
               calls := calls w |}).

(** [time.sleep(secs)], which rejects a negative length. *)
Definition time_sleep (secs : Q) : M unit :=
  fun w =>
    if Qle_bool 0 secs then
      (Returns tt,
       {| self := self w; context := context w; op_state := op_state w;
          ticks := ticks w; draws := draws w; sleeps := sleeps w ++ [secs];
          calls := calls w |})
    else (Raises "ValueError: sleep length must be non-negative", w).

(** [operation(context)] *)
Definition invoke : M OpReturn :=
  fun w =>
    let '(o, context', self', op_state') :=
      operation (op_state w) (context w) (self w) in
    (o, {| self := self'; context := context'; op_state := op_state';
           ticks := ticks w; draws := draws w; sleeps := sleeps w;
           calls := calls w ++ [o] |}).

(** A method of the manager, run on [self]. *)
Definition on_self {A} (m : Eff.M (S := Self) A) : M A :=
  fun w =>
    let '(o, self') := m (self w) in
    (o, {| self := self'; context := context w; op_state := op_state w;
           ticks := ticks w; draws := draws w; sleeps := sleeps w;
           calls := calls w |}).

(** A strategy, run on the context object and the random generator. *)
Definition on_context {A} (m : Strat A) : M A :=
  fun w =>
    let '(o, (context', draws')) := m (context w, draws w) in
    (o, {| self := self w; context := context'; op_state := op_state w;
           ticks := ticks w; draws := draws'; sleeps := sleeps w;
           calls := calls w |}).

Definition with_execution_time (r : OperationResult) (t : Q) : OperationResult :=
  mkResult (success r) (message r) (data r) t (failure_type r).

Definition append_failure (t : FailureType) : Strat unit :=
  fun s =>
    let c := fst s in
    (Returns tt,
     ({| operation_type := operation_type c; target := target c;
         parameters := parameters c; attempt_count := attempt_count c;
         last_error := last_error c;
         failure_history := failure_history c ++ [t] |}, snd s)).

Definition set_last_error (e : string) : Strat unit :=
  fun s =>
    let c := fst s in
    (Returns tt,
     ({| operation_type := operation_type c; target := target c;
         parameters := parameters c; attempt_count := attempt_count c;
         last_error := Some e;
         failure_history := failure_history c |}, snd s)).

(** The rest of the [try] block once the attempt has been judged a
    failure, kept in [last_result]: leave the loop on the last attempt,
    otherwise classify, apply the strategy and back off. *)
Definition after_failure (attempt : Z) (last_result : OperationResult) : M signal :=
  (w <- Eff.get ;;
   if max_retries (self w) <=? attempt then Eff.ret (Break last_result)
   else
     let failure_type := _analyze_failure last_result (context w) in
     on_context (append_failure failure_type) ;;;
     on_context (_apply_retry_strategy random_randint failure_type attempt) ;;;
     w <- Eff.get ;;
     wait_time <- on_context
                    (_calculate_wait_time random_uniform (self w) attempt
                       failure_type) ;;
     (if Qltb 0 wait_time then time_sleep wait_time else Eff.ret tt) ;;;
     Eff.ret (Continue last_result))%eff.

(** The [try] block of one pass; [start_time] is the reading taken by its
    first statement. *)
Definition attempt_try (attempt : Z) (start_time : Q) : M signal :=
  (result <- invoke ;;
   t <- now ;;
   let execution_time := (t - start_time)%Q in
   w <- Eff.get ;;
   match result with
   | RetResult result =>
       let result := with_execution_time result execution_time in
       if success result then
         on_self (_record_success (context w) attempt) ;;;
         Eff.ret (Return result)
       else after_failure attempt result
   | RetOther v =>
       if truthy v
       then Eff.ret (Return (mkResult true "操作成功" v execution_time None))
       else after_failure attempt
              (mkResult false "操作失败" VNone execution_time None)
   end)%eff.

(** The [except Exception as e] block of one pass. *)
Definition attempt_except (attempt : Z) (start_time : Q) (e : string) : M signal :=
  (t <- now ;;
   let execution_time := (t - start_time)%Q in
   on_context (set_last_error e) ;;;
   let last_result :=
     mkResult false ("执行异常: " ++ e) VNone execution_time (Some UNKNOWN) in
   w <- Eff.get ;;
   if max_retries (self w) <=? attempt then Eff.ret (Break last_result)
   else
     base_wait <- Eff.lift (times_pow2 (base_wait_time (self w)) attempt) ;;
     let wait_time := Qmin base_wait (max_wait_time (self w)) in
     time_sleep wait_time ;;;
     Eff.ret (Continue last_result))%eff.

(** The body of the [for] loop. *)
Definition attempt_once (attempt : Z) : M signal :=
  (start_time <- now ;;
   Eff.try_except (attempt_try attempt start_time)
                  (attempt_except attempt start_time))%eff.

(** [range(n)] *)
Definition range (n : Z) : list Z := map Z.of_nat (seq 0 (Z.to_nat n)).

(** The [for] loop over the remaining attempts: it ends with the returned
    result, or falls out with [last_result]. *)
Fixpoint attempts_loop (attempts : list Z) (last_result : option OperationResult)
  : M (OperationResult + option OperationResult) :=
  match attempts with
  | [] => Eff.ret (inr last_result)
  | attempt :: rest =>
      (s <- attempt_once attempt ;;
       match s with
       | Return result => Eff.ret (inl result)
       | Break last_result => Eff.ret (inr (Some last_result))
       | Continue last_result => attempts_loop rest (Some last_result)
       end)%eff
  end.

Definition str_int (z : Z) : string :=
  DecimalString.NilZero.string_of_int (Z.to_int z).

Definition execute_with_retry : M OperationResult :=
  (w <- Eff.get ;;
   exit <- attempts_loop (range (max_retries (self w) + 1)) None ;;
   match exit with
   | inl result => Eff.ret result
   | inr last_result =>
       w <- Eff.get ;;
       on_self (_record_failure (context w) (max_retries (self w) + 1)) ;;;
       Eff.ret
         match last_result with
         | Some r => r
         | None =>
             mkResult false
               ("重试 " ++ str_int (max_retries (self w)) ++ " 次后仍然失败")
               VNone 0 (Some UNKNOWN)
         end
   end)%eff.

End Execute.
End Retry.

(** ** src/skills/vision/multi_ocr_manager.py *)
Module MultiOCR.

(** One entry of [self.engine_stats]. *)
Record EngineStats := {
  success : Z;
  total : Z;
  avg_time : Q
}.

(** The attributes of a [MultiOCRManager]; of [self.engines] only the keys
    matter here, the engine objects being the backends below. *)
Record Self := {
  engines : gset string;
  engine_stats : gmap string EngineStats;
  fallback_order : list string
}.

(** [__init__] with [_initialize_engines]: the built-in engine is always
    loaded, each of the other three when its import and set-up succeed, and
    every loaded engine gets a zeroed statistics entry. *)
Definition loaded_engines (paddleocr easyocr tesseract : bool) : list string :=
  (if paddleocr then ["paddleocr"] else [])
  ++ (if easyocr then ["easyocr"] else [])
  ++ (if tesseract then ["tesseract"] else [])
  ++ ["builtin"].

Definition init (paddleocr easyocr tesseract : bool) : Self :=
  let names := loaded_engines paddleocr easyocr tesseract in
  {| engines := list_to_set names;
     engine_stats :=
       list_to_map
         (map (fun name => (name, {| success := 0; total := 0; avg_time := 0 |}))
              names);
     fallback_order := ["paddleocr"; "easyocr"; "tesseract"; "builtin"] |}.

(** The dictionary returned by [extract_text]. *)
Record Extraction := {
  text : string;
  confidence : Q;
  engine_used : option string;
  execution_time : Q;
  ok : bool
}.

(** [_estimate_confidence], in float arithmetic: the decimal constants
    are the doubles nearest to them, and each sum is rounded. *)
Definition _estimate_confidence {U : Text.Unicode} (text engine_name : string)
  : Q :=
  if String.eqb text "" || (Text.len (Text.strip text) =? 0) then 0.0%Q
  else
    let base_confidence : Q :=
      Float.round
        (if String.eqb engine_name "paddleocr" then 0.85
         else if String.eqb engine_name "easyocr" then 0.80
         else if String.eqb engine_name "tesseract" then 0.75
         else if String.eqb engine_name "builtin" then 0.60
         else 0.50)%Q in
    let text_length := Text.len (Text.strip text) in
    let base_confidence :=
      if 10 <? text_length
      then Float.add base_confidence (Float.round 0.05)
      else if text_length <? 3
           then Float.sub base_confidence (Float.round 0.10)
           else base_confidence in
    let base_confidence :=
      if existsb Text.isalnum (Text.chars text)
      then Float.add base_confidence (Float.round 0.05)
      else base_confidence in
    Qmin base_confidence 1.0.

(** [_update_engine_stats]: the counters are incremented in place before
    the running average is divided out, in float arithmetic. *)
Definition _update_engine_stats (engine_name : string) (success : bool)
    (execution_time : Q) : Eff.M (S := gmap string EngineStats) unit :=
  fun engine_stats =>
    match engine_stats !! engine_name with
    | None => (Returns tt, engine_stats)
    | Some stats =>
        let total := total stats + 1 in
        let successes :=
          if success then MultiOCR.success stats + 1 else MultiOCR.success stats in
        let store avg :=
          <[engine_name := {| success := successes; total := total;
                              avg_time := avg |}]> engine_stats in
        if total =? 1 then (Returns tt, store execution_time)
        else if total =? 0
        then (Raises "ZeroDivisionError: float division by zero",
              store (avg_time stats))
        else (Returns tt,
              store (Float.div
                       (Float.add
                          (Float.mul (avg_time stats) (Float.of_int (total - 1)))
                          execution_time)
                       (Float.of_int total)))
    end.

(** A line of [results[0]] as PaddleOCR returns it, and an item of what
    EasyOCR's [readtext] returns. *)
Record PaddleLine := { pl_text : string; pl_confidence : Q }.
Record EasyItem := { ez_text : string; ez_confidence : Q }.

(** What one call of [extract_text] reads and writes: the manager, the
    number of clock readings made, and the engines called so far, each with
    the statistics as they stood when the call was made. *)
Record World := {
  self : Self;
  ticks : nat;
  invocations : list (string * gmap string EngineStats)
}.

Section Engines.
Context {U : Text.Unicode}.
Variable Image : Type.
(** The backends: [engine.ocr(image_np, cls=True)] (the lines of
    [results[0]], none when either is empty), [engine.readtext(image_np)],
    pytesseract's [image_to_string], and the contours that the built-in
    engine gets from OpenCV. *)
Variable paddle_ocr : Image -> outcome (list PaddleLine).
Variable easyocr_readtext : Image -> outcome (list EasyItem).
Variable tesseract_image_to_string : Image -> outcome string.
Variable builtin_contours : Image -> outcome Z.
(** The successive readings of [time.time()]. *)
Variable time_time : nat -> Q.

(** [BuiltinOCR.image_to_string]: both of its [try] blocks answer with a
    fixed text. *)
Definition builtin_image_to_string (image : Image) : string :=
  match builtin_contours image with
  | Returns n => if 5 <? n then "检测到文字区域" else "内置OCR测试文本"
  | Raises _ => "内置OCR测试文本"
  end.

(** [' '.join(parts)] *)
Definition join_spaces (parts : list string) : string := String.concat " " parts.

Definition _extract_with_engine (image : Image) (engine_name : string)
  : outcome string :=
  if String.eqb engine_name "paddleocr" then
    match paddle_ocr image with
    | Returns lines =>
        Returns
          (match lines with
           | [] => ""
           | _ =>
               join_spaces
                 (map pl_text
                      (List.filter (fun l => negb (String.eqb (pl_text l) ""))
                                   lines))
           end)
    | Raises e => Raises e
    end
  else if String.eqb engine_name "easyocr" then
    match easyocr_readtext image with
    | Returns items =>
        Returns
          (join_spaces
             (map ez_text
                  (List.filter (fun i => Qltb 0.5 (ez_confidence i)) items)))
    | Raises e => Raises e
    end
  else if String.eqb engine_name "tesseract" then tesseract_image_to_string image
  else if String.eqb engine_name "builtin" then Returns (builtin_image_to_string image)
  else Raises ("未知的OCR引擎: " ++ engine_name).

Local Abbreviation M := (Eff.M (S := World)).

Definition now : M Q :=
  fun w => (Returns (time_time (ticks w)),
            {| self := self w; ticks := S (ticks w);
               invocations := invocations w |}).

(** The call of an engine, logged with the statistics of the moment. *)
Definition invoke (image : Image) (engine_name : string) : M string :=
  fun w => (_extract_with_engine image engine_name,
            {| self := self w; ticks := ticks w;
               invocations :=
                 invocations w ++ [(engine_name, engine_stats (self w))] |}).

Definition on_stats {A} (m : Eff.M (S := gmap string EngineStats) A) : M A :=
  fun w =>
    let '(o, stats') := m (engine_stats (self w)) in
    (o, {| self := {| engines := engines (self w); engine_stats := stats';
                      fallback_order := fallback_order (self w) |};
           ticks := ticks w; invocations := invocations w |}).

(** The engine order built at the head of [extract_text]. *)
Definition engines_to_try (self : Self) (prefer_engine : option string)
    (preferred_engines : option (list string)) : list string :=
  let nonempty (o : option string) :=
    match o with Some s => negb (String.eqb s "") | None => false end in
  let prefer_engine :=
    match preferred_engines with
    | Some (first :: _) => if nonempty prefer_engine then prefer_engine else Some first
    | _ => prefer_engine
    end in
  match prefer_engine with
  | Some p =>
      if nonempty prefer_engine && bool_decide (p ∈ engines self)
      then p :: filter (fun e => e ≠ p) (fallback_order self)
      else fallback_order self
  | None => fallback_order self
  end.

(** One pass of the loop for an engine that is loaded: the result when
    the engine gave text, [None] to go on to the next engine. *)
Definition try_engine (image : Image) (engine_name : string)
  : M (option Extraction) :=
  (start_time <- now ;;
   Eff.try_except
     (result <- invoke image engine_name ;;
      t <- now ;;
      let execution_time := (t - start_time)%Q in
      on_stats (_update_engine_stats engine_name true execution_time) ;;;
      if negb (String.eqb result "") && (0 <? Text.len (Text.strip result))
      then Eff.ret (Some {| text := Text.strip result;
                            confidence := _estimate_confidence result engine_name;
                            engine_used := Some engine_name;
                            execution_time := execution_time;
                            ok := true |})
      else Eff.ret None)
     (fun e =>
        t <- now ;;
        let execution_time := (t - start_time)%Q in
        on_stats (_update_engine_stats engine_name false execution_time) ;;;
        Eff.ret None))%eff.

(** The [for] loop over the engine order. *)
Fixpoint try_engines (image : Image) (names : list string) : M (option Extraction) :=
  match names with
  | [] => Eff.ret None
  | engine_name :: rest =>
      (w <- Eff.get ;;
       if bool_decide (engine_name ∈ engines (self w)) then
         found <- try_engine image engine_name ;;
         match found with
         | Some r => Eff.ret (Some r)
         | None => try_engines image rest
         end
       else try_engines image rest)%eff
  end.

Definition extract_text (image : Image) (prefer_engine : option string)
    (preferred_engines : option (list string)) : M Extraction :=
  (w <- Eff.get ;;
   found <- try_engines image
              (engines_to_try (self w) prefer_engine preferred_engines) ;;
   Eff.ret match found with
           | Some r => r
           | None => {| text := ""; confidence := 0.0; engine_used := None;
                        execution_time := 0; ok := false |}
           end)%eff.

End Engines.
End MultiOCR.

(** ** Shared by the two vision modules *)

(** The [position] dictionary of a recognised text or element. *)
Record Position := {
  x : Z;
  y : Z;
  width : Z;
  height : Z;
  center_x : Z;
  center_y : Z
}.

(** [a / b] on two ints: true division, which raises on a zero divisor. *)
Definition true_div (a b : Z) : outcome Q :=
  if b =? 0 then Raises "ZeroDivisionError: division by zero"
  else Returns (inject_Z a / inject_Z b)%Q.

(** [l.sort(key=key, reverse=True)]: a stable sort, larger keys first, items
    with equal keys staying in their original order. *)
Fixpoint insert_desc {A} (key : A -> Q) (a : A) (sorted : list A) : list A :=
  match sorted with
  | [] => [a]
  | b :: rest =>
      if Qltb (key a) (key b) then b :: insert_desc key a rest
      else a :: sorted
  end.

Definition sort_desc {A} (key : A -> Q) (l : list A) : list A :=
  foldr (insert_desc key) [] l.

(** [try: body except Exception: return dflt] *)
Definition or_else {A} (body : outcome A) (dflt : A) : A :=
  match body with
  | Returns a => a
  | Raises _ => dflt
  end.

(** ** src/skills/vision/ocr_engine.py *)
Module OCREngine.

(** One box of the table that [pytesseract.image_to_data] returns, with
    [conf] already through [int()]. *)
Record RawBox := {
  raw_text : string;
  raw_conf : Z;
  raw_left : Z;
  raw_top : Z;
  raw_width : Z;
  raw_height : Z;
  raw_level : Z
}.

(** An item of the list returned by [read_screen_text]. *)
Record TextInfo := {
  text : string;
  position : Position;
  confidence : Z;
  level : Z
}.

(** An item of the list returned by [find_text_location]. *)
Record TextMatch := {
  info : TextInfo;
  match_type : string;
  match_score : Q
}.

(** [self.confidence_threshold] *)
Definition confidence_threshold : Z := 30.

(** [re.sub(r'[^\w]', '', s)]: a word character is an alphanumeric one
    or the underscore. *)
Definition word_chars {U : Text.Unicode} (s : string) : string :=
  Text.join
    (List.filter (fun c => Text.isalnum c || String.eqb c "_") (Text.chars s)).

Definition _fuzzy_match {U : Text.Unicode} (text1 text2 : string) : bool :=
  let clean1 := word_chars (Text.lower text1) in
  let clean2 := word_chars (Text.lower text2) in
  if (2 <=? Text.len clean1) && (2 <=? Text.len clean2)
  then Text.contains clean1 clean2 || Text.contains clean2 clean1
  else false.

(** Row [i] of the edit-distance table from row [i-1]: [left] is the entry
    just written, [diag] the entry above and to the left of the next one,
    [above] the rest of the previous row. *)
Fixpoint dp_row (c1 : string) (text2 : list string) (left diag : Z) (above : list Z)
  : list Z :=
  match text2, above with
  | c2 :: text2', up :: above' =>
      let cell :=
        if String.eqb c1 c2 then diag
        else Z.min (Z.min up left) diag + 1 in
      cell :: dp_row c1 text2' cell up above'
  | _, _ => []
  end.

(** The rows of the table, top to bottom; the result is the last row. *)
Fixpoint dp_rows (text1 : list string) (text2 : list string) (i : Z) (prev : list Z)
  : list Z :=
  match text1 with
  | [] => prev
  | c1 :: text1' =>
      let row :=
        match prev with
        | [] => []
        | diag :: above => i :: dp_row c1 text2 i diag above
        end in
      dp_rows text1' text2 (i + 1) row
  end.

Definition edit_distance (text1 text2 : string) : Z :=
  let t2 := Text.chars text2 in
  let row0 := map Z.of_nat (seq 0 (S (length t2))) in
  List.last (dp_rows (Text.chars text1) t2 1 row0) 0.

Definition _calculate_similarity (text1 text2 : string) : Q :=
  let len1 := Text.len text1 in
  let len2 := Text.len text2 in
  if (len1 =? 0) || (len2 =? 0) then 0.0%Q
  else
    let max_len := Z.max len1 len2 in
    or_else
      (match true_div (edit_distance text1 text2) max_len with
       | Returns r => Returns (Qmax 0.0 (1.0 - r))
       | Raises e => Raises e
       end)
      0.0%Q.

Section OCREngine.
Context {U : Text.Unicode}.
Variable Image : Type.
(** The guarded import, and [pytesseract.image_to_data] on the
    preprocessed image; [Raises] stands for any exception of the [try]
    block of [read_screen_text]. *)
Variable OCR_AVAILABLE : bool.
Variable image_to_data : Image -> outcome (list RawBox).

Definition read_screen_text (image : Image) : list TextInfo :=
  if negb OCR_AVAILABLE then []
  else
    or_else
      (match image_to_data image with
       | Returns boxes =>
           Returns
             (omap (fun b =>
                if raw_conf b <? confidence_threshold then None
                else
                  let text := Text.strip (raw_text b) in
                  if String.eqb text "" then None
                  else
                    Some {| text := text;
                            position :=
                              {| x := raw_left b; y := raw_top b;
                                 width := raw_width b; height := raw_height b;
                                 center_x := raw_left b + raw_width b / 2;
                                 center_y := raw_top b + raw_height b / 2 |};
                            confidence := raw_conf b;
                            level := raw_level b |}) boxes)
       | Raises e => Raises e
       end)
      [].

(** The match, if any, that one recognised text contributes. *)
Definition match_one (target_text : string) (fuzzy_match : bool)
    (text_info : TextInfo) : outcome (option TextMatch) :=
  let target_lower := Text.lower target_text in
  let text := text text_info in
  let text_lower := Text.lower text in
  if String.eqb target_text text then
    Returns (Some {| info := text_info; match_type := "exact";
                     match_score := 1.0 |})
  else if Text.contains target_lower text_lower then
    match true_div (Text.len target_text) (Text.len text) with
    | Returns match_score =>
        Returns (Some {| info := text_info; match_type := "contains";
                         match_score := match_score |})
    | Raises e => Raises e
    end
  else if fuzzy_match && _fuzzy_match target_text text then
    let match_score := _calculate_similarity target_text text in
    if Qltb 0.6 match_score
    then Returns (Some {| info := text_info; match_type := "fuzzy";
                          match_score := match_score |})
    else Returns None
  else Returns None.

(** The loop over the recognised texts; an exception ends it. *)
Fixpoint collect_matches (target_text : string) (fuzzy_match : bool)
    (all_texts : list TextInfo) : outcome (list TextMatch) :=
  match all_texts with
  | [] => Returns []
  | text_info :: rest =>
      match match_one target_text fuzzy_match text_info with
      | Raises e => Raises e
      | Returns found =>
          match collect_matches target_text fuzzy_match rest with
          | Raises e => Raises e
          | Returns more =>
              Returns (match found with Some m => m :: more | None => more end)
          end
      end
  end.

Definition find_text_location (image : Image) (target_text : string)
    (fuzzy_match : bool) : list TextMatch :=
  if negb OCR_AVAILABLE then []
  else
    or_else
      (match read_screen_text image with
       | [] => Returns []
       | all_texts =>
           match collect_matches target_text fuzzy_match all_texts with
           | Returns matches => Returns (sort_desc match_score matches)
           | Raises e => Raises e
           end
       end)
      [].

End OCREngine.
End OCREngine.

(** ** src/skills/vision/element_detector.py *)
Module ElementDetector.

(** A candidate element: the dictionary the strategies build. *)
Record Element := {
  position : Position;
  confidence : Q;
  detection_method : string;
  text : option string;
  element_type : string
}.

(** A contour as the strategies use it: [cv2.contourArea] and
    [cv2.boundingRect]. *)
Record Contour := {
  area : Q;
  rect_x : Z;
  rect_y : Z;
  rect_w : Z;
  rect_h : Z
}.

(** What [_calculate_button_score] measures on a region: the non-zero edge
    pixels and the standard deviation of the grey levels. *)
Record ButtonFeatures := {
  edge_pixels : Z;
  std_dev : Q
}.

(** What [_calculate_input_score] measures on a region: whether some
    contour approximates to four corners, and the mean grey level. *)
Record InputFeatures := {
  has_four_corners : bool;
  mean_intensity : Q
}.

(** [_calculate_overlap]: the ratio of the intersection to the union of two
    rectangles. *)
Definition _calculate_overlap (pos1 pos2 : Position) : Q :=
  let x1 := Z.max (x pos1) (x pos2) in
  let y1 := Z.max (y pos1) (y pos2) in
  let x2 := Z.min (x pos1 + width pos1) (x pos2 + width pos2) in
  let y2 := Z.min (y pos1 + height pos1) (y pos2 + height pos2) in
  if (x2 <=? x1) || (y2 <=? y1) then 0.0%Q
  else
    let intersection := (x2 - x1) * (y2 - y1) in
    let area1 := width pos1 * height pos1 in
    let area2 := width pos2 * height pos2 in
    let union := area1 + area2 - intersection in
    if 0 <? union then (inject_Z intersection / inject_Z union)%Q else 0.0%Q.

(** The inner loop of [_deduplicate_elements]: the index of the first
    retained element that overlaps [element] by more than 0.7. *)
Fixpoint first_overlapping (element : Element) (unique_elements : list Element)
  : option (nat * Element) :=
  match unique_elements with
  | [] => None
  | existing :: rest =>
      if Qltb 0.7 (_calculate_overlap (position element) (position existing))
      then Some (0%nat, existing)
      else
        match first_overlapping element rest with
        | Some (i, e) => Some (S i, e)
        | None => None
        end
  end.

(** One pass of the outer loop: [element] against the retained ones. *)
Definition dedup_step (unique_elements : list Element) (element : Element)
  : list Element :=
  match first_overlapping element unique_elements with
  | Some (i, existing) =>
      if Qltb (confidence existing) (confidence element)
      then delete i unique_elements ++ [element]
      else unique_elements
  | None => unique_elements ++ [element]
  end.

Definition _deduplicate_elements (elements : list Element) : list Element :=
  match elements with
  | [] => []
  | _ => foldl dedup_step [] elements
  end.

Definition _expand_button_area (text_pos : Position) : Position :=
  let padding := 10 in
  {| x := Z.max 0 (x text_pos - padding);
     y := Z.max 0 (y text_pos - padding);
     width := width text_pos + 2 * padding;
     height := height text_pos + 2 * padding;
     center_x := center_x text_pos;
     center_y := center_y text_pos |}.

(** The [position] dictionary built from a bounding rectangle. *)
Definition rect_position (x y w h : Z) : Position :=
  {| x := x; y := y; width := w; height := h;
     center_x := x + w / 2; center_y := y + h / 2 |}.

(** [_is_menu_item_text] *)
Definition menu_keywords : list string :=
  ["文件"; "编辑"; "查看"; "工具"; "帮助"; "设置"; "选项";
   "File"; "Edit"; "View"; "Tools"; "Help"; "Settings"; "Options";
   "首页"; "关于"; "联系"; "登录"; "注册"; "退出"]%string.

Definition _is_menu_item_text (text : string) : bool :=
  existsb (fun keyword => Text.contains keyword text) menu_keywords.

Section ElementDetector.
Context {U : Text.Unicode}.
Variable Image : Type.
(** The guarded imports of this module and of ocr_engine.py. *)
Variable VISION_AVAILABLE : bool.
Variable OCR_AVAILABLE : bool.
(** [self.confidence_threshold], set to 0.7 by [__init__]. *)
Variable confidence_threshold : Q.
(** Tesseract behind [OCREngine]. *)
Variable image_to_data : Image -> outcome (list OCREngine.RawBox).
(** [cv2.matchTemplate(image, template, cv2.TM_CCOEFF_NORMED)]: the entries
    [(x, y, score)] of the result in row-major order, and
    [template.shape[:2]] as [(height, width)]. *)
Variable match_template : Image -> Image -> outcome (list (Z * Z * Q)).
Variable template_shape : Image -> Z * Z.
(** The external contours of the Canny edges at thresholds 50/150 and
    30/100, and of the blue mask. *)
Variable contours_50_150 : Image -> outcome (list Contour).
Variable contours_30_100 : Image -> outcome (list Contour).
Variable contours_blue : Image -> outcome (list Contour).
(** [image[y:y+h, x:x+w].size] and the measurements on that region. *)
Variable region_size : Image -> Z -> Z -> Z -> Z -> outcome Z.
Variable button_features : Image -> Z -> Z -> Z -> Z -> outcome ButtonFeatures.
Variable input_features : Image -> Z -> Z -> Z -> Z -> outcome InputFeatures.

(** Sequencing of calls that may raise, inside one [try] block. *)
Definition andthen {A B} (o : outcome A) (k : A -> outcome B) : outcome B :=
  match o with
  | Returns a => k a
  | Raises e => Raises e
  end.

Definition _calculate_button_score (image : Image) (x y w h : Z) : Q :=
  or_else
    (andthen (region_size image x y w h) (fun size =>
     if size =? 0 then Returns 0.0%Q
     else
       andthen (button_features image x y w h) (fun f =>
       andthen (true_div (edge_pixels f) (w * h)) (fun edge_ratio =>
       let score := 0.0%Q in
       let score :=
         if Qltb 0.1 edge_ratio && Qltb edge_ratio 0.5
         then (score + 0.3)%Q else score in
       let score := if Qltb (std_dev f) 30 then (score + 0.3)%Q else score in
       let score :=
         if (20 <? w) && (w <? 200) && (15 <? h) && (h <? 60)
         then (score + 0.4)%Q else score in
       Returns (Qmin 1.0 score)))))
    0.0%Q.

Definition _calculate_input_score (image : Image) (x y w h : Z) : Q :=
  or_else
    (andthen (region_size image x y w h) (fun size =>
     if size =? 0 then Returns 0.0%Q
     else
       andthen (true_div w h) (fun aspect_ratio =>
       let score := 0.0%Q in
       let score :=
         if Qltb 2 aspect_ratio && Qltb aspect_ratio 15
         then (score + 0.4)%Q else score in
       andthen (input_features image x y w h) (fun f =>
       let score := if has_four_corners f then (score + 0.3)%Q else score in
       let score :=
         if Qltb 200 (mean_intensity f) then (score + 0.3)%Q else score in
       Returns (Qmin 1.0 score)))))
    0.0%Q.

Definition _find_button_by_text (image : Image) (button_text : string)
  : list Element :=
  map (fun m =>
         {| position :=
              _expand_button_area (OCREngine.position (OCREngine.info m));
            confidence := (OCREngine.match_score m * 0.9)%Q;
            detection_method := "text_recognition";
            text := Some (OCREngine.text (OCREngine.info m));
            element_type := "button" |})
      (OCREngine.find_text_location Image OCR_AVAILABLE image_to_data
         image button_text true).

Definition _find_button_by_template (image template : Image) : list Element :=
  or_else
    (andthen (match_template image template) (fun result =>
     let locations :=
       List.filter (fun e => negb (Qltb (snd e) confidence_threshold)) result in
     let '(template_h, template_w) := template_shape template in
     Returns
       (map (fun e =>
               let '(px, py, score) := e in
               {| position := rect_position px py template_w template_h;
                  confidence := score;
                  detection_method := "template_matching";
                  text := None;
                  element_type := "button" |})
            locations)))
    [].

(** A loop over contours in which a pass keeps an element, skips the
    contour, or raises. *)
Fixpoint over_contours (pass : Contour -> outcome (option Element))
    (contours : list Contour) : outcome (list Element) :=
  match contours with
  | [] => Returns []
  | c :: rest =>
      andthen (pass c) (fun kept =>
      andthen (over_contours pass rest) (fun more =>
      Returns (match kept with Some e => e :: more | None => more end)))
  end.

Definition _find_button_by_features (image : Image) : list Element :=
  or_else
    (andthen (contours_50_150 image) (fun contours =>
     over_contours (fun c =>
       if Qltb (area c) 100 || Qltb 50000 (area c) then Returns None
       else
         let '(x, y, w, h) := (rect_x c, rect_y c, rect_w c, rect_h c) in
         andthen (true_div w h) (fun aspect_ratio =>
         if Qltb aspect_ratio 0.3 || Qltb 10 aspect_ratio then Returns None
         else
           let rect_area := w * h in
           if rect_area =? 0
           then Raises "ZeroDivisionError: float division by zero"
           else
             let extent := (area c / inject_Z rect_area)%Q in
             if Qltb extent 0.5 then Returns None
             else
               let button_score := _calculate_button_score image x y w h in
               if Qltb 0.5 button_score
               then Returns (Some {| position := rect_position x y w h;
                                     confidence := button_score;
                                     detection_method := "feature_analysis";
                                     text := None;
                                     element_type := "button" |})
               else Returns None)) contours))
    [].

Definition _find_input_near_label (image : Image) (label_pos : Position)
  : option Position :=
  let search_areas :=
    [(x label_pos + width label_pos + 10, y label_pos, 200, height label_pos);
     (x label_pos, y label_pos + height label_pos + 5, width label_pos + 100, 30)] in
  match
    List.find (fun a =>
                 let '(x, y, w, h) := a in
                 Qltb 0.5 (_calculate_input_score image x y w h))
              search_areas
  with
  | Some (x, y, w, h) => Some (rect_position x y w h)
  | None => None
  end.

Definition _find_input_by_label (image : Image) (field_name : string)
  : list Element :=
  omap (fun m =>
          match _find_input_near_label image
                  (OCREngine.position (OCREngine.info m)) with
          | Some input_pos =>
              Some {| position := input_pos;
                      confidence := (OCREngine.match_score m * 0.8)%Q;
                      detection_method := "label_association";
                      text := Some (OCREngine.text (OCREngine.info m));
                      element_type := "input_field" |}
          | None => None
          end)
       (OCREngine.find_text_location Image OCR_AVAILABLE image_to_data
          image field_name true).

Definition _find_input_by_features (image : Image) : list Element :=
  or_else
    (andthen (contours_30_100 image) (fun contours =>
     over_contours (fun c =>
       if Qltb (area c) 200 || Qltb 20000 (area c) then Returns None
       else
         let '(x, y, w, h) := (rect_x c, rect_y c, rect_w c, rect_h c) in
         andthen (true_div w h) (fun aspect_ratio =>
         if Qltb aspect_ratio 1.5 || Qltb 20 aspect_ratio then Returns None
         else
           let input_score := _calculate_input_score image x y w h in
           if Qltb 0.6 input_score
           then Returns (Some {| position := rect_position x y w h;
                                 confidence := input_score;
                                 detection_method := "feature_analysis";
                                 text := None;
                                 element_type := "input_field" |})
           else Returns None)) contours))
    [].

Definition _find_links (image : Image) : list Element :=
  or_else
    (andthen (contours_blue image) (fun contours =>
     over_contours (fun c =>
       if Qltb (area c) 50 then Returns None
       else
         Returns (Some {| position :=
                            rect_position (rect_x c) (rect_y c) (rect_w c) (rect_h c);
                          confidence := 0.7;
                          detection_method := "color_analysis";
                          text := None;
                          element_type := "link" |})) contours))
    [].

Definition _find_icons (image : Image) : list Element :=
  or_else
    (andthen (contours_50_150 image) (fun contours =>
     over_contours (fun c =>
       if Qltb (area c) 100 || Qltb 2500 (area c) then Returns None
       else
         let '(x, y, w, h) := (rect_x c, rect_y c, rect_w c, rect_h c) in
         andthen (true_div w h) (fun aspect_ratio =>
         if Qltb aspect_ratio 0.5 || Qltb 2.0 aspect_ratio then Returns None
         else
           Returns (Some {| position := rect_position x y w h;
                            confidence := 0.6;
                            detection_method := "shape_analysis";
                            text := None;
                            element_type := "icon" |}))) contours))
    [].

Definition _find_menu_items (image : Image) : list Element :=
  omap (fun text_info =>
          let text := Text.strip (OCREngine.text text_info) in
          if (Text.len text <? 2) || (20 <? Text.len text) then None
          else if _is_menu_item_text text then
            Some {| position := OCREngine.position text_info;
                    confidence := 0.7;
                    detection_method := "text_analysis";
                    text := Some text;
                    element_type := "menu_item" |}
          else None)
       (OCREngine.read_screen_text Image OCR_AVAILABLE image_to_data image).

(** [element['element_type'] = tag] *)
Definition tagged (tag : string) (e : Element) : Element :=
  {| position := position e; confidence := confidence e;
     detection_method := detection_method e; text := text e;
     element_type := tag |}.

Definition find_button (image : Image) (button_text : option string)
    (button_template : option Image) : list Element :=
  if negb VISION_AVAILABLE then []
  else
    let buttons := [] in
    let buttons :=
      match button_text with
      | Some t =>
          if negb (String.eqb t "")
          then buttons ++ _find_button_by_text image t else buttons
      | None => buttons
      end in
    let buttons :=
      match button_template with
      | Some t => buttons ++ _find_button_by_template image t
      | None => buttons
      end in
    let buttons := buttons ++ _find_button_by_features image in
    let buttons := _deduplicate_elements buttons in
    sort_desc confidence buttons.

Definition find_input_field (image : Image) (field_name : option string)
  : list Element :=
  if negb VISION_AVAILABLE then []
  else
    let input_fields := [] in
    let input_fields :=
      match field_name with
      | Some n =>
          if negb (String.eqb n "")
          then input_fields ++ _find_input_by_label image n else input_fields
      | None => input_fields
      end in
    let input_fields := input_fields ++ _find_input_by_features image in
    let input_fields := _deduplicate_elements input_fields in
    sort_desc confidence input_fields.

Definition find_clickable_elements (image : Image) : list Element :=
  if negb VISION_AVAILABLE then []
  else
    let clickable_elements :=
      map (tagged "button") (find_button image None None)
      ++ map (tagged "link") (_find_links image)
      ++ map (tagged "icon") (_find_icons image)
      ++ map (tagged "menu_item") (_find_menu_items image) in
    let clickable_elements := _deduplicate_elements clickable_elements in
    sort_desc confidence clickable_elements.

End ElementDetector.
End ElementDetector.

Module BestEngine.
Import MultiOCR.

(** The score that [get_best_engine] gives an engine with at least one
    attempt: 0.7 of its success rate plus 0.3 of its speed score, in float
    arithmetic (the quotient of two integers is rounded once). *)
Definition score (stats : EngineStats) : Q :=
  let success_rate :=
    Float.div (inject_Z (success stats)) (inject_Z (total stats)) in
  let speed_score := Qmax 0 (Float.sub 1 (Float.div (avg_time stats) 10)) in
  Float.add (Float.mul success_rate (Float.round 0.7))
            (Float.mul speed_score (Float.round 0.3)).

(** The loop of [get_best_engine] over [self.engine_stats.items()], which
    Python walks in insertion order; [best_engine] and [best_score] are its
    two variables. *)
Fixpoint best_of (engines : gset string) (items : list (string * EngineStats))
    (best_engine : option string) (best_score : Q) : option string * Q :=
  match items with
  | [] => (best_engine, best_score)
  | (engine_name, stats) :: rest =>
      if negb (bool_decide (engine_name ∈ engines)) || (total stats =? 0)
      then best_of engines rest best_engine best_score
      else
        let score := score stats in
        if Qltb best_score score
        then best_of engines rest (Some engine_name) score
        else best_of engines rest best_engine best_score
  end.

(** [get_best_engine]; [items] is [self.engine_stats.items()]. *)
Definition get_best_engine (self : Self) (items : list (string * EngineStats))
  : outcome (option string) :=
  let best_engine := fst (best_of (engines self) items None (-1)%Q) in
  let fallback :=
    if bool_decide (engines self = ∅) then Returns None
    else
      match fallback_order self with
      | first :: _ => Returns (Some first)
      | [] => Raises "IndexError: list index out of range"
      end in
  match best_engine with
  | Some name => if String.eqb name "" then fallback else Returns (Some name)
  | None => fallback
  end.

End BestEngine.

Module RetryTuning.
Import Retry.

Definition with_max_retries (self : Self) (n : Z) : Self :=
  {| max_retries := n;
     base_wait_time := base_wait_time self;
     max_wait_time := max_wait_time self;
     failure_stats := failure_stats self |}.

(** [sum(stats.get(key, 0) for stats in self.failure_stats.values())] for
    one of the two counters that every entry has. *)
Definition sum_over (counter : Stats -> Z) (m : gmap string Stats) : Z :=
  map_fold (fun _ stats acc => acc + counter stats) 0 m.

(** [optimize_retry_parameters] *)
Definition optimize_retry_parameters (self : Self) : Self :=
  let total_operations := sum_over total_attempts (failure_stats self) in
  if total_operations <? 10 then self
  else
    let total_success := sum_over successful_attempts (failure_stats self) in
    let success_rate :=
      if 0 <? total_operations
      then (inject_Z total_success / inject_Z total_operations)%Q
      else 0%Q in
    if Qltb success_rate 0.7 then
      with_max_retries self (Z.min (max_retries self + 1) 8)
    else if Qltb 0.95 success_rate then
      with_max_retries self (Z.max (max_retries self - 1) 3)
    else self.

End RetryTuning.

Module ActionHistory.
Import ActionSystem.

(** [get_action_history]: [limit] is [None] by default; a limit of 0 is
    falsy, and [action_history[-limit:]] with a negative limit is a slice
    from the index [-limit]. *)
Definition get_action_history (action_history : list OperationRecord)
    (limit : option Z) : list OperationRecord :=
  match limit with
  | None => action_history
  | Some limit =>
      if limit =? 0 then action_history
      else if 0 <? limit then last_items (Z.to_nat limit) action_history
      else skipn (Z.to_nat (- limit)) action_history
  end.

End ActionHistory.

Module ActionRun.
Import ActionSystem.

(** One element of the list given to [execute_sequence]: the dictionary's
    ['type'] entry, taken here to be a string when it is present, and its
    other entries. *)
Record Action := {
  type : option string;
  fields : gmap string PyVal
}.

(** The two entries of [self.config] that running a sequence reads;
    [__init__] creates no ['stop_on_failure'] entry. *)
Record Config := {
  default_delay : PyVal;
  stop_on_failure : option PyVal
}.

(** What running actions reads and writes: the history, the configuration,
    the number of clock readings made, the state of the desktop behind the
    controllers, the calls of [time.sleep] that [execute_sequence] makes
    between actions, and the calls of [time.sleep] made inside the
    [_execute_*] methods ([_execute_wait] is one such call). *)
Record World {OS : Type} := {
  action_history : list OperationRecord;
  config : Config;
  ticks : nat;
  os : OS;
  naps : list Q;
  handler_naps : list Q
}.
Arguments World OS : clear implicits.

Section ActionRun.
Variable OS : Type.
(** The successive readings of [time.time()]. *)
Variable time_time : nat -> Q.

(** An [_execute_*] method: it drives a controller, sleeping as it sees
    fit, builds its [ActionResult] (reading the clock), and raises a
    [TypeError] when the keyword arguments do not fit its parameters.  It
    has no access to the history.  With its outcome it hands back the
    clock, the desktop and the sleeps it made. *)
Definition Handler : Type :=
  gmap string PyVal -> nat * OS -> outcome ActionResult * (nat * OS * list Q).

Variable _execute_click : Handler.
Variable _execute_type : Handler.
Variable _execute_key_press : Handler.
Variable _execute_hotkey : Handler.
Variable _execute_drag : Handler.
Variable _execute_scroll : Handler.
Variable _execute_window_open : Handler.
Variable _execute_window_close : Handler.
Variable _execute_window_switch : Handler.
Variable _execute_window_resize : Handler.
Variable _execute_wait : Handler.

Definition M : Type -> Type := Eff.M (S := World OS).

Definition with_clock (w : World OS) (t : nat) (s : OS) : World OS :=
  {| action_history := action_history w; config := config w;
     ticks := t; os := s; naps := naps w; handler_naps := handler_naps w |}.

(** [time.time()] *)
Definition now : M Q :=
  fun w => (Returns (time_time (ticks w)), with_clock w (S (ticks w)) (os w)).

(** [ActionResult(success, message)], whose [__init__] reads the clock. *)
Definition new_result (success : bool) (message : string) : M ActionResult :=
  (timestamp <- now ;;
   Eff.ret {| success := success; message := message; data := VNone;
              timestamp := timestamp |})%eff.

(** The call of an [_execute_*] method with the keyword arguments. *)
Definition run (handler : Handler) (kwargs : gmap string PyVal)
  : M ActionResult :=
  fun w =>
    let '(o, (t, s, slept)) := handler kwargs (ticks w, os w) in
    (o, {| action_history := action_history w; config := config w;
           ticks := t; os := s; naps := naps w;
           handler_naps := handler_naps w ++ slept |}).

(** [self._record_action(action_type, kwargs, result, execution_time)] *)
Definition record (action_type : string) (kwargs : gmap string PyVal)
    (result : ActionResult) (execution_time : Q) : M unit :=
  (timestamp <- now ;;
   Eff.modify (fun w =>
     {| action_history :=
          _record_action (action_history w) action_type kwargs result
            execution_time timestamp;
        config := config w; ticks := ticks w; os := os w; naps := naps w;
        handler_naps := handler_naps w |}))%eff.

Definition execute_action (action_type : string) (kwargs : gmap string PyVal)
  : M ActionResult :=
  Eff.try_except
    (start_time <- now ;;
     result <-
       (if String.eqb action_type "click" then run _execute_click kwargs
        else if String.eqb action_type "type" then run _execute_type kwargs
        else if String.eqb action_type "key_press"
        then run _execute_key_press kwargs
        else if String.eqb action_type "hotkey" then run _execute_hotkey kwargs
        else if String.eqb action_type "drag" then run _execute_drag kwargs
        else if String.eqb action_type "scroll" then run _execute_scroll kwargs
        else if String.eqb action_type "window_open"
        then run _execute_window_open kwargs
        else if String.eqb action_type "window_close"
        then run _execute_window_close kwargs
        else if String.eqb action_type "window_switch"
        then run _execute_window_switch kwargs
        else if String.eqb action_type "window_resize"
        then run _execute_window_resize kwargs
        else if String.eqb action_type "wait" then run _execute_wait kwargs
        else new_result false ("未知操作类型: " ++ action_type)) ;;
     finish_time <- now ;;
     let execution_time := (finish_time - start_time)%Q in
     record action_type kwargs result execution_time ;;;
     Eff.ret result)%eff
    (fun e => new_result false ("操作执行异常: " ++ e)).

(** [delay > 0]: a [TypeError] for a delay that is not a number. *)
Definition is_positive (delay : PyVal) : outcome bool :=
  match Retry.number delay with
  | Some n => Returns (Qltb 0 (Retry.as_float n))
  | None => Raises "TypeError: '>' not supported"
  end.

(** [time.sleep(delay)] for a delay already found positive. *)
Definition time_sleep (delay : PyVal) : M unit :=
  fun w =>
    match Retry.number delay with
    | Some n =>
        (Returns tt,
         {| action_history := action_history w; config := config w;
            ticks := ticks w; os := os w;
            naps := naps w ++ [Retry.as_float n];
            handler_naps := handler_naps w |})
    | None => (Raises "TypeError: a number is required", w)
    end.

(** The loop of [execute_sequence]: [count] is [len(actions)], [i] the
    index of the action at the head of [actions], [results] the list built
    so far.  The call [self.execute_action(action_type, **params)] itself
    raises a [TypeError] when [params] has an entry named like one of the
    method's own parameters. *)
Fixpoint sequence_loop (count : Z) (i : Z) (actions : list Action)
    (results : list ActionResult) : M (list ActionResult) :=
  match actions with
  | [] => Eff.ret results
  | action :: rest =>
      let action_type := default ""%string (type action) in
      if String.eqb action_type "" then
        (result <- new_result false
                     ("操作 " ++ Retry.str_int (i + 1) ++ " 缺少类型参数") ;;
         sequence_loop count (i + 1) rest (results ++ [result]))%eff
      else
        let params := fields action in
        if bool_decide (is_Some (params !! "action_type"%string))
           || bool_decide (is_Some (params !! "self"%string))
        then Eff.raise "TypeError: got multiple values for argument"
        else
          (result <- execute_action action_type params ;;
           let results := results ++ [result] in
           w <- Eff.get ;;
           if negb (success result)
              && Retry.truthy (default (VBool false) (stop_on_failure (config w)))
           then Eff.ret results
           else
             (if i <? count - 1 then
                let delay :=
                  default (default_delay (config w)) (params !! "delay"%string) in
                positive <- Eff.lift (is_positive delay) ;;
                if positive then time_sleep delay else Eff.ret tt
              else Eff.ret tt) ;;;
             sequence_loop count (i + 1) rest results)%eff
  end.

Definition execute_sequence (actions : list Action) : M (list ActionResult) :=
  sequence_loop (Z.of_nat (length actions)) 0 actions [].

End ActionRun.
End ActionRun.

(** * Properties *)

(** ** The bounded action history *)
Module ActionSystemProps.
Import ActionSystem.

Lemma last_items_suffix {A} (n : nat) (l : list A) :
  exists oldest, l = oldest ++ last_items n l.
Proof.
  exists (firstn (length l - n) l). unfold last_items.
  now rewrite firstn_skipn.
Qed.

Lemma last_items_length {A} (n : nat) (l : list A) :
  (n <= length l)%nat -> length (last_items n l) = n.
Proof.
  intros Hn. unfold last_items. rewrite length_skipn. lia.
Qed.

(** C8.  Whatever the history was, after [_record_action] it holds at most
    1000 records; and when the appended record takes the length past 1000,
    the history becomes exactly the last 500 records of the extended list,
    the older ones being dropped. *)
Theorem record_action_bound
    (action_history : list OperationRecord) (action_type : string)
    (params : gmap string PyVal) (result : ActionResult)
    (execution_time now : Q) :
  let record := {| rec_action_type := action_type; rec_params := params;
                   rec_success := success result;
                   rec_message := message result;
                   rec_execution_time := execution_time;
                   rec_timestamp := now |} in
  let history' :=
    _record_action action_history action_type params result execution_time now in
  (length history' <= 1000)%nat /\
  ((1000 < length (action_history ++ [record]))%nat ->
   length history' = 500%nat /\
   history' = last_items 500 (action_history ++ [record]) /\
   exists oldest, action_history ++ [record] = oldest ++ history').
Proof.
  intros record history'. subst history'. unfold _record_action. fold record.
  destruct (Z.ltb_spec 1000 (Z.of_nat (length (action_history ++ [record]))))
    as [Hgt | Hle].
  - assert (Hlen : length (last_items 500 (action_history ++ [record])) = 500%nat)
      by (apply last_items_length; lia).
    split; [lia |]. intros _. split; [exact Hlen |]. split; [reflexivity |].
    apply last_items_suffix.
  - split; [lia |]. intros Hgt. lia.
Qed.

Definition sample_result : ActionResult :=
  {| success := true; message := "等待完成"; data := VNone; timestamp := 0 |}.

Definition sample_record : OperationRecord :=
  {| rec_action_type := "wait"; rec_params := ∅; rec_success := true;
     rec_message := "等待完成"; rec_execution_time := 0; rec_timestamp := 0 |}.

(** The 1001st record: a history of 1000 records comes back with 500. *)
Lemma record_action_bound_witness :
  length (_record_action (repeat sample_record 1000) "wait" ∅ sample_result 0 0)
  = 500%nat.
Proof.
  apply (record_action_bound (repeat sample_record 1000) "wait" ∅ sample_result 0 0).
  rewrite length_app, repeat_length. simpl. lia.
Defined.

End ActionSystemProps.

(** ** Region capture *)
Module ScreenCaptureProps.
Import ScreenCapture.

Section Props.
Variable Image : Type.
Variable VISION_AVAILABLE : bool.
Variable pyautogui_size : outcome (Z * Z).
Variable pyautogui_screenshot : Z -> Z -> Z -> Z -> outcome Image.
Variable cvtColor : Image -> outcome Image.
Variable imwrite : string -> Image -> outcome bool.
Variable region_file_name : Z -> Z -> Z -> Z -> string.
Variable path_join : string -> string -> string.
Variable time_time : Q.

Local Abbreviation capture size :=
  (capture_region Image VISION_AVAILABLE size pyautogui_screenshot
     cvtColor imwrite region_file_name path_join time_time).

(** The state after a capture that was refused: the object untouched, and
    at most the screen-size query added to the calls made. *)
Definition refused (s : State Image) : State Image :=
  (fst s, snd s ++ (if VISION_AVAILABLE then [CallSize] else [])).

Lemma capture_region_returns size x y width height save_file (s : State Image) :
  exists r s', capture size x y width height save_file s = (Returns r, s').
Proof.
  unfold capture_region. destruct VISION_AVAILABLE; simpl; [| eauto].
  unfold Eff.try_except.
  match goal with
  | |- context [match ?b s with _ => _ end] => destruct (b s) as [[r | e] s']
  end; simpl; eauto.
Qed.

Lemma capture_region_refused size x y width height save_file (s : State Image) :
  (forall screen_width screen_height,
     size = Returns (screen_width, screen_height) ->
     x < 0 \/ y < 0 \/ screen_width < x + width \/ screen_height < y + height) ->
  capture size x y width height save_file s = (Returns None, refused s).
Proof.
  intros Hout. unfold capture_region, refused.
  destruct VISION_AVAILABLE; simpl.
  - unfold Eff.try_except, Eff.bind, call. simpl.
    destruct size as [[screen_width screen_height] | e]; simpl.
    + destruct (Hout _ _ eq_refl) as [H | [H | [H | H]]];
        repeat match goal with
               | |- context [?a <? ?b] => destruct (Z.ltb_spec a b); simpl
               end; try lia; reflexivity.
    + reflexivity.
  - unfold Eff.ret. destruct s; simpl. now rewrite app_nil_r.
Qed.

(** C9.  [capture_region] never raises.  When the region leaves the screen
    (x < 0, y < 0, x + width past the screen width or y + height past the
    screen height) it returns [None], its object is unchanged and no
    screenshot call has been made; [capture_region(-5, 0, 10, 10)] is
    refused in this way whatever [pyautogui.size()] answers. *)
Theorem capture_region_out_of_bounds
    (x y width height : Z) (save_file : option string) (s : State Image) :
  (exists r s',
     capture pyautogui_size x y width height save_file s = (Returns r, s')) /\
  (forall screen_width screen_height,
     pyautogui_size = Returns (screen_width, screen_height) ->
     x < 0 \/ y < 0 \/ screen_width < x + width \/ screen_height < y + height ->
     capture pyautogui_size x y width height save_file s
     = (Returns None, refused s)) /\
  (forall size, capture size (-5) 0 10 10 save_file s = (Returns None, refused s)).
Proof.
  split; [apply capture_region_returns |]. split.
  - intros screen_width screen_height Hsize Hout.
    apply capture_region_refused. intros sw sh Heq.
    rewrite Hsize in Heq. injection Heq as <- <-. exact Hout.
  - intros size. apply capture_region_refused. intros; lia.
Qed.

End Props.

Definition sample_self : Self unit :=
  {| save_path := "screenshots"; screenshot_count := 0;
     last_screenshot := None; last_screenshot_time := None |}.

(** A 1920x1080 screen and a region that runs past its right edge. *)
Lemma capture_region_out_of_bounds_witness :
  capture_region unit true (Returns (1920, 1080))
    (fun _ _ _ _ => Returns tt) (fun i => Returns i) (fun _ _ => Returns true)
    (fun _ _ _ _ => "region.png") (fun a b => (a ++ "/" ++ b)%string) 0
    1900 0 100 100 None (sample_self, [])
  = (Returns None, (sample_self, [CallSize])).
Proof.
  apply (proj1 (proj2 (capture_region_out_of_bounds unit true (Returns (1920, 1080))
    (fun _ _ _ _ => Returns tt) (fun i => Returns i) (fun _ _ => Returns true)
    (fun _ _ _ _ => "region.png") (fun a b => (a ++ "/" ++ b)%string) 0
    1900 0 100 100 None (sample_self, []))) 1920 1080).
  - reflexivity.
  - lia.
Defined.

End ScreenCaptureProps.

(** ** Text lemmas *)
Module TextProps.
Import Text.

Lemma chars_ascii (c : ascii) (r : string) :
  is_ascii c = true -> chars (String c r) = String c EmptyString :: chars r.
Proof.
  intros Hc. cbn [chars]. rewrite Hc. cbn [negb andb].
  destruct r as [| c' r']; [reflexivity |].
  destruct (chars (String c' r')); reflexivity.
Qed.

Lemma chars_cons (c : ascii) (r : string) : chars (String c r) <> [].
Proof.
  cbn [chars]. destruct r as [| c' r']; [discriminate |].
  destruct (chars (String c' r')); [discriminate |].
  destruct (_ && _); discriminate.
Qed.

Lemma append_cons (a : ascii) (x y : string) :
  (String a x ++ y)%string = String a (x ++ y).
Proof. reflexivity. Qed.

Lemma append_nil (y : string) : (EmptyString ++ y)%string = y.
Proof. reflexivity. Qed.

Lemma append_assoc (x y z : string) :
  (x ++ (y ++ z) = (x ++ y) ++ z)%string.
Proof.
  induction x as [| a x IH]; [reflexivity |].
  rewrite !append_cons. now rewrite IH.
Qed.

Lemma join_app (xs ys : list string) :
  join (xs ++ ys) = (join xs ++ join ys)%string.
Proof.
  induction xs as [| x xs IH]; [reflexivity |].
  change (join ((x :: xs) ++ ys)) with (x ++ join (xs ++ ys))%string.
  change (join (x :: xs)) with (x ++ join xs)%string.
  rewrite IH. apply append_assoc.
Qed.

(** The characters of a string, put together again, are the string. *)
Lemma join_chars (s : string) : join (chars s) = s.
Proof.
  induction s as [| c r IH]; [reflexivity |].
  cbn [chars]. destruct (chars r) as [| k ks] eqn:E.
  - cbn [join fold_right] in *. rewrite <- IH. reflexivity.
  - destruct (_ && _); rewrite <- IH; reflexivity.
Qed.

Lemma len_nonneg (s : string) : 0 <= len s.
Proof. unfold len. lia. Qed.

Lemma len_zero_empty (s : string) : len s = 0 -> s = EmptyString.
Proof.
  unfold len. destruct s as [| c r]; [reflexivity |].
  pose proof (chars_cons c r). destruct (chars (String c r)); [congruence |].
  cbn [length]. lia.
Qed.

(** Where a character begins, the characters of a concatenation are those
    of its two parts. *)
Lemma chars_app_at (a t : string) :
  continues t = false -> chars t <> [] ->
  chars (a ++ t) = chars a ++ chars t.
Proof.
  intros Ht Hne. induction a as [| x a IH]; [reflexivity |].
  rewrite append_cons.
  change (chars (String x (a ++ t)))
    with (match chars (a ++ t) with
          | k :: ks => if negb (is_ascii x) && continues (a ++ t)
                       then String x k :: ks
                       else String x EmptyString :: k :: ks
          | [] => [String x EmptyString]
          end).
  change (chars (String x a))
    with (match chars a with
          | k :: ks => if negb (is_ascii x) && continues a
                       then String x k :: ks
                       else String x EmptyString :: k :: ks
          | [] => [String x EmptyString]
          end).
  rewrite IH.
  destruct a as [| y a'].
  - rewrite append_nil. change (chars EmptyString) with (@nil string).
    cbn [List.app]. rewrite Ht, andb_false_r.
    destruct (chars t); [congruence | reflexivity].
  - pose proof (chars_cons y a') as Hne'. rewrite append_cons.
    cbn [continues].
    destruct (chars (String y a')) as [| k ks]; [congruence |].
    cbn [List.app]. destruct (_ && _); reflexivity.
Qed.

Lemma chars_app (a : string) (c : ascii) (r : string) :
  is_continuation c = false ->
  chars (a ++ String c r) = chars a ++ chars (String c r).
Proof. intros Hc. apply chars_app_at; [exact Hc | apply chars_cons]. Qed.

Lemma startswith_split (p s : string) :
  startswith p s = true -> exists b, s = (p ++ b)%string.
Proof.
  revert s. induction p as [| a p IH]; intros s H.
  - exists s. reflexivity.
  - destruct s as [| b s]; [discriminate |]. cbn [startswith] in H.
    destruct (Ascii.eqb_spec a b) as [-> | _]; [| discriminate].
    destruct (IH _ H) as [t ->]. exists t. reflexivity.
Qed.

Lemma startswith_app (p b : string) : startswith p (p ++ b) = true.
Proof.
  induction p as [| a p IH]; [reflexivity |].
  rewrite append_cons. cbn [startswith]. now rewrite Ascii.eqb_refl.
Qed.

Lemma contains_here (sub s : string) :
  startswith sub s = true -> contains sub s = true.
Proof. intros H. destruct s; cbn [contains]; now rewrite H. Qed.

Lemma contains_split (sub s : string) :
  contains sub s = true -> exists a b, s = (a ++ sub ++ b)%string.
Proof.
  induction s as [| c r IH]; cbn [contains]; intros H.
  - rewrite orb_false_r in H. apply startswith_split in H as [b ->].
    exists EmptyString, b. reflexivity.
  - apply orb_true_iff in H as [H | H].
    + apply startswith_split in H as [b ->]. exists EmptyString, b. reflexivity.
    + destruct (IH H) as (a & b & ->). exists (String c a), b. reflexivity.
Qed.

Lemma contains_app (sub a b : string) : contains sub (a ++ sub ++ b) = true.
Proof.
  induction a as [| c a IH].
  - rewrite append_nil. apply contains_here, startswith_app.
  - rewrite append_cons. cbn [contains]. rewrite IH. apply orb_true_r.
Qed.

Definition all_ascii (s : string) : bool :=
  forallb is_ascii (list_ascii_of_string s).

Lemma lower_ascii_is_ascii (c : ascii) :
  is_ascii c = true -> is_ascii (lower_ascii c) = true.
Proof.
  intros Hc. unfold lower_ascii. destruct (_ && _) eqn:Hup; [| exact Hc].
  apply andb_true_iff in Hup as [_ Hup]. apply N.leb_le in Hup.
  unfold is_ascii, code in *. rewrite N_ascii_embedding by lia.
  apply N.ltb_lt. lia.
Qed.

Section Lower.
Context {U : Unicode}.

Lemma lower_from_app (xs ys before : list string) :
  exists out,
    lower_from before (xs ++ ys) = out ++ lower_from (rev xs ++ before) ys.
Proof.
  revert before. induction xs as [| x xs IH]; intros before.
  - exists []. reflexivity.
  - cbn [List.app lower_from]. destruct (IH (x :: before)) as [out ->].
    eexists (_ :: out). cbn [rev]. rewrite <- app_assoc. reflexivity.
Qed.

Lemma not_sigma (c : ascii) :
  String.eqb (String c EmptyString) (chr 0x3A3) = false.
Proof.
  change (chr 0x3A3)
    with (String (ascii_of_N 0xCE) (String (ascii_of_N 0xA3) EmptyString)).
  cbn [String.eqb]. destruct (Ascii.eqb c _); reflexivity.
Qed.

Lemma lower_from_ascii (kw : string) (s : string) (before : list string) :
  all_ascii kw = true ->
  exists before',
    lower_from before (chars (kw ++ s))
    = chars (ascii_lower kw) ++ lower_from before' (chars s).
Proof.
  revert before. induction kw as [| c kw IH]; intros before Hkw.
  - exists before. reflexivity.
  - unfold all_ascii in Hkw. cbn [list_ascii_of_string forallb] in Hkw.
    apply andb_true_iff in Hkw as [Hc Hkw].
    destruct (IH (String c EmptyString :: before) Hkw) as (before' & E).
    exists before'.
    rewrite append_cons. cbn [ascii_lower].
    rewrite (chars_ascii c _ Hc). cbn [lower_from].
    rewrite not_sigma, (to_lower_full_ascii c Hc), E.
    rewrite chars_ascii by (apply lower_ascii_is_ascii, Hc). reflexivity.
Qed.

Lemma append_empty (x : string) : (x ++ EmptyString)%string = x.
Proof.
  induction x as [| a x IH]; [reflexivity |].
  rewrite append_cons. now rewrite IH.
Qed.

(** The lower-case form of a string of the ASCII range does not depend on
    the rest of the character database. *)
Lemma lower_all_ascii (s : string) :
  all_ascii s = true -> lower s = ascii_lower s.
Proof.
  intros Hs. unfold lower.
  destruct (lower_from_ascii s EmptyString [] Hs) as (before' & E).
  rewrite append_empty in E. rewrite E.
  change (lower_from before' (chars EmptyString)) with (@nil string).
  rewrite app_nil_r. apply join_chars.
Qed.

(** A word of the ASCII range found in a string is found, in lower case,
    in the lower-case form of the string. *)
Lemma contains_lower (kw s : string) :
  all_ascii kw = true ->
  contains kw s = true ->
  contains (ascii_lower kw) (lower s) = true.
Proof.
  intros Hkw Hin. apply contains_split in Hin as (a & b & ->).
  unfold lower.
  destruct kw as [| c kw'] eqn:Ekw.
  { apply contains_here. reflexivity. }
  rewrite <- Ekw in *.
  assert (Hstart : chars (a ++ kw ++ b) = chars a ++ chars (kw ++ b)).
  { rewrite Ekw, append_cons. apply chars_app.
    rewrite Ekw in Hkw. unfold all_ascii in Hkw.
    cbn [list_ascii_of_string forallb] in Hkw.
    apply andb_true_iff in Hkw as [Hc _].
    unfold is_continuation, is_ascii in *. apply N.ltb_lt in Hc.
    destruct (N.leb_spec 0x80 (code c)); [lia | reflexivity]. }
  rewrite Hstart.
  destruct (lower_from_app (chars a) (chars (kw ++ b)) []) as [out ->].
  destruct (lower_from_ascii kw b (rev (chars a) ++ []) Hkw) as (before' & ->).
  rewrite !join_app, join_chars. apply contains_app.
Qed.

End Lower.

End TextProps.

(** ** Float arithmetic *)
Module FloatProps.
Import Float.
Local Open Scope Q_scope.

Lemma round_half_even_nonneg (q : Q) : 0 <= q -> (0 <= round_half_even q)%Z.
Proof.
  intros Hq. unfold round_half_even.
  assert (Hf : (0 <= Qfloor q)%Z).
  { change 0%Z with (Qfloor 0). now apply Qfloor_resp_le. }
  destruct (Qcompare _ _); [destruct (Z.even _) | |]; lia.
Qed.

Lemma nearest_nonneg (q : Q) : 0 <= q -> 0 <= nearest q.
Proof.
  intros Hq. unfold nearest. rewrite Qred_correct.
  set (e := Z.max (exponent q) (-1022)).
  assert (Hup : 0 < 2 ^ (52 - e)) by (apply Qpower.Qpower_0_lt; reflexivity).
  assert (Hdown : 0 < 2 ^ (e - 52)) by (apply Qpower.Qpower_0_lt; reflexivity).
  assert (Hz : (0 <= round_half_even (q * 2 ^ (52 - e)))%Z).
  { apply round_half_even_nonneg. nra. }
  assert (Hi : 0 <= inject_Z (round_half_even (q * 2 ^ (52 - e)))).
  { unfold Qle. simpl. lia. }
  nra.
Qed.

(** Rounding keeps the sign. *)
Lemma round_nonneg (q : Q) : 0 <= q -> 0 <= round q.
Proof.
  intros Hq. unfold round. destruct (Qcompare q 0) eqn:E.
  - apply Qle_refl.
  - apply Qlt_alt in E. lra.
  - now apply nearest_nonneg.
Qed.

Lemma of_int_nonneg (n : Z) : (0 <= n)%Z -> 0 <= of_int n.
Proof.
  intros Hn. apply round_nonneg. unfold Qle. simpl. lia.
Qed.

End FloatProps.

(** ** Failure classification *)
Module ClassifyProps.
Import Retry.

(** The keywords that [_analyze_failure] tests before "timeout". *)
Definition earlier_keywords : list string :=
  ["not found"; "element"; "click"; "mouse"; "ocr"; "text"; "recognition"]%string.

Definition sample_context : RetryContext :=
  {| operation_type := "click"; target := VStr "button"; parameters := ∅;
     attempt_count := 0; last_error := None; failure_history := [] |}.

(** C5, as stated, fails on the code, whatever the character database:
    an untagged failure whose message is "element timeout" contains
    "timeout" and is classified ELEMENT_NOT_FOUND, and a failure tagged
    UNKNOWN whose message is "timeout" is classified UNKNOWN. *)
Lemma analyze_failure_timeout_counterexample :
  ~ (exists U : Text.Unicode,
       forall (result : OperationResult) (context : RetryContext),
         success result = false ->
         Text.contains "timeout" (message result) = true ->
         _analyze_failure result context = TIMEOUT)
  /\ ~ (exists U : Text.Unicode,
          forall (result : OperationResult) (context : RetryContext),
            success result = false ->
            Text.contains "timeout" (message result) = true ->
            _analyze_failure result context <> UNKNOWN).
Proof.
  split; intros [U H].
  - specialize (H (mkResult false "element timeout" VNone 0 None) sample_context
                  eq_refl eq_refl).
    unfold _analyze_failure in H. cbn [failure_type message] in H.
    rewrite (TextProps.lower_all_ascii "element timeout" eq_refl) in H.
    vm_compute in H. discriminate.
  - apply (H (mkResult false "timeout" VNone 0 (Some UNKNOWN)) sample_context);
      reflexivity.
Qed.

(** C5, amended.  A result that carries a tag is classified as its tag.  A
    result without a tag whose message contains "timeout" is never
    classified UNKNOWN, and it is classified TIMEOUT when the lower-cased
    message contains none of the keywords tested earlier.  The lower-cased
    message is Python's: whatever the character database, it contains
    "timeout" when the message does. *)
Theorem analyze_failure_timeout {U : Text.Unicode}
    (result : OperationResult) (context : RetryContext) :
  (forall t, failure_type result = Some t -> _analyze_failure result context = t) /\
  (failure_type result = None ->
   Text.contains "timeout" (message result) = true ->
   _analyze_failure result context <> UNKNOWN /\
   (forallb (fun kw => negb (Text.contains kw (Text.lower (message result))))
            earlier_keywords = true ->
    _analyze_failure result context = TIMEOUT)).
Proof.
  unfold _analyze_failure. split.
  - intros t ->. reflexivity.
  - intros -> Hin.
    apply (TextProps.contains_lower "timeout") in Hin; [| reflexivity].
    change (Text.ascii_lower "timeout") with "timeout"%string in Hin.
    rewrite Hin. cbn [orb]. split.
    + repeat match goal with
             | |- context [if ?b then _ else _] => destruct b
             end; discriminate.
    + unfold earlier_keywords. cbn [forallb]. rewrite andb_true_r.
      rewrite !andb_true_iff, !negb_true_iff.
      intros (-> & -> & -> & -> & -> & -> & ->). reflexivity.
Qed.

(** "Connection timeout": TIMEOUT, not NETWORK_ERROR. *)
Lemma analyze_failure_timeout_witness :
  _analyze_failure (U := Text.sample_unicode)
    (mkResult false "Connection timeout" VNone 0 None) sample_context
  = TIMEOUT.
Proof.
  apply (proj2 (analyze_failure_timeout (U := Text.sample_unicode)
                  (mkResult false "Connection timeout" VNone 0 None)
                  sample_context)); reflexivity.
Defined.

(** A message that ends in "clic" and the Kelvin sign U+212A, whose
    lower-case form is the letter k: the lower-cased message contains
    "click", which is tested before "timeout". *)
Example analyze_failure_kelvin :
  Text.lower (U := Text.sample_unicode) ("timeout CLIC" ++ Text.chr 0x212A)
  = "timeout click"%string
  /\ _analyze_failure (U := Text.sample_unicode)
       (mkResult false ("timeout CLIC" ++ Text.chr 0x212A) VNone 0 None)
       sample_context
     = CLICK_FAILED.
Proof. split; reflexivity. Qed.

End ClassifyProps.

(** ** Backoff *)
Module BackoffProps.
Import Retry.
Local Open Scope Q_scope.

Lemma pow2_pos (n : Z) : 0 < 2 ^ n.
Proof. apply Qpower.Qpower_0_lt. reflexivity. Qed.

Lemma pow2_succ (n : Z) : 2 ^ (n + 1) == 2 * 2 ^ n.
Proof.
  rewrite Qpower.Qpower_plus by discriminate.
  change (2 ^ 1) with (2 : Q). ring.
Qed.

(** What [_calculate_wait_time] does below the overflow: it draws the
    jitter and returns the capped product. *)
Lemma calculate_wait_time_returns (random_uniform : nat -> Q) (self : Self)
    (attempt : Z) (failure_type : FailureType) (context : RetryContext)
    (draws : nat) :
  (0 <= attempt < 1024)%Z ->
  _calculate_wait_time random_uniform self attempt failure_type (context, draws)
  = (Returns (Qmin (base_wait_time self * 2 ^ attempt
                    * default 1.0 (type_multipliers failure_type)
                    * random_uniform draws)
                   (max_wait_time self)),
     (context, S draws)).
Proof.
  intros [Hlo Hhi]. unfold _calculate_wait_time, Eff.bind, Eff.lift, times_pow2.
  destruct (Z.leb_spec 1024 attempt); [lia |].
  destruct (Z.ltb_spec attempt (-1074)); [lia |]. reflexivity.
Qed.

(** From attempt 1024 on, [2 ** attempt] does not convert to a float: the
    call raises before any jitter is drawn. *)
Lemma calculate_wait_time_overflow (random_uniform : nat -> Q) (self : Self)
    (attempt : Z) (failure_type : FailureType) (s : RetryContext * nat) :
  (1024 <= attempt)%Z ->
  _calculate_wait_time random_uniform self attempt failure_type s
  = (Raises "OverflowError: int too large to convert to float", s).
Proof.
  intros Hhi. unfold _calculate_wait_time, Eff.bind, Eff.lift, times_pow2.
  destruct (Z.leb_spec 1024 attempt); [reflexivity | lia].
Qed.

(** C6, as stated, fails on the code: at attempt index 1024 the wait after
    a TIMEOUT is not min(30.0, 1.0 * 2^n * 2.0 * jitter); the call raises
    an OverflowError. *)
Lemma timeout_backoff_counterexample :
  fst (_calculate_wait_time (fun _ => 1) init 1024 TIMEOUT
         (ClassifyProps.sample_context, 0%nat))
  = Raises "OverflowError: int too large to convert to float"
  /\ ~ (forall n : Z,
          (0 <= n)%Z ->
          exists wait,
            fst (_calculate_wait_time (fun _ => 1) init n TIMEOUT
                   (ClassifyProps.sample_context, 0%nat))
            = Returns wait
            /\ wait == Qmin 30.0 (1.0 * 2 ^ n * 2.0 * 1)).
Proof.
  split; [reflexivity |].
  intros H. destruct (H 1024%Z) as (wait & Hrun & _); [lia |].
  vm_compute in Hrun. discriminate.
Qed.

(** C6, amended.  With the constructor's base wait of 1.0 s and cap of
    30.0 s, for an attempt index [n] from 0 to 1023 the wait after a
    TIMEOUT is min(30.0, 1.0 * 2^n * 2.0 * jitter), the jitter being the
    value drawn in the call.  For [n] up to 1022 and any two jitter values
    in [0.8, 1.2], the wait at attempt [n + 1] is strictly greater than the
    wait at attempt [n] as long as the latter is below the cap, and once
    the wait at attempt [n] is 30 s the wait at attempt [n + 1] is 30 s as
    well. *)
Theorem timeout_backoff_monotone
    (random_uniform : nat -> Q) (self : Self) (context context' : RetryContext)
    (draws draws' : nat) (n : Z) :
  base_wait_time self = 1.0 ->
  max_wait_time self = 30.0 ->
  (0 <= n <= 1023)%Z ->
  0.8 <= random_uniform draws <= 1.2 ->
  0.8 <= random_uniform draws' <= 1.2 ->
  exists wait,
    _calculate_wait_time random_uniform self n TIMEOUT (context, draws)
    = (Returns wait, (context, S draws))
    /\ wait == Qmin 30.0 (1.0 * 2 ^ n * 2.0 * random_uniform draws)
    /\ ((n <= 1022)%Z ->
        exists wait',
          _calculate_wait_time random_uniform self (n + 1) TIMEOUT
            (context', draws')
          = (Returns wait', (context', S draws'))
          /\ (wait < 30.0 -> wait < wait')
          /\ (wait == 30.0 -> wait' == 30.0)).
Proof.
  intros Hbase Hmax Hn [Hlo Hhi] [Hlo' Hhi'].
  eexists. split; [apply calculate_wait_time_returns; lia |].
  rewrite Hbase, Hmax.
  change (default 1.0 (type_multipliers TIMEOUT)) with 2.0.
  split; [apply Q.min_comm |].
  intros Hnext. eexists. split; [apply calculate_wait_time_returns; lia |].
  rewrite Hbase, Hmax.
  change (default 1.0 (type_multipliers TIMEOUT)) with 2.0.
  rewrite pow2_succ.
  pose proof (pow2_pos n) as Hpos.
  set (jitter := random_uniform draws) in *.
  set (jitter' := random_uniform draws') in *.
  set (P := 2 ^ n) in *.
  assert (Hu : 0.8 * P <= P * jitter /\ P * jitter <= 1.2 * P) by (split; nra).
  assert (Hu' : 0.8 * P <= P * jitter' /\ P * jitter' <= 1.2 * P) by (split; nra).
  assert (E : 1.0 * P * 2.0 * jitter == 2 * (P * jitter)) by ring.
  assert (E' : 1.0 * (2 * P) * 2.0 * jitter' == 4 * (P * jitter')) by ring.
  rewrite E, E'.
  set (u := P * jitter) in *. set (u' := P * jitter') in *.
  destruct (Q.min_spec (2 * u) 30.0) as [[H1 ->] | [H1 ->]];
    destruct (Q.min_spec (4 * u') 30.0) as [[H2 ->] | [H2 ->]];
    split; intros H; try lra; try reflexivity.
Qed.

(** Attempts 0 and 1 with jitter 1.2 and 0.8: 2.4 s, then 3.2 s. *)
Definition sample_jitter (draws : nat) : Q :=
  match draws with
  | O => 1.2
  | _ => 0.8
  end.

Lemma timeout_backoff_monotone_witness :
  exists wait,
    _calculate_wait_time sample_jitter init 0 TIMEOUT
      (ClassifyProps.sample_context, 0%nat)
    = (Returns wait, (ClassifyProps.sample_context, 1%nat))
    /\ wait == Qmin 30.0 (1.0 * 2 ^ 0 * 2.0 * sample_jitter 0)
    /\ ((0 <= 1022)%Z ->
        exists wait',
          _calculate_wait_time sample_jitter init (0 + 1) TIMEOUT
            (ClassifyProps.sample_context, 1%nat)
          = (Returns wait', (ClassifyProps.sample_context, 2%nat))
          /\ (wait < 30.0 -> wait < wait')
          /\ (wait == 30.0 -> wait' == 30.0)).
Proof.
  apply (timeout_backoff_monotone sample_jitter init ClassifyProps.sample_context
           ClassifyProps.sample_context 0 1 0);
    try reflexivity; try lia; split; discriminate.
Defined.

End BackoffProps.

(** ** Confidence values *)
Module ConfidenceProps.
Local Open Scope Q_scope.

(** A score that is a valid confidence. *)
Definition unit_interval (q : Q) : Prop := 0 <= q <= 1.

Lemma Qltb_true (a b : Q) : Qltb a b = true -> a < b.
Proof. unfold Qltb. destruct (Qlt_le_dec a b); [trivial | discriminate]. Qed.

Lemma Qltb_false (a b : Q) : Qltb a b = false -> b <= a.
Proof. unfold Qltb. destruct (Qlt_le_dec a b); [discriminate | trivial]. Qed.

Lemma Qmin_unit (q : Q) : 0 <= q -> unit_interval (Qmin 1.0 q).
Proof.
  intros Hq. unfold unit_interval.
  destruct (Q.min_spec 1.0 q) as [[H ->] | [H ->]]; lra.
Qed.

Lemma inject_Z_pos (b : Z) : (0 < b)%Z -> 0 < inject_Z b.
Proof. intros H. unfold Qlt. simpl. lia. Qed.

Lemma inject_Z_nonneg (a : Z) : (0 <= a)%Z -> 0 <= inject_Z a.
Proof. intros H. unfold Qle. simpl. lia. Qed.

(** *** [_estimate_confidence] *)

(** The estimate is 0 for a text that is empty or blank; otherwise it is
    one of the thirty values that the five base values, the three length
    classes and the alphanumeric bonus give, each between 0.4 and
    0.9500000000000001. *)
Lemma estimate_confidence_cases {U : Text.Unicode} (text engine_name : string) :
  (String.eqb text "" || (Text.len (Text.strip text) =? 0)%Z = true
   /\ MultiOCR._estimate_confidence text engine_name = 0.0)
  \/ (String.eqb text "" || (Text.len (Text.strip text) =? 0)%Z = false
      /\ 0.4 <= MultiOCR._estimate_confidence text engine_name
              <= 0.9500000000000001).
Proof.
  unfold MultiOCR._estimate_confidence.
  destruct (_ || _)%bool; [left; split; reflexivity | right].
  split; [reflexivity |]. cbv zeta.
  destruct (String.eqb engine_name "paddleocr");
    [| destruct (String.eqb engine_name "easyocr");
       [| destruct (String.eqb engine_name "tesseract");
          [| destruct (String.eqb engine_name "builtin")]]];
    (destruct (10 <? _)%Z; [| destruct (_ <? 3)%Z]);
    destruct (existsb _ _);
    vm_compute; split; discriminate.
Qed.

Lemma estimate_confidence_unit {U : Text.Unicode} (text engine_name : string) :
  unit_interval (MultiOCR._estimate_confidence text engine_name).
Proof.
  unfold unit_interval.
  destruct (estimate_confidence_cases text engine_name) as [[_ ->] | [_ [Hlo Hhi]]];
    [split; discriminate |].
  split; [lra |].
  eapply Qle_trans; [exact Hhi | discriminate].
Qed.

(** *** Match scores of [find_text_location] *)

Lemma true_div_unit (a b : Z) (q : Q) :
  (0 <= a <= b)%Z -> true_div a b = Returns q -> unit_interval q.
Proof.
  unfold true_div, unit_interval. intros Hab.
  destruct (Z.eqb_spec b 0) as [-> | Hb]; [discriminate |].
  intros [= <-].
  assert (Hpos : 0 < inject_Z b) by (apply inject_Z_pos; lia).
  assert (Ha : 0 <= inject_Z a) by (apply inject_Z_nonneg; lia).
  assert (Hle : inject_Z a <= inject_Z b) by (rewrite <- Zle_Qle; lia).
  split.
  - apply Qle_shift_div_l; [exact Hpos | lra].
  - apply Qle_shift_div_r; [exact Hpos | lra].
Qed.

Lemma true_div_nonneg (a b : Z) (q : Q) :
  (0 <= a)%Z -> (0 <= b)%Z -> true_div a b = Returns q -> 0 <= q.
Proof.
  unfold true_div. intros Ha Hb.
  destruct (Z.eqb_spec b 0) as [-> | Hne]; [discriminate |].
  intros [= <-].
  assert (Hpos : 0 < inject_Z b) by (apply inject_Z_pos; lia).
  assert (Ha' : 0 <= inject_Z a) by (apply inject_Z_nonneg; lia).
  apply Qle_shift_div_l; [exact Hpos | lra].
Qed.

Lemma dp_row_nonneg c1 text2 : forall left diag above,
  (0 <= left)%Z -> (0 <= diag)%Z -> Forall (fun z => 0 <= z)%Z above ->
  Forall (fun z => 0 <= z)%Z (OCREngine.dp_row c1 text2 left diag above).
Proof.
  induction text2 as [| c2 text2 IH]; intros left diag above Hl Hd Ha;
    [constructor |].
  destruct above as [| up above]; [constructor |]. simpl.
  inversion Ha as [| ? ? Hup Hab]; subst.
  assert (0 <= (if String.eqb c1 c2 then diag
                else Z.min (Z.min up left) diag + 1))%Z
    by (destruct (String.eqb c1 c2); lia).
  constructor; [assumption |]. now apply IH.
Qed.

Lemma dp_rows_nonneg text1 text2 : forall i prev,
  (0 <= i)%Z -> Forall (fun z => 0 <= z)%Z prev ->
  Forall (fun z => 0 <= z)%Z (OCREngine.dp_rows text1 text2 i prev).
Proof.
  induction text1 as [| c1 text1 IH]; intros i prev Hi Hprev; [exact Hprev |].
  simpl. apply IH; [lia |].
  destruct prev as [| diag above]; [constructor |].
  inversion Hprev; subst.
  constructor; [assumption |]. now apply dp_row_nonneg.
Qed.

Lemma last_nonneg (l : list Z) :
  Forall (fun z => 0 <= z)%Z l -> (0 <= List.last l 0)%Z.
Proof.
  induction l as [| a l IH]; intros H; simpl; [lia |].
  inversion H; subst. destruct l; [assumption | now apply IH].
Qed.

Lemma edit_distance_nonneg (text1 text2 : string) :
  (0 <= OCREngine.edit_distance text1 text2)%Z.
Proof.
  unfold OCREngine.edit_distance. apply last_nonneg, dp_rows_nonneg; [lia |].
  apply List.Forall_forall. intros z Hz.
  apply in_map_iff in Hz as (k & <- & _). lia.
Qed.

Lemma calculate_similarity_unit (text1 text2 : string) :
  unit_interval (OCREngine._calculate_similarity text1 text2).
Proof.
  unfold OCREngine._calculate_similarity, unit_interval.
  destruct (_ || _)%bool; [lra |].
  destruct (true_div _ _) as [r | e] eqn:Hdiv; simpl; [| lra].
  apply true_div_nonneg in Hdiv;
    [| apply edit_distance_nonneg
     | pose proof (TextProps.len_nonneg text1);
       pose proof (TextProps.len_nonneg text2); lia].
  destruct (Q.max_spec 0.0 (1.0 - r)) as [[H ->] | [H ->]]; lra.
Qed.

Lemma insert_desc_Forall {A} (P : A -> Prop) (key : A -> Q) a l :
  P a -> Forall P l -> Forall P (insert_desc key a l).
Proof.
  intros Ha. induction 1 as [| b l Hb Hl IH]; simpl.
  - now constructor.
  - destruct (Qltb _ _); repeat constructor; assumption.
Qed.

Lemma sort_desc_Forall {A} (P : A -> Prop) (key : A -> Q) l :
  Forall P l -> Forall P (sort_desc key l).
Proof.
  unfold sort_desc. induction 1; simpl; [constructor |].
  now apply insert_desc_Forall.
Qed.

(** *** Deduplication keeps only elements it was given *)

Lemma dedup_step_Forall (P : ElementDetector.Element -> Prop) unique_elements element :
  Forall P unique_elements -> P element ->
  Forall P (ElementDetector.dedup_step unique_elements element).
Proof.
  intros Hu He. unfold ElementDetector.dedup_step.
  destruct (ElementDetector.first_overlapping _ _) as [[i existing] |].
  - destruct (Qltb _ _); [| exact Hu].
    apply Forall_app. split; [now apply Forall_delete | now constructor].
  - apply Forall_app. split; [exact Hu | now constructor].
Qed.

Lemma foldl_dedup_step_Forall (P : ElementDetector.Element -> Prop) elements :
  forall unique_elements,
  Forall P unique_elements -> Forall P elements ->
  Forall P (foldl ElementDetector.dedup_step unique_elements elements).
Proof.
  induction elements as [| e elements IH]; intros unique_elements Hu He; simpl;
    [exact Hu |].
  inversion He; subst. apply IH; [now apply dedup_step_Forall | assumption].
Qed.

Lemma deduplicate_Forall (P : ElementDetector.Element -> Prop) elements :
  Forall P elements -> Forall P (ElementDetector._deduplicate_elements elements).
Proof.
  intros H. unfold ElementDetector._deduplicate_elements.
  destruct elements; [constructor |].
  now apply foldl_dedup_step_Forall.
Qed.

(** *** The strategies of [ElementDetector] *)
Section Detector.
Import ElementDetector.
Variable Image : Type.
Variable VISION_AVAILABLE : bool.
Variable OCR_AVAILABLE : bool.
Variable confidence_threshold : Q.
Variable image_to_data : Image -> outcome (list OCREngine.RawBox).
Variable match_template : Image -> Image -> outcome (list (Z * Z * Q)).
Variable template_shape : Image -> Z * Z.
Variable contours_50_150 : Image -> outcome (list Contour).
Variable contours_30_100 : Image -> outcome (list Contour).
Variable contours_blue : Image -> outcome (list Contour).
Variable region_size : Image -> Z -> Z -> Z -> Z -> outcome Z.
Variable button_features : Image -> Z -> Z -> Z -> Z -> outcome ButtonFeatures.
Variable input_features : Image -> Z -> Z -> Z -> Z -> outcome InputFeatures.

(** The module's functions at these externals. *)
Local Abbreviation by_text :=
  (_find_button_by_text Image OCR_AVAILABLE image_to_data).
Local Abbreviation by_template :=
  (_find_button_by_template Image confidence_threshold match_template
     template_shape).
Local Abbreviation by_features :=
  (_find_button_by_features Image contours_50_150 region_size button_features).
Local Abbreviation input_by_label :=
  (_find_input_by_label Image OCR_AVAILABLE image_to_data region_size
     input_features).
Local Abbreviation input_by_features :=
  (_find_input_by_features Image contours_30_100 region_size input_features).
Local Abbreviation links := (_find_links Image contours_blue).
Local Abbreviation icons := (_find_icons Image contours_50_150).
Local Abbreviation menu_items :=
  (_find_menu_items Image OCR_AVAILABLE image_to_data).
Local Abbreviation buttons :=
  (find_button Image VISION_AVAILABLE OCR_AVAILABLE confidence_threshold
     image_to_data match_template template_shape contours_50_150 region_size
     button_features).
Local Abbreviation input_fields :=
  (find_input_field Image VISION_AVAILABLE OCR_AVAILABLE image_to_data
     contours_30_100 region_size input_features).
Local Abbreviation clickable_elements :=
  (find_clickable_elements Image VISION_AVAILABLE OCR_AVAILABLE
     confidence_threshold image_to_data match_template template_shape
     contours_50_150 contours_blue region_size button_features).

(** All the confidences of a list of candidates are valid. *)
Definition confident (elements : list Element) : Prop :=
  Forall (fun e => unit_interval (confidence e)) elements.

Lemma calculate_button_score_unit image x y w h :
  unit_interval (_calculate_button_score Image region_size button_features image x y w h).
Proof.
  unfold _calculate_button_score, andthen.
  destruct (region_size _ _ _ _ _) as [size | e]; simpl; [| split; lra].
  destruct (size =? 0)%Z; simpl; [split; lra |].
  destruct (button_features _ _ _ _ _) as [f | e]; simpl; [| split; lra].
  destruct (true_div _ _) as [edge_ratio | e]; simpl; [| split; lra].
  apply Qmin_unit.
  repeat match goal with
         | |- context [if ?b then _ else _] => destruct b
         end; lra.
Qed.

Lemma calculate_input_score_unit image x y w h :
  unit_interval (_calculate_input_score Image region_size input_features image x y w h).
Proof.
  unfold _calculate_input_score, andthen.
  destruct (region_size _ _ _ _ _) as [size | e]; simpl; [| split; lra].
  destruct (size =? 0)%Z; simpl; [split; lra |].
  destruct (true_div _ _) as [aspect_ratio | e]; simpl; [| split; lra].
  destruct (input_features _ _ _ _ _) as [f | e]; simpl; [| split; lra].
  apply Qmin_unit.
  repeat match goal with
         | |- context [if ?b then _ else _] => destruct b
         end; lra.
Qed.

(** A contour loop whose passes only keep valid confidences. *)
Lemma over_contours_confident pass contours elements :
  (forall c e, pass c = Returns (Some e) -> unit_interval (confidence e)) ->
  over_contours pass contours = Returns elements -> confident elements.
Proof.
  intros Hpass. revert elements.
  induction contours as [| c rest IH]; simpl; intros elements H.
  - injection H as <-. constructor.
  - unfold andthen in H.
    destruct (pass c) as [kept | e] eqn:Hc; [| discriminate].
    destruct (over_contours pass rest) as [more | e]; [| discriminate].
    injection H as <-. specialize (IH more eq_refl).
    destruct kept as [e |]; [| exact IH].
    constructor; [eapply Hpass; eassumption | exact IH].
Qed.

(** Discharges a pass of a contour loop: every path either keeps nothing,
    raises, or keeps an element whose confidence is then at hand. *)
Ltac contour_pass :=
  intros c e; unfold andthen;
  repeat match goal with
         | |- context [true_div ?a ?b] => destruct (true_div a b)
         | |- (if ?b then _ else _) = _ -> _ => destruct b
         | |- (let '(_, _) := ?p in _) = _ -> _ => destruct p
         end;
  try discriminate; intros [= <-]; simpl.

Lemma find_button_by_features_confident image :
  confident (by_features image).
Proof.
  unfold _find_button_by_features, andthen.
  destruct (contours_50_150 image) as [contours | e]; simpl; [| constructor].
  destruct (over_contours _ contours) as [elements | e] eqn:H; simpl;
    [| constructor].
  eapply over_contours_confident; [| exact H].
  contour_pass. apply calculate_button_score_unit.
Qed.

Lemma find_input_by_features_confident image :
  confident (input_by_features image).
Proof.
  unfold _find_input_by_features, andthen.
  destruct (contours_30_100 image) as [contours | e]; simpl; [| constructor].
  destruct (over_contours _ contours) as [elements | e] eqn:H; simpl;
    [| constructor].
  eapply over_contours_confident; [| exact H].
  contour_pass. apply calculate_input_score_unit.
Qed.

Lemma find_links_confident image : confident (links image).
Proof.
  unfold _find_links, andthen.
  destruct (contours_blue image) as [contours | e]; simpl; [| constructor].
  destruct (over_contours _ contours) as [elements | e] eqn:H; simpl;
    [| constructor].
  eapply over_contours_confident; [| exact H].
  contour_pass. split; lra.
Qed.

Lemma find_icons_confident image : confident (icons image).
Proof.
  unfold _find_icons, andthen.
  destruct (contours_50_150 image) as [contours | e]; simpl; [| constructor].
  destruct (over_contours _ contours) as [elements | e] eqn:H; simpl;
    [| constructor].
  eapply over_contours_confident; [| exact H].
  contour_pass. split; lra.
Qed.

Lemma omap_Forall {A B} (P : B -> Prop) (f : A -> option B) (l : list A) :
  (forall a b, f a = Some b -> P b) -> Forall P (omap f l).
Proof.
  intros Hf. induction l as [| a l IH]; simpl; [constructor |].
  destruct (f a) as [b |] eqn:Hfa; [constructor; eauto | exact IH].
Qed.

Lemma omap_Forall_from {A B} (Q : A -> Prop) (P : B -> Prop)
    (f : A -> option B) (l : list A) :
  Forall Q l -> (forall a b, Q a -> f a = Some b -> P b) -> Forall P (omap f l).
Proof.
  intros Hl Hf. induction Hl as [| a l Ha Hl IH]; simpl; [constructor |].
  destruct (f a) as [b |] eqn:Hfa; [constructor; eauto | exact IH].
Qed.

Lemma find_menu_items_confident image : confident (menu_items image).
Proof.
  unfold _find_menu_items, confident. apply omap_Forall.
  intros t e.
  repeat match goal with
         | |- (if ?b then _ else _) = _ -> _ => destruct b
         end; try discriminate.
  intros [= <-]. simpl. split; lra.
Qed.

End Detector.
End ConfidenceProps.

Module ConfidenceWitness.
Import ElementDetector.
Local Open Scope Q_scope.

(** A frame on which Tesseract reads "OK" at (100, 100, 40, 20), the
    template correlates at 0.9 in one place, and one contour outlines a
    button-sized rectangle. *)
Definition ocr_boxes : list OCREngine.RawBox :=
  [{| OCREngine.raw_text := "OK"; OCREngine.raw_conf := 90;
      OCREngine.raw_left := 100; OCREngine.raw_top := 100;
      OCREngine.raw_width := 40; OCREngine.raw_height := 20;
      OCREngine.raw_level := 5 |}].

Definition button_contour : Contour :=
  {| area := 1900; rect_x := 300; rect_y := 200; rect_w := 100; rect_h := 20 |}.

Definition sample_buttons : list Element :=
  find_button (U := Text.sample_unicode) unit true true 0.7
    (fun _ => Returns ocr_boxes)
    (fun _ _ => Returns [(5%Z, 5%Z, 0.9); (6%Z, 5%Z, 0.2)])
    (fun _ => (20%Z, 40%Z))
    (fun _ => Returns [button_contour])
    (fun _ _ _ w h => Returns (w * h)%Z)
    (fun _ _ _ _ _ => Returns {| edge_pixels := 400; std_dev := 12 |})
    tt (Some "OK"%string) (Some tt).

(** On that frame every candidate has a confidence in [0, 1]. *)
Example sample_buttons_confident : ConfidenceProps.confident sample_buttons.
Proof. vm_compute. repeat constructor; discriminate. Qed.

(** A Turkish screen: Tesseract reads the label of the cancel button,
    "İptal", whose first letter is the dotted capital I U+0130. *)
Definition iptal : string := Text.chr 0x130 ++ "ptal".

Definition turkish_boxes : list OCREngine.RawBox :=
  [{| OCREngine.raw_text := iptal; OCREngine.raw_conf := 90;
      OCREngine.raw_left := 100; OCREngine.raw_top := 100;
      OCREngine.raw_width := 40; OCREngine.raw_height := 20;
      OCREngine.raw_level := 5 |}].

(** The button is looked up by its label in lower case, ["İptal".lower()],
    which is six characters long: i, the combining dot U+0307, p, t, a,
    l. *)
Definition turkish_buttons : list Element :=
  find_button (U := Text.sample_unicode) unit true true 0.7
    (fun _ => Returns turkish_boxes)
    (fun _ _ => Returns [])
    (fun _ => (20%Z, 40%Z))
    (fun _ => Returns [])
    (fun _ _ _ w h => Returns (w * h)%Z)
    (fun _ _ _ _ _ => Returns {| edge_pixels := 400; std_dev := 12 |})
    tt (Some (Text.lower (U := Text.sample_unicode) iptal)) None.

(** C7 does not hold of the code.  The estimate of [_estimate_confidence]
    lies in [0, 1], but the text strategy gives the cancel button of the
    Turkish screen a confidence of 1.08: the lower-cased label is found in
    the lower-cased text, so the match is scored len(target) / len(text),
    which is 6 / 5, and [_find_button_by_text] multiplies it by 0.9. *)
Theorem find_button_confidence_above_one :
  (forall (U : Text.Unicode) text engine_name,
     ConfidenceProps.unit_interval
       (MultiOCR._estimate_confidence text engine_name))
  /\ Text.len (Text.lower (U := Text.sample_unicode) iptal) = 6%Z
  /\ Text.len iptal = 5%Z
  /\ map (fun m => Qred (OCREngine.match_score m))
         (OCREngine.find_text_location (U := Text.sample_unicode) unit true
            (fun _ => Returns turkish_boxes) tt
            (Text.lower (U := Text.sample_unicode) iptal) true)
     = [6 # 5]
  /\ map (fun e => Qred (confidence e)) turkish_buttons = [27 # 25]
  /\ ~ ConfidenceProps.confident turkish_buttons.
Proof.
  split; [intros U text engine_name; apply ConfidenceProps.estimate_confidence_unit |].
  split; [reflexivity |]. split; [reflexivity |].
  split; [vm_compute; reflexivity |]. split; [vm_compute; reflexivity |].
  intros H. apply List.Forall_inv in H as [_ Hle].
  vm_compute in Hle. apply Hle. reflexivity.
Qed.

End ConfidenceWitness.

(** ** Deduplication of candidates *)
Module DedupProps.
Import ElementDetector.
Local Open Scope Q_scope.

Definition box (x y w h : Z) : Position :=
  {| x := x; y := y; width := w; height := h;
     center_x := x + w / 2; center_y := y + h / 2 |}.

Definition candidate (p : Position) (c : Q) : Element :=
  {| position := p; confidence := c; detection_method := "feature_analysis";
     text := None; element_type := "button" |}.

(** Three 100x10 boxes side by side at x = 0, 30 and 15; the third has the
    highest confidence. *)
Definition left_box : Element := candidate (box 0 0 100 10) 0.6.
Definition right_box : Element := candidate (box 30 0 100 10) 0.6.
Definition middle_box : Element := candidate (box 15 0 100 10) 0.9.

(** C1 fails on the code.  The outer boxes overlap by 70/130, so both are
    retained; the middle box overlaps each of them by 85/115 > 0.7 and
    replaces the first one it meets, after which the loop breaks: it is
    retained together with the other outer box, with which it overlaps by
    more than 0.7, and that box has the lower confidence. *)
Theorem deduplicate_keeps_overlapping_pair :
  _deduplicate_elements [left_box; right_box; middle_box]
  = [right_box; middle_box]
  /\ 0.7 < _calculate_overlap (position right_box) (position middle_box)
  /\ confidence right_box < confidence middle_box.
Proof.
  split; [reflexivity |]. split; reflexivity.
Qed.

(** The two near-duplicates of the specification do collapse to one. *)
Example deduplicate_near_duplicates :
  _deduplicate_elements
    [candidate (box 10 10 50 20) 0.7; candidate (box 12 11 48 19) 0.8]
  = [candidate (box 12 11 48 19) 0.8].
Proof. reflexivity. Qed.

End DedupProps.

(** ** The OCR cascade *)
Module MultiOCRProps.
Import MultiOCR.

(** The counters of a manager that [__init__] built and [extract_text]
    has been updating: every loaded engine has a statistics entry, and no
    total is negative. *)
Definition stats_ok (stats : gmap string EngineStats) : Prop :=
  forall name st, stats !! name = Some st -> 0 <= total st.

Definition ocr_manager_ok (self : Self) : Prop :=
  (forall name, name ∈ engines self -> is_Some (engine_stats self !! name))
  /\ stats_ok (engine_stats self).

(** What the loop of [extract_text] asks of a result before it returns:
    that something is left of it once the blanks at both ends are
    stripped. *)
Definition gave_text (result : string) : bool :=
  negb (String.eqb result "") && (0 <? Text.len (Text.strip result)).

(** An engine call that raised or returned no text. *)
Definition failed (o : outcome string) : Prop :=
  match o with
  | Raises _ => True
  | Returns result => gave_text result = false
  end.

(** The record returned when no engine gave text. *)
Definition nothing : Extraction :=
  {| text := ""; confidence := 0.0; engine_used := None;
     execution_time := 0; ok := false |}.

(** The statistics after one recorded attempt. *)
Definition recorded (engine_name : string) (success : bool) (t : Q)
    (stats : gmap string EngineStats) : gmap string EngineStats :=
  snd (_update_engine_stats engine_name success t stats).

Lemma update_engine_stats_returns engine_name success t stats :
  stats_ok stats ->
  _update_engine_stats engine_name success t stats
  = (Returns tt, recorded engine_name success t stats).
Proof.
  intros Hok. unfold recorded, _update_engine_stats.
  destruct (stats !! engine_name) as [st |] eqn:Hst; [| reflexivity].
  specialize (Hok _ _ Hst).
  destruct (Z.eqb_spec (total st + 1) 1); [reflexivity |].
  destruct (Z.eqb_spec (total st + 1) 0); [lia | reflexivity].
Qed.

Lemma recorded_lookup engine_name success t stats st :
  stats_ok stats ->
  stats !! engine_name = Some st ->
  exists st',
    recorded engine_name success t stats !! engine_name = Some st'
    /\ total st' = total st + 1
    /\ MultiOCR.success st'
       = MultiOCR.success st + (if success then 1 else 0).
Proof.
  intros Hok Hst. unfold recorded, _update_engine_stats. rewrite Hst.
  specialize (Hok _ _ Hst).
  destruct (Z.eqb_spec (total st + 1) 1);
    [| destruct (Z.eqb_spec (total st + 1) 0); [lia |]];
    simpl; rewrite lookup_insert_eq; eexists; (split; [reflexivity |]);
    simpl; destruct success; split; lia.
Qed.

Lemma recorded_lookup_ne engine_name success t stats other :
  other <> engine_name ->
  recorded engine_name success t stats !! other = stats !! other.
Proof.
  intros Hne. unfold recorded, _update_engine_stats.
  destruct (stats !! engine_name) as [st |]; [| reflexivity].
  destruct (total st + 1 =? 1); [| destruct (total st + 1 =? 0)];
    simpl; now rewrite lookup_insert_ne.
Qed.

Lemma recorded_ok engine_name success t stats :
  stats_ok stats -> stats_ok (recorded engine_name success t stats).
Proof.
  intros Hok name st Hst.
  destruct (decide (name = engine_name)) as [-> | Hne].
  - destruct (stats !! engine_name) as [st0 |] eqn:H0.
    + destruct (recorded_lookup engine_name success t stats st0 Hok H0)
        as (st' & Hst' & Htot & _).
      rewrite Hst in Hst'. injection Hst' as ->.
      specialize (Hok _ _ H0). lia.
    + unfold recorded, _update_engine_stats in Hst. rewrite H0 in Hst.
      simpl in Hst. congruence.
  - rewrite recorded_lookup_ne in Hst by assumption. eauto.
Qed.

Lemma recorded_is_Some engine_name success t stats name :
  is_Some (stats !! name) ->
  is_Some (recorded engine_name success t stats !! name).
Proof.
  intros Hs. destruct (decide (name = engine_name)) as [-> | Hne].
  - unfold recorded, _update_engine_stats.
    destruct (stats !! engine_name) as [st |]; [| now destruct Hs].
    destruct (total st + 1 =? 1); [| destruct (total st + 1 =? 0)];
      simpl; rewrite lookup_insert_eq; eauto.
  - now rewrite recorded_lookup_ne.
Qed.

Lemma gave_text_nonempty (result : string) :
  gave_text result = true -> Text.strip result <> ""%string.
Proof.
  unfold gave_text. intros H. apply andb_true_iff in H as [_ H].
  apply Z.ltb_lt in H. intros Heq. rewrite Heq in H.
  change (Text.len "") with 0 in H. lia.
Qed.

Section Cascade.
Context {U : Text.Unicode}.
Variable Image : Type.
Variable paddle_ocr : Image -> outcome (list PaddleLine).
Variable easyocr_readtext : Image -> outcome (list EasyItem).
Variable tesseract_image_to_string : Image -> outcome string.
Variable builtin_contours : Image -> outcome Z.
Variable time_time : nat -> Q.

Local Abbreviation run :=
  (_extract_with_engine Image paddle_ocr easyocr_readtext
     tesseract_image_to_string builtin_contours).
Local Abbreviation try_one :=
  (try_engine Image paddle_ocr easyocr_readtext tesseract_image_to_string
     builtin_contours time_time).
Local Abbreviation try_all :=
  (try_engines Image paddle_ocr easyocr_readtext tesseract_image_to_string
     builtin_contours time_time).
Local Abbreviation extract :=
  (extract_text Image paddle_ocr easyocr_readtext tesseract_image_to_string
     builtin_contours time_time).

(** The time that one pass measures: the second of its two clock readings
    less the first. *)
Definition measured (w : World) : Q :=
  (time_time (S (ticks w)) - time_time (ticks w))%Q.

(** The world after the pass for a loaded engine: its attempt recorded
    (as a success exactly when the call returned), two clock readings
    consumed, the call logged. *)
Definition after_try (image : Image) (engine_name : string) (w : World) : World :=
  {| self :=
       {| engines := engines (self w);
          engine_stats :=
            recorded engine_name
              (match run image engine_name with
               | Returns _ => true
               | Raises _ => false
               end)
              (measured w) (engine_stats (self w));
          fallback_order := fallback_order (self w) |};
     ticks := S (S (ticks w));
     invocations := invocations w ++ [(engine_name, engine_stats (self w))] |}.

(** What the pass hands to the loop. *)
Definition found_by (image : Image) (engine_name : string) (w : World)
  : option Extraction :=
  match run image engine_name with
  | Returns result =>
      if gave_text result
      then Some {| text := Text.strip result;
                   confidence := _estimate_confidence result engine_name;
                   engine_used := Some engine_name;
                   execution_time := measured w;
                   ok := true |}
      else None
  | Raises _ => None
  end.

Lemma try_engine_spec image engine_name w :
  stats_ok (engine_stats (self w)) ->
  try_one image engine_name w
  = (Returns (found_by image engine_name w), after_try image engine_name w).
Proof.
  intros Hok.
  unfold try_engine, found_by, after_try, measured, Eff.bind, Eff.try_except,
    now, invoke, on_stats, Eff.ret. simpl.
  destruct (run image engine_name) as [result | e]; simpl;
    rewrite (update_engine_stats_returns _ _ _ _ Hok); simpl.
  - unfold gave_text. destruct (_ && _); reflexivity.
  - reflexivity.
Qed.

Lemma after_try_ok image engine_name w :
  stats_ok (engine_stats (self w)) ->
  stats_ok (engine_stats (self (after_try image engine_name w))).
Proof. intros Hok. simpl. now apply recorded_ok. Qed.

Lemma found_by_failed image engine_name w :
  failed (run image engine_name) -> found_by image engine_name w = None.
Proof.
  unfold failed, found_by.
  destruct (run image engine_name) as [result | e]; [| reflexivity].
  now intros ->.
Qed.

Lemma found_by_some image engine_name w e :
  found_by image engine_name w = Some e ->
  ok e = true /\ text e <> ""%string /\ engine_used e = Some engine_name.
Proof.
  unfold found_by.
  destruct (run image engine_name) as [result | err]; [| discriminate].
  destruct (gave_text result) eqn:Hg; [| discriminate].
  intros [= <-]. simpl. repeat split. now apply gave_text_nonempty.
Qed.

(** The loop never raises; what it finds is a successful record with
    text, and it finds nothing when every loaded engine of the order
    fails. *)
Lemma try_engines_spec image names : forall w,
  stats_ok (engine_stats (self w)) ->
  exists found w',
    try_all image names w = (Returns found, w')
    /\ (forall e, found = Some e ->
        ok e = true /\ text e <> ""%string
        /\ exists name, engine_used e = Some name)
    /\ (Forall (fun name => name ∈ engines (self w) -> failed (run image name))
               names -> found = None).
Proof.
  induction names as [| name rest IH]; intros w Hok.
  - exists None, w. split; [reflexivity |]. split; [discriminate | reflexivity].
  - simpl. unfold Eff.bind at 1. unfold Eff.get at 1.
    destruct (bool_decide (name ∈ engines (self w))) eqn:Hin.
    + apply bool_decide_eq_true in Hin.
      unfold Eff.bind at 1. rewrite (try_engine_spec _ _ _ Hok).
      destruct (found_by image name w) as [e |] eqn:Hfound.
      * exists (Some e), (after_try image name w). unfold Eff.ret.
        split; [reflexivity |]. split.
        -- intros e' [= <-]. apply found_by_some in Hfound as (H1 & H2 & H3).
           eauto.
        -- intros Hall. inversion Hall as [| ? ? Hname _]; subst.
           rewrite (found_by_failed _ _ _ (Hname Hin)) in Hfound. discriminate.
      * destruct (IH (after_try image name w) (after_try_ok _ _ _ Hok))
          as (found & w' & Hrun & Hsome & Hnone).
        exists found, w'. split; [exact Hrun |]. split; [exact Hsome |].
        intros Hall. inversion Hall; subst. apply Hnone. assumption.
    + destruct (IH w Hok) as (found & w' & Hrun & Hsome & Hnone).
      exists found, w'. split; [exact Hrun |]. split; [exact Hsome |].
      intros Hall. inversion Hall; subst. apply Hnone. assumption.
Qed.



End Cascade.

(** A freshly built manager is in order. *)
Lemma zeroed_lookup (names : list string) (name : string) :
  name ∈ names ->
  is_Some ((list_to_map
              (map (fun n => (n, {| success := 0; total := 0; avg_time := 0 |}))
                   names) : gmap string EngineStats) !! name).
Proof.
  induction names as [| n names IH]; intros Hin; [inversion Hin |].
  cbn [map list_to_map foldr]. simpl.
  destruct (decide (n = name)) as [-> | Hne].
  - rewrite lookup_insert_eq. eauto.
  - rewrite lookup_insert_ne by assumption. apply IH.
    apply elem_of_cons in Hin as [-> | Hin]; [congruence | assumption].
Qed.

Lemma zeroed_ok (names : list string) :
  stats_ok (list_to_map
              (map (fun n => (n, {| success := 0; total := 0; avg_time := 0 |}))
                   names)).
Proof.
  induction names as [| n names IH]; intros name st; simpl.
  - rewrite lookup_empty. discriminate.
  - destruct (decide (n = name)) as [-> | Hne].
    + rewrite lookup_insert_eq. intros [= <-]. simpl. lia.
    + rewrite lookup_insert_ne by assumption. apply IH.
Qed.

Lemma fresh_ocr_manager_ok (paddleocr easyocr tesseract : bool) :
  ocr_manager_ok (init paddleocr easyocr tesseract).
Proof.
  split.
  - intros name Hin. apply zeroed_lookup.
    now apply elem_of_list_to_set in Hin.
  - apply zeroed_ok.
Qed.

(** A frame on which PaddleOCR raises, EasyOCR reads "Login", Tesseract
    returns only blanks, and the clock advances by one second per reading. *)
Definition clock (n : nat) : Q := inject_Z (Z.of_nat n).

Definition sample_extract (self : Self) :=
  extract_text (U := Text.sample_unicode) unit
    (fun _ => Raises "RuntimeError: inference failed")
    (fun _ => Returns [{| ez_text := "Login"; ez_confidence := 0.9 |}])
    (fun _ => Returns "   "%string)
    (fun _ => Returns 3)
    clock tt None None
    {| self := self; ticks := 0; invocations := [] |}.

(** A result made of blanks that are not of the ASCII range (here the
    ideographic space U+3000 and the no-break space U+00A0) is no text:
    [strip()] removes them. *)
Example wide_blank_is_no_text :
  Text.strip (Text.chr 0x3000 ++ Text.chr 0xA0)%string = ""%string
  /\ failed (Returns (Text.chr 0x3000 ++ Text.chr 0xA0)%string).
Proof. split; reflexivity. Qed.


(** PaddleOCR and Tesseract loaded, the built-in engine taken out of
    [self.engines]: both engines of the order fail. *)
Definition without_builtin : Self :=
  {| engines := {["paddleocr"; "tesseract"]}%string;
     engine_stats := engine_stats (init true false true);
     fallback_order := fallback_order (init true false true) |}.


(** C3 fails on the code for an empty result.  With PaddleOCR, Tesseract
    and the built-in engine loaded, PaddleOCR raises and its attempt is
    recorded as a failure (total 1, success 0) before Tesseract is called;
    Tesseract returns only blanks, and its attempt is recorded as a
    success (total 1, success 1) before the built-in engine is called. *)
Theorem blank_result_recorded_as_success :
  let '(r, w') := sample_extract (init true false true) in
  failed (Returns "   "%string)
  /\ (exists x, r = Returns x /\ engine_used x = Some "builtin"%string)
  /\ map fst (invocations w') = ["paddleocr"; "tesseract"; "builtin"]%string
  /\ map (fun call => snd call !! "paddleocr"%string) (invocations w')
     = [Some {| success := 0; total := 0; avg_time := 0 |};
        Some {| success := 0; total := 1; avg_time := 1 |};
        Some {| success := 0; total := 1; avg_time := 1 |}]
  /\ map (fun call => snd call !! "tesseract"%string) (invocations w')
     = [Some {| success := 0; total := 0; avg_time := 0 |};
        Some {| success := 0; total := 0; avg_time := 0 |};
        Some {| success := 1; total := 1; avg_time := 1 |}].
Proof.
  vm_compute. repeat split. eexists. split; reflexivity.
Qed.

End MultiOCRProps.

(** ** The retry loop *)
Module RetryProps.
Import Retry.

(** The state of a manager that [__init__] built and [execute_with_retry]
    has been updating: the two waits are not negative, and no success
    counter is negative. *)
Definition manager_ok (self : Self) : Prop :=
  (0 <= base_wait_time self)%Q
  /\ (0 <= max_wait_time self)%Q
  /\ forall name st,
       failure_stats self !! name = Some st -> 0 <= successful_attempts st.

Lemma fresh_retry_manager_ok : manager_ok init.
Proof.
  split; [discriminate |]. split; [discriminate |].
  intros name st. simpl. rewrite lookup_empty. discriminate.
Qed.

(** Two states of a manager with the same three settings. *)
Definition same_settings (self self' : Self) : Prop :=
  max_retries self' = max_retries self
  /\ base_wait_time self' = base_wait_time self
  /\ max_wait_time self' = max_wait_time self.

Lemma same_settings_refl self : same_settings self self.
Proof. repeat split. Qed.

Lemma same_settings_trans s1 s2 s3 :
  same_settings s1 s2 -> same_settings s2 s3 -> same_settings s1 s3.
Proof. unfold same_settings. intuition congruence. Qed.

(** Whether an invocation of the callback counts as a success. *)
Definition succeeded (o : outcome OpReturn) : bool :=
  match o with
  | Returns (RetResult r) => success r
  | Returns (RetOther v) => truthy v
  | Raises _ => false
  end.

(** The record that the loop makes of an invocation timed at [t]. *)
Definition recorded_as (o : outcome OpReturn) (t : Q) : OperationResult :=
  match o with
  | Returns (RetResult r) => mkResult (success r) (message r) (data r) t (failure_type r)
  | Returns (RetOther v) =>
      if truthy v then mkResult true "操作成功" v t None
      else mkResult false "操作失败" VNone t None
  | Raises e => mkResult false ("执行异常: " ++ e) VNone t (Some UNKNOWN)
  end.

Lemma recorded_as_success o t : success (recorded_as o t) = succeeded o.
Proof.
  destruct o as [[r | v] | e]; simpl; try reflexivity.
  now destruct (truthy v).
Qed.

Lemma record_success_ok context attempts self :
  manager_ok self ->
  exists self',
    _record_success context attempts self = (Returns tt, self')
    /\ manager_ok self'
    /\ same_settings self self'.
Proof.
  intros (Hb & Hm & Hst). unfold _record_success.
  set (stats := default _ (failure_stats self !! operation_type context)).
  assert (Hs : 0 <= successful_attempts stats).
  { subst stats. destruct (failure_stats self !! _) as [st |] eqn:E; simpl.
    - eapply Hst; eassumption.
    - lia. }
  destruct (Z.eqb_spec (successful_attempts stats + 1) 0) as [E | _]; [lia |].
  eexists. split; [reflexivity |].
  split; [| split; [| split]; reflexivity].
  split; [exact Hb |]. split; [exact Hm |].
  intros name st. simpl.
  destruct (decide (operation_type context = name)) as [<- | Hne].
  - rewrite lookup_insert_eq. intros [= <-]. simpl. lia.
  - rewrite lookup_insert_ne by assumption. apply Hst.
Qed.

Lemma record_failure_ok context attempts self :
  manager_ok self ->
  manager_ok (snd (_record_failure context attempts self))
  /\ same_settings self (snd (_record_failure context attempts self)).
Proof.
  intros (Hb & Hm & Hst). split; [| split; [| split]; reflexivity].
  split; [exact Hb |]. split; [exact Hm |].
  intros name st. simpl.
  destruct (decide (operation_type context = name)) as [<- | Hne].
  - rewrite lookup_insert_eq. intros [= <-]. simpl.
    destruct (failure_stats self !! operation_type context) as [st |] eqn:E; simpl.
    + eapply Hst; eassumption.
    + lia.
  - rewrite lookup_insert_ne by assumption. apply Hst.
Qed.

(** The wait of the [except] block, when it can be computed, is one that
    [time.sleep] accepts. *)
Lemma backoff_sleep_ok self attempt base_wait :
  manager_ok self ->
  times_pow2 (base_wait_time self) attempt = Returns base_wait ->
  Qle_bool 0 (Qmin base_wait (max_wait_time self)) = true.
Proof.
  intros (Hb & Hm & _) Hpow. apply Qle_bool_iff.
  apply Q.min_glb; [| exact Hm].
  unfold times_pow2 in Hpow.
  destruct (1024 <=? attempt); [discriminate |].
  destruct (attempt <? -1074); injection Hpow as <-; [discriminate |].
  assert (0 < 2 ^ attempt)%Q by apply BackoffProps.pow2_pos. nra.
Qed.

Lemma times_pow2_cases (x : Q) (n : Z) :
  (1024 <= n
   /\ times_pow2 x n = Raises "OverflowError: int too large to convert to float")
  \/ (n < 1024 /\ exists p, times_pow2 x n = Returns p).
Proof.
  unfold times_pow2. destruct (Z.leb_spec 1024 n); [left; now split |].
  right. split; [assumption |]. destruct (n <? -1074); eauto.
Qed.

Section Loop.
Context {U : Text.Unicode}.
Variable OpSt : Type.
Variable operation :
  OpSt -> RetryContext -> Self -> outcome OpReturn * RetryContext * Self * OpSt.
Variable time_time : nat -> Q.
Variable random_randint : nat -> Z.
Variable random_uniform : nat -> Q.

Local Abbreviation W := (World OpSt).
Local Abbreviation try_block :=
  (attempt_try OpSt operation time_time random_randint random_uniform).
Local Abbreviation except_block := (attempt_except OpSt time_time).
Local Abbreviation once :=
  (attempt_once OpSt operation time_time random_randint random_uniform).
Local Abbreviation loop :=
  (attempts_loop OpSt operation time_time random_randint random_uniform).
Local Abbreviation execute :=
  (execute_with_retry OpSt operation time_time random_randint random_uniform).
Local Abbreviation failure_tail :=
  (after_failure OpSt random_randint random_uniform).

(** What the callback does in world [w]. *)
Definition answer (w : W) : outcome OpReturn :=
  fst (fst (fst (operation (op_state w) (context w) (self w)))).

(** A callback that does not assign the manager's settings and leaves its
    statistics in order. *)
Definition respects_manager : Prop :=
  forall op_state context self,
    let self' := snd (fst (operation op_state context self)) in
    same_settings self self' /\ (manager_ok self -> manager_ok self').

(** Steps that leave a component [f] of the world as it is. *)
Definition preserves {A X} (f : W -> X) (m : Eff.M (S := W) A) : Prop :=
  forall w, f (snd (m w)) = f w.

Lemma preserves_bind {A B X} (f : W -> X) (m : Eff.M (S := W) A)
    (k : A -> Eff.M (S := W) B) :
  preserves f m -> (forall a, preserves f (k a)) -> preserves f (Eff.bind m k).
Proof.
  intros Hm Hk w. unfold Eff.bind. specialize (Hm w).
  destruct (m w) as [[a | e] w1]; simpl in *; [rewrite Hk |]; exact Hm.
Qed.

Lemma preserves_try_except {A X} (f : W -> X) (m : Eff.M (S := W) A)
    (h : string -> Eff.M (S := W) A) :
  preserves f m -> (forall e, preserves f (h e)) ->
  preserves f (Eff.try_except m h).
Proof.
  intros Hm Hh w. unfold Eff.try_except. specialize (Hm w).
  destruct (m w) as [[a | e] w1]; simpl in *; [| rewrite Hh]; exact Hm.
Qed.

Lemma preserves_ret {A X} (f : W -> X) (a : A) : preserves f (Eff.ret a).
Proof. intros w. reflexivity. Qed.

Lemma preserves_get {X} (f : W -> X) : preserves f Eff.get.
Proof. intros w. reflexivity. Qed.

Lemma preserves_lift {A X} (f : W -> X) (o : outcome A) :
  preserves f (Eff.lift o).
Proof. intros w. reflexivity. Qed.

Lemma on_context_frame {A} (m : Strat A) (w : W) :
  self (snd (on_context OpSt m w)) = self w
  /\ calls (snd (on_context OpSt m w)) = calls w
  /\ sleeps (snd (on_context OpSt m w)) = sleeps w.
Proof.
  unfold on_context. destruct (m (context w, draws w)) as [o [c d]].
  repeat split.
Qed.

Lemma time_sleep_frame (secs : Q) (w : W) :
  self (snd (time_sleep OpSt secs w)) = self w
  /\ calls (snd (time_sleep OpSt secs w)) = calls w.
Proof. unfold time_sleep. destruct (Qle_bool 0 secs); split; reflexivity. Qed.

Lemma on_self_frame {A} (m : Eff.M (S := Self) A) (w : W) :
  calls (snd (on_self OpSt m w)) = calls w
  /\ sleeps (snd (on_self OpSt m w)) = sleeps w.
Proof. unfold on_self. destruct (m (self w)) as [o s]. split; reflexivity. Qed.

(** Putting the frame rules together. *)
Ltac frame :=
  cbv zeta;
  repeat first
    [ apply preserves_ret
    | apply preserves_get
    | apply preserves_lift
    | apply preserves_bind; [| intros ?]
    | apply preserves_try_except; [| intros ?]
    | solve [intros ?; reflexivity]
    | solve [intros ?; apply on_context_frame]
    | solve [intros ?; apply time_sleep_frame]
    | solve [intros ?; apply on_self_frame]
    | match goal with
      | |- preserves _ (if ?b then _ else _) => destruct b
      | |- preserves _ (match ?x with _ => _ end) => destruct x
      end ].

Lemma after_failure_frame attempt last_result :
  preserves self (failure_tail attempt last_result)
  /\ preserves calls (failure_tail attempt last_result).
Proof. unfold after_failure. split; frame. Qed.

Lemma except_block_frame attempt start_time e :
  preserves self (except_block attempt start_time e)
  /\ preserves calls (except_block attempt start_time e).
Proof. unfold attempt_except. split; frame. Qed.

(** How the rest of the [try] block can end. *)
Lemma after_failure_spec attempt last_result w :
  exists res w',
    failure_tail attempt last_result w = (res, w')
    /\ self w' = self w
    /\ calls w' = calls w
    /\ match res with
       | Raises _ => attempt < max_retries (self w)
       | Returns (Return _) => False
       | Returns (Break r) => max_retries (self w) <= attempt /\ r = last_result
       | Returns (Continue _) => attempt < max_retries (self w)
       end.
Proof.
  destruct (after_failure_frame attempt last_result) as [Hself Hcalls].
  specialize (Hself w). specialize (Hcalls w).
  destruct (failure_tail attempt last_result w) as [res w'] eqn:Hrun.
  exists res, w'. split; [reflexivity |]. split; [exact Hself |].
  split; [exact Hcalls |].
  revert Hrun. unfold after_failure. unfold Eff.bind at 1, Eff.get at 1.
  destruct (Z.leb_spec (max_retries (self w)) attempt) as [Hle | Hlt].
  { intros [= <- _]. split; [exact Hle | reflexivity]. }
  cbv zeta. unfold Eff.bind, Eff.get, Eff.ret. intros Hrun.
  repeat match type of Hrun with
         | context [match ?x with _ => _ end] => destruct x
         end;
    injection Hrun as <- _; exact Hlt.
Qed.

(** How the [except] block can end, for a manager in working order: it
    raises only when [2 ** attempt] does not convert to a float. *)
Lemma except_block_spec attempt start_time e w :
  manager_ok (self w) ->
  exists res w',
    except_block attempt start_time e w = (res, w')
    /\ self w' = self w
    /\ calls w' = calls w
    /\ match res with
       | Raises _ => attempt < max_retries (self w) /\ 1024 <= attempt
       | Returns (Return _) => False
       | Returns (Break r) =>
           max_retries (self w) <= attempt
           /\ exists t, r = mkResult false ("执行异常: " ++ e) VNone t (Some UNKNOWN)
       | Returns (Continue _) => attempt < max_retries (self w)
       end.
Proof.
  intros Hok.
  destruct (except_block_frame attempt start_time e) as [Hself Hcalls].
  specialize (Hself w). specialize (Hcalls w).
  destruct (except_block attempt start_time e w) as [res w'] eqn:Hrun.
  exists res, w'. split; [reflexivity |]. split; [exact Hself |].
  split; [exact Hcalls |].
  revert Hrun.
  unfold attempt_except, Eff.bind, now, on_context, set_last_error,
    Eff.get, Eff.ret, Eff.lift. cbn [fst snd context draws self].
  destruct (Z.leb_spec (max_retries (self w)) attempt) as [Hle | Hlt].
  { intros [= <- _]. split; [exact Hle |]. eauto. }
  destruct (times_pow2_cases (base_wait_time (self w)) attempt)
    as [[Hbig ->] | [_ [p Hp]]].
  { intros [= <- _]. split; assumption. }
  rewrite Hp. unfold time_sleep. cbn [self].
  rewrite (backoff_sleep_ok _ _ _ Hok Hp). intros [= <- _]. exact Hlt.
Qed.

Lemma try_block_spec attempt start_time w :
  respects_manager ->
  manager_ok (self w) ->
  exists res w',
    try_block attempt start_time w = (res, w')
    /\ manager_ok (self w')
    /\ same_settings (self w) (self w')
    /\ calls w' = calls w ++ [answer w]
    /\ match res with
       | Raises e =>
           succeeded (answer w) = false
           /\ (answer w = Raises e \/ attempt < max_retries (self w))
       | Returns (Return r) =>
           succeeded (answer w) = true /\ exists t, r = recorded_as (answer w) t
       | Returns (Break r) =>
           succeeded (answer w) = false
           /\ max_retries (self w) <= attempt
           /\ exists t, r = recorded_as (answer w) t
       | Returns (Continue _) =>
           succeeded (answer w) = false /\ attempt < max_retries (self w)
       end.
Proof.
  intros Hresp Hok. unfold attempt_try, answer. unfold Eff.bind at 1, invoke.
  destruct (Hresp (op_state w) (context w) (self w)) as [Hsame Hkeeps].
  specialize (Hkeeps Hok).
  destruct (operation (op_state w) (context w) (self w))
    as [[[o context'] self'] op_state'].
  cbn [fst snd] in *.
  destruct o as [result | e].
  2: { eexists _, _. split; [reflexivity |]. cbn [self calls].
       split; [exact Hkeeps |]. split; [exact Hsame |]. split; [reflexivity |].
       split; [reflexivity | left; reflexivity]. }
  unfold Eff.bind at 1, now at 1. cbn [ticks].
  set (t := (time_time (ticks w) - start_time)%Q).
  unfold Eff.bind at 1, Eff.get at 1.
  match goal with
  | |- context [?k ?x] =>
      match type of x with
      | World OpSt => set (w1 := x)
      end
  end.
  assert (Hself : self w1 = self') by reflexivity.
  assert (Hcalls : calls w1 = calls w ++ [Returns result]) by reflexivity.
  clearbody w1.
  assert (Hmax : max_retries self' = max_retries (self w)) by apply Hsame.
  assert (Htail : forall last_result,
            success last_result = false ->
            succeeded (Returns result) = false ->
            (exists t, last_result = recorded_as (Returns result) t) ->
            exists res w',
              failure_tail attempt last_result w1 = (res, w')
              /\ manager_ok (self w')
              /\ same_settings (self w) (self w')
              /\ calls w' = calls w ++ [Returns result]
              /\ match res with
                 | Raises e =>
                     succeeded (Returns result) = false
                     /\ (Returns result = Raises e \/ attempt < max_retries (self w))
                 | Returns (Return r) =>
                     succeeded (Returns result) = true
                     /\ exists t, r = recorded_as (Returns result) t
                 | Returns (Break r) =>
                     succeeded (Returns result) = false
                     /\ max_retries (self w) <= attempt
                     /\ exists t, r = recorded_as (Returns result) t
                 | Returns (Continue _) =>
                     succeeded (Returns result) = false
                     /\ attempt < max_retries (self w)
                 end).
  { intros last_result Hfail Hno Hrec.
    destruct (after_failure_spec attempt last_result w1)
      as (res & w' & Hrun & Hs & Hc & Hres).
    exists res, w'. split; [exact Hrun |].
    rewrite Hs, Hself, Hc, Hcalls.
    split; [exact Hkeeps |]. split; [exact Hsame |]. split; [reflexivity |].
    rewrite Hself, Hmax in Hres.
    destruct res as [[r | r | r] | e]; try contradiction.
    - destruct Hres as [Hle ->]. split; [assumption |]. split; assumption.
    - split; assumption.
    - split; [assumption | right; assumption]. }
  destruct result as [r | v]; cbn [with_execution_time success].
  - destruct (success r) eqn:Hsucc.
    + unfold Eff.bind, on_self, Eff.ret.
      assert (Hok1 : manager_ok (self w1)) by (rewrite Hself; exact Hkeeps).
      destruct (record_success_ok (context w1) attempt (self w1) Hok1)
        as (self2 & Hrec & Hok' & Hsame').
      rewrite Hrec. eexists _, _. split; [reflexivity |]. cbn [self calls].
      split; [exact Hok' |].
      split; [rewrite Hself in Hsame'; exact (same_settings_trans _ _ _ Hsame Hsame') |].
      split; [assumption |]. split; [assumption |].
      exists t. unfold with_execution_time. reflexivity.
    + apply Htail; simpl; try assumption.
      exists t. reflexivity.
  - destruct (truthy v) eqn:Htruthy.
    + unfold Eff.ret. eexists _, _. split; [reflexivity |].
      rewrite Hself, Hcalls. simpl.
      split; [exact Hkeeps |]. split; [exact Hsame |]. split; [reflexivity |].
      split; [assumption |].
      exists t. now rewrite Htruthy.
    + apply Htail; simpl; try assumption; try reflexivity.
      exists t. now rewrite Htruthy.
Qed.

(** One pass of the loop body, for a manager in working order: the
    callback is invoked once; the pass raises only when [2 ** attempt]
    does not convert to a float. *)
Lemma once_spec attempt w :
  respects_manager ->
  manager_ok (self w) ->
  exists res w',
    once attempt w = (res, w')
    /\ manager_ok (self w')
    /\ same_settings (self w) (self w')
    /\ calls w' = calls w ++ [answer w]
    /\ match res with
       | Raises _ =>
           succeeded (answer w) = false
           /\ attempt < max_retries (self w) /\ 1024 <= attempt
       | Returns (Return r) =>
           succeeded (answer w) = true /\ exists t, r = recorded_as (answer w) t
       | Returns (Break r) =>
           succeeded (answer w) = false
           /\ max_retries (self w) <= attempt
           /\ exists t, r = recorded_as (answer w) t
       | Returns (Continue _) =>
           succeeded (answer w) = false /\ attempt < max_retries (self w)
       end.
Proof.
  intros Hresp Hok. unfold attempt_once, Eff.bind, now, Eff.try_except.
  match goal with
  | |- context [attempt_try _ _ _ _ _ _ ?s ?x] => set (start_time := s); set (w0 := x)
  end.
  destruct (try_block_spec attempt start_time w0 Hresp Hok)
    as (res & w1 & Hrun & Hok1 & Hsame1 & Hcalls1 & Hres).
  rewrite Hrun. change (answer w0) with (answer w) in *.
  change (calls w0) with (calls w) in *. change (self w0) with (self w) in *.
  destruct res as [sig | e].
  - exists (Returns sig), w1. split; [reflexivity |]. split; [exact Hok1 |].
    split; [exact Hsame1 |]. split; [exact Hcalls1 |]. exact Hres.
  - destruct (except_block_spec attempt start_time e w1 Hok1)
      as (res2 & w2 & Hrun2 & Hs2 & Hc2 & Hsig).
    rewrite Hrun2. exists res2, w2. split; [reflexivity |].
    rewrite Hs2, Hc2. split; [exact Hok1 |]. split; [exact Hsame1 |].
    split; [exact Hcalls1 |].
    destruct Hres as [Hno Hwhy].
    assert (Hmax : max_retries (self w1) = max_retries (self w)) by apply Hsame1.
    rewrite Hmax in Hsig.
    destruct res2 as [[r | r | r] | e2]; [contradiction | | |].
    + destruct Hsig as [Hle [t ->]]. split; [exact Hno |]. split; [exact Hle |].
      destruct Hwhy as [Hans | Hlt]; [| lia].
      exists t. now rewrite Hans.
    + split; assumption.
    + split; [exact Hno | exact Hsig].
Qed.

(** Whatever the callback and the manager, one pass invokes the callback
    exactly once. *)
Lemma once_calls attempt w :
  calls (snd (once attempt w)) = calls w ++ [answer w].
Proof.
  unfold attempt_once, Eff.bind, now, Eff.try_except.
  match goal with
  | |- context [attempt_try _ _ _ _ _ _ ?s ?x] => set (start_time := s); set (w0 := x)
  end.
  assert (Htry : calls (snd (try_block attempt start_time w0))
                 = calls w ++ [answer w]).
  { unfold attempt_try, answer. unfold Eff.bind at 1, invoke.
    change (op_state w0) with (op_state w). change (context w0) with (context w).
    change (self w0) with (self w). change (calls w0) with (calls w).
    destruct (operation (op_state w) (context w) (self w))
      as [[[o context'] self'] op_state'].
    cbn [fst snd]. destruct o as [result | e]; [| reflexivity].
    match goal with
    | |- calls (snd (?k ?x)) = _ => set (w1 := x)
    end.
    assert (Hrest : forall result0,
              preserves calls
                (fun w2 =>
                   (t <- now OpSt time_time ;;
                    w3 <- Eff.get ;;
                    match result0 with
                    | RetResult result1 =>
                        if success (with_execution_time result1 (t - start_time))
                        then
                          (on_self OpSt (_record_success (context w3) attempt) ;;;
                           Eff.ret (Return (with_execution_time result1
                                              (t - start_time))))
                        else failure_tail attempt
                               (with_execution_time result1 (t - start_time))
                    | RetOther v =>
                        if truthy v
                        then Eff.ret (Return (mkResult true "操作成功" v
                                                (t - start_time) None))
                        else failure_tail attempt
                               (mkResult false "操作失败" VNone
                                  (t - start_time) None)
                    end)%eff w2)).
    { intros result0. apply preserves_bind; [intros ?; reflexivity |].
      intros t. apply preserves_bind; [apply preserves_get |]. intros w3.
      destruct result0 as [r | v].
      - destruct (success _); [frame | apply after_failure_frame].
      - destruct (truthy v); [frame | apply after_failure_frame]. }
    apply (Hrest result w1). }
  destruct (try_block attempt start_time w0) as [[sig | e] w1]; cbn [snd] in *.
  - exact Htry.
  - rewrite (proj2 (except_block_frame attempt start_time e) w1). exact Htry.
Qed.

(** An invocation that did not succeed. *)
Definition unsuccessful (o : outcome OpReturn) : Prop := succeeded o = false.

(** [range(start, start + count)] *)
Definition span (start count : nat) : list Z := map Z.of_nat (seq start count).

Lemma range_span (n : Z) : range n = span 0 (Z.to_nat n).
Proof. reflexivity. Qed.

Lemma range_length (n : Z) : length (range n) = Z.to_nat n.
Proof. unfold range. now rewrite length_map, length_seq. Qed.

(** Whatever the callback and the manager, the loop invokes the callback
    at most once per attempt index. *)
Lemma loop_calls attempts : forall last_result w,
  exists new,
    calls (snd (loop attempts last_result w)) = calls w ++ new
    /\ (length new <= length attempts)%nat.
Proof.
  induction attempts as [| attempt rest IH]; intros last_result w.
  - exists []. split; [now rewrite app_nil_r | reflexivity].
  - cbn [attempts_loop]. unfold Eff.bind.
    pose proof (once_calls attempt w) as Honce.
    destruct (once attempt w) as [[[r | r | r] | e] w1]; cbn [snd] in Honce.
    + exists [answer w]. split; [exact Honce | simpl; lia].
    + exists [answer w]. split; [exact Honce | simpl; lia].
    + destruct (IH (Some r) w1) as (new & Hcalls & Hlen).
      exists (answer w :: new).
      split; [rewrite Hcalls, Honce, <- app_assoc; reflexivity | simpl; lia].
    + exists [answer w]. split; [exact Honce | simpl; lia].
Qed.

(** The loop over the attempt indices from [start] to [max_retries], for a
    manager in working order with a budget of at most 1024: it does not
    raise; it ends either on the first invocation that succeeds, or after
    all [count] invocations have failed. *)
Lemma loop_spec count : forall start last_result w,
  respects_manager ->
  manager_ok (self w) ->
  max_retries (self w) <= 1024 ->
  (count <> 0%nat -> Z.of_nat (start + count) = max_retries (self w) + 1) ->
  exists exit w' new,
    loop (span start count) last_result w = (Returns exit, w')
    /\ calls w' = calls w ++ new
    /\ match exit with
       | inl r =>
           (length new <= count)%nat
           /\ exists earlier o t,
                new = earlier ++ [o] /\ Forall unsuccessful earlier
                /\ succeeded o = true /\ r = recorded_as o t
       | inr last' =>
           length new = count
           /\ Forall unsuccessful new
           /\ ((count = 0%nat /\ last' = last_result /\ w' = w)
               \/ exists earlier o t,
                    new = earlier ++ [o] /\ last' = Some (recorded_as o t))
       end.
Proof.
  induction count as [| count IH]; intros start last_result w Hresp Hok Hmax Hend.
  - exists (inr last_result), w, []. split; [reflexivity |].
    split; [now rewrite app_nil_r |].
    split; [reflexivity |]. split; [constructor |]. left. auto.
  - specialize (Hend ltac:(discriminate)).
    unfold span. cbn [seq map attempts_loop]. fold (span (S start) count).
    unfold Eff.bind at 1.
    destruct (once_spec (Z.of_nat start) w Hresp Hok)
      as (res & w1 & Hrun & Hok1 & Hsame1 & Hcalls1 & Hres).
    assert (Hmax1 : max_retries (self w1) = max_retries (self w)) by apply Hsame1.
    rewrite Hrun. destruct res as [[r | r | r] | e].
    + destruct Hres as [Hyes [t ->]].
      exists (inl (recorded_as (answer w) t)), w1, [answer w].
      split; [reflexivity |]. split; [exact Hcalls1 |].
      split; [simpl; lia |].
      exists [], (answer w), t. repeat split; [constructor | exact Hyes].
    + destruct Hres as (Hno & Hle & t & ->).
      exists (inr (Some (recorded_as (answer w) t))), w1, [answer w].
      split; [reflexivity |]. split; [exact Hcalls1 |].
      split; [simpl; lia |].
      split; [repeat constructor; exact Hno |].
      right. exists [], (answer w), t. split; reflexivity.
    + destruct Hres as [Hno Hlt].
      destruct (IH (S start) (Some r) w1 Hresp Hok1) as
        (exit & w' & new & Hloop & Hcalls & Hexit); [lia | intros _; lia |].
      exists exit, w', (answer w :: new).
      split; [exact Hloop |].
      split; [rewrite Hcalls, Hcalls1, <- app_assoc; reflexivity |].
      destruct exit as [r' | last'].
      * destruct Hexit as (Hlen & earlier & o & t & -> & Hall & Hyes & ->).
        split; [simpl in *; lia |].
        exists (answer w :: earlier), o, t.
        repeat split; [constructor; assumption | exact Hyes].
      * destruct Hexit as (Hlen & Hall & Hlast).
        split; [simpl; lia |]. split; [constructor; assumption |].
        right. destruct Hlast as [(-> & _ & _) | (earlier & o & t & -> & ->)];
          [lia |].
        exists (answer w :: earlier), o, t. split; reflexivity.
    + lia.
Qed.

(** The record returned when the loop made no attempt at all. *)
Definition no_attempt (self : Self) : OperationResult :=
  mkResult false ("重试 " ++ str_int (max_retries self) ++ " 次后仍然失败")
    VNone 0 (Some UNKNOWN).

(** What [execute_with_retry] returns, given the invocations [new] that it
    made: a success, which is the record of the last invocation, the only
    one that succeeded; or a failure after [max_retries + 1] failed
    invocations, which is the record of the last one. *)
Definition outcome_of (max_retries : Z) (r : OperationResult)
    (new : list (outcome OpReturn)) (none : OperationResult) : Prop :=
  (success r = true
   /\ exists earlier o t,
        new = earlier ++ [o] /\ Forall unsuccessful earlier
        /\ succeeded o = true /\ r = recorded_as o t)
  \/ (success r = false
      /\ Forall unsuccessful new
      /\ length new = Z.to_nat (max_retries + 1)
      /\ ((max_retries < 0 /\ new = [] /\ r = none)
          \/ (0 <= max_retries
              /\ exists earlier o t,
                   new = earlier ++ [o] /\ r = recorded_as o t))).


End Loop.

(** A callback that times out twice and then succeeds, run by a fresh
    manager with a clock that advances one second per reading and a jitter
    of exactly 1. *)
Definition flaky (n : nat) (context : RetryContext) (self : Self)
  : outcome OpReturn * RetryContext * Self * nat :=
  (Returns (RetResult
     (if (n <? 2)%nat then mkResult false "Request timeout" VNone 0 None
      else mkResult true "done" VNone 0 None)),
   context, self, S n).

Lemma flaky_respects_manager : respects_manager nat flaky.
Proof.
  intros n context self. split; [apply same_settings_refl | trivial].
Qed.

Definition sample_world : World nat :=
  {| self := init; context := ClassifyProps.sample_context; op_state := 0%nat;
     ticks := 0; draws := 0; sleeps := []; calls := [] |}.

Definition sample_run : outcome OperationResult * World nat :=
  execute_with_retry (U := Text.sample_unicode) nat flaky
    (fun n => inject_Z (Z.of_nat n)) (fun _ => 0) (fun _ => 1%Q) sample_world.


(** The same run, evaluated: three invocations, the third one's result
    returned, and the two TIMEOUT backoffs of 2 s and 4 s slept. *)
Example sample_run_value :
  fst sample_run = Returns (mkResult true "done" VNone 1 None)
  /\ length (calls (snd sample_run)) = 3%nat
  /\ map Qred (sleeps (snd sample_run)) = [2; 4]%Q
  /\ failure_history (context (snd sample_run)) = [TIMEOUT; TIMEOUT].
Proof. vm_compute. repeat split. Qed.

(** A callback that always raises, run by a manager whose budget has been
    set to 1025; and a callback that sets the manager's longest wait to
    -1 s before it raises, run by a fresh manager. *)
Definition raising (n : nat) (context : RetryContext) (self : Self)
  : outcome OpReturn * RetryContext * Self * nat :=
  (Raises "RuntimeError: no display", context, self, S n).

Definition large_budget : World nat :=
  {| self := {| max_retries := 1025; base_wait_time := 1.0;
                max_wait_time := 30.0; failure_stats := ∅ |};
     context := ClassifyProps.sample_context; op_state := 0%nat;
     ticks := 0; draws := 0; sleeps := []; calls := [] |}.

Definition sabotaging (n : nat) (context : RetryContext) (self : Self)
  : outcome OpReturn * RetryContext * Self * nat :=
  (Raises "RuntimeError: no display", context,
   {| max_retries := max_retries self; base_wait_time := base_wait_time self;
      max_wait_time := (-1)%Q; failure_stats := failure_stats self |},
   S n).


End RetryProps.

Module DetectorProps.
Import ElementDetector.

Lemma calculate_overlap_sym (pos1 pos2 : Position) :
  _calculate_overlap pos1 pos2 = _calculate_overlap pos2 pos1.
Proof.
  unfold _calculate_overlap.
  rewrite (Z.max_comm (x pos1)), (Z.max_comm (y pos1)),
    (Z.min_comm (x pos1 + width pos1)), (Z.min_comm (y pos1 + height pos1)),
    (Z.add_comm (width pos1 * height pos1)).
  reflexivity.
Qed.

(** X1.  The overlap ratio does not depend on the order of the two boxes;
    for boxes whose widths and heights are not negative it lies in [0, 1];
    and a box of positive area overlaps itself with ratio 1. *)
Theorem calculate_overlap_ratio (pos1 pos2 : Position) :
  0 <= width pos1 -> 0 <= height pos1 -> 0 <= width pos2 -> 0 <= height pos2 ->
  _calculate_overlap pos1 pos2 = _calculate_overlap pos2 pos1
  /\ (0 <= _calculate_overlap pos1 pos2 <= 1)%Q
  /\ (0 < width pos1 -> 0 < height pos1 -> (_calculate_overlap pos1 pos1 == 1)%Q).
Proof.
  intros Hw1 Hh1 Hw2 Hh2. split; [apply calculate_overlap_sym |]. split.
  - unfold _calculate_overlap.
    set (x1 := Z.max (x pos1) (x pos2)). set (y1 := Z.max (y pos1) (y pos2)).
    set (x2 := Z.min (x pos1 + width pos1) (x pos2 + width pos2)).
    set (y2 := Z.min (y pos1 + height pos1) (y pos2 + height pos2)).
    destruct (Z.leb_spec x2 x1); [simpl; split; discriminate |].
    destruct (Z.leb_spec y2 y1); [simpl; split; discriminate |]. simpl.
    set (union := width pos1 * height pos1 + width pos2 * height pos2
                  - (x2 - x1) * (y2 - y1)).
    destruct (Z.ltb_spec 0 union) as [Hu | Hu]; [| split; discriminate].
    assert (Hi : 0 <= (x2 - x1) * (y2 - y1)) by nia.
    assert (Hle : (x2 - x1) * (y2 - y1) <= union).
    { assert ((x2 - x1) * (y2 - y1) <= width pos1 * height pos1).
      { apply Z.mul_le_mono_nonneg; lia. }
      assert ((x2 - x1) * (y2 - y1) <= width pos2 * height pos2).
      { apply Z.mul_le_mono_nonneg; lia. }
      subst union. lia. }
    apply ConfidenceProps.true_div_unit with (a := (x2 - x1) * (y2 - y1)) (b := union);
      [lia |].
    unfold true_div. destruct (Z.eqb_spec union 0); [lia | reflexivity].
  - intros Hw Hh. unfold _calculate_overlap.
    rewrite !Z.max_id, !Z.min_id.
    destruct (Z.leb_spec (x pos1 + width pos1) (x pos1)); [lia |].
    destruct (Z.leb_spec (y pos1 + height pos1) (y pos1)); [lia |]. simpl.
    replace (x pos1 + width pos1 - x pos1) with (width pos1) by lia.
    replace (y pos1 + height pos1 - y pos1) with (height pos1) by lia.
    replace (width pos1 * height pos1 + width pos1 * height pos1
             - width pos1 * height pos1) with (width pos1 * height pos1) by lia.
    assert (Ha : 0 < width pos1 * height pos1) by nia.
    destruct (Z.ltb_spec 0 (width pos1 * height pos1)); [| lia].
    field. intros E. apply (Qlt_irrefl 0).
    rewrite <- E at 2. apply ConfidenceProps.inject_Z_pos. exact Ha.
Qed.

(** *** What deduplication keeps *)

Lemma first_overlapping_lookup element unique_elements i existing :
  first_overlapping element unique_elements = Some (i, existing) ->
  unique_elements !! i = Some existing.
Proof.
  revert i. induction unique_elements as [| e rest IH]; intros i; simpl;
    [discriminate |].
  destruct (Qltb _ _).
  - intros [= <- <-]. reflexivity.
  - destruct (first_overlapping element rest) as [[j e'] |]; [| discriminate].
    intros [= <- <-]. simpl. now apply IH.
Qed.

Lemma dedup_step_length unique_elements element :
  (length unique_elements <= length (dedup_step unique_elements element)
   <= S (length unique_elements))%nat.
Proof.
  unfold dedup_step.
  destruct (first_overlapping _ _) as [[i existing] |] eqn:Hfirst.
  - destruct (Qltb _ _); [| lia].
    apply first_overlapping_lookup in Hfirst.
    apply lookup_lt_Some in Hfirst.
    rewrite length_app, length_delete by (apply lookup_lt_is_Some; assumption).
    simpl. lia.
  - rewrite length_app. simpl. lia.
Qed.

(** Every element seen so far is matched in confidence by a retained one. *)
Definition covered (seen retained : list Element) : Prop :=
  forall e, e ∈ seen ->
    exists e', e' ∈ retained /\ (confidence e <= confidence e')%Q.

Lemma dedup_step_covered seen unique_elements element :
  covered seen unique_elements ->
  covered (seen ++ [element]) (dedup_step unique_elements element).
Proof.
  intros Hcov. unfold dedup_step.
  destruct (first_overlapping _ _) as [[i existing] |] eqn:Hfirst.
  - apply first_overlapping_lookup in Hfirst.
    destruct (Qltb (confidence existing) (confidence element)) eqn:Hlt.
    + apply ConfidenceProps.Qltb_true in Hlt.
      intros e He. apply elem_of_app in He as [He | He].
      * destruct (Hcov e He) as (e' & He' & Hle).
        apply list_elem_of_lookup in He' as [j Hj].
        destruct (decide (j = i)) as [-> | Hne].
        -- rewrite Hfirst in Hj. injection Hj as <-.
           exists element. split; [set_solver |]. lra.
        -- exists e'. split; [| exact Hle].
           apply elem_of_app. left.
           destruct (decide (j < i)%nat).
           ++ apply list_elem_of_lookup. exists j.
              now rewrite list_lookup_delete_lt.
           ++ apply list_elem_of_lookup. exists (pred j).
              rewrite list_lookup_delete_ge by lia.
              replace (S (pred j)) with j by lia. exact Hj.
      * apply list_elem_of_singleton in He as ->.
        exists element. split; [set_solver | lra].
    + apply ConfidenceProps.Qltb_false in Hlt.
      intros e He. apply elem_of_app in He as [He | He]; [now apply Hcov |].
      apply list_elem_of_singleton in He as ->.
      exists existing. split; [| exact Hlt].
      apply list_elem_of_lookup. eauto.
  - intros e He. apply elem_of_app in He as [He | He].
    + destruct (Hcov e He) as (e' & He' & Hle). exists e'. split; [set_solver | exact Hle].
    + apply list_elem_of_singleton in He as ->.
      exists element. split; [set_solver | lra].
Qed.

Lemma foldl_dedup_step_facts elements : forall seen unique_elements,
  covered seen unique_elements ->
  (length unique_elements <= length seen)%nat ->
  (seen <> [] -> unique_elements <> []) ->
  let result := foldl dedup_step unique_elements elements in
  covered (seen ++ elements) result
  /\ (length result <= length (seen ++ elements))%nat
  /\ (seen ++ elements <> [] -> result <> []).
Proof.
  induction elements as [| e elements IH]; intros seen unique_elements Hcov Hlen Hne.
  - simpl. rewrite app_nil_r. auto.
  - simpl. replace (seen ++ e :: elements) with ((seen ++ [e]) ++ elements)
      by (rewrite <- app_assoc; reflexivity).
    apply IH.
    + now apply dedup_step_covered.
    + pose proof (dedup_step_length unique_elements e). rewrite length_app. simpl. lia.
    + intros _ Hnil.
      pose proof (dedup_step_length unique_elements e) as Hl.
      rewrite Hnil in Hl. simpl in Hl.
      assert (unique_elements = []) by (destruct unique_elements; [reflexivity | simpl in Hl; lia]).
      subst unique_elements. unfold dedup_step in Hnil. simpl in Hnil. discriminate.
Qed.

(** X2.  What [_deduplicate_elements] returns is drawn from what it was
    given and is no longer; it is empty only for an empty input; and the
    best confidence survives: every input element is matched or exceeded
    in confidence by a returned one. *)
Theorem deduplicate_keeps_the_best (elements : list Element) :
  let result := _deduplicate_elements elements in
  (forall e, e ∈ result -> e ∈ elements)
  /\ (length result <= length elements)%nat
  /\ (result = [] <-> elements = [])
  /\ (forall e, e ∈ elements ->
      exists e', e' ∈ result /\ (confidence e <= confidence e')%Q).
Proof.
  cbv zeta. split.
  - pose proof (ConfidenceProps.deduplicate_Forall (fun e => e ∈ elements) elements)
      as H.
    rewrite !Forall_forall in H. intros e He. apply H; auto.
  - unfold _deduplicate_elements. destruct elements as [| e0 rest].
    { split; [reflexivity |]. split; [tauto |]. intros e He. inversion He. }
    destruct (foldl_dedup_step_facts (e0 :: rest) [] [])
      as (Hcov & Hlen & Hne); try (simpl; lia); try congruence.
    { intros e He. inversion He. }
    simpl in Hcov, Hlen, Hne. split; [exact Hlen |]. split.
    + split; [| discriminate]. intros Hnil. exfalso. apply Hne; [discriminate | exact Hnil].
    + exact Hcov.
Qed.

(** No later element of the list overlaps an earlier one by more than 0.7. *)
Definition separated (elements : list Element) : Prop :=
  forall i j ei ej,
    (i < j)%nat -> elements !! i = Some ei -> elements !! j = Some ej ->
    (_calculate_overlap (position ej) (position ei) <= 0.7)%Q.

Lemma first_overlapping_none element unique_elements :
  (forall existing, existing ∈ unique_elements ->
     (_calculate_overlap (position element) (position existing) <= 0.7)%Q) ->
  first_overlapping element unique_elements = None.
Proof.
  induction unique_elements as [| e rest IH]; intros Hsep; [reflexivity |].
  simpl. destruct (Qltb _ _) eqn:Hlt.
  - apply ConfidenceProps.Qltb_true in Hlt.
    specialize (Hsep e ltac:(set_solver)). lra.
  - rewrite IH; [reflexivity |]. intros ex Hex. apply Hsep. set_solver.
Qed.

Lemma foldl_dedup_step_separated elements : forall unique_elements,
  separated (unique_elements ++ elements) ->
  foldl dedup_step unique_elements elements = unique_elements ++ elements.
Proof.
  induction elements as [| e elements IH]; intros unique_elements Hsep; simpl.
  - now rewrite app_nil_r.
  - assert (Hnone : first_overlapping e unique_elements = None).
    { apply first_overlapping_none. intros ex Hex.
      apply list_elem_of_lookup in Hex as [i Hi].
      apply (Hsep i (length unique_elements) ex e).
      - now apply lookup_lt_Some in Hi.
      - now rewrite lookup_app_l by (now apply lookup_lt_Some in Hi).
      - rewrite lookup_app_r by lia. now rewrite Nat.sub_diag. }
    unfold dedup_step at 2. rewrite Hnone.
    rewrite IH; rewrite <- app_assoc; [reflexivity | exact Hsep].
Qed.

(** X3.  A list in which no element overlaps an earlier one by more than
    0.7 comes back from [_deduplicate_elements] unchanged, in the same
    order. *)
Theorem deduplicate_separated (elements : list Element) :
  separated elements -> _deduplicate_elements elements = elements.
Proof.
  intros Hsep. unfold _deduplicate_elements.
  destruct elements as [| e rest]; [reflexivity |].
  now apply (foldl_dedup_step_separated (e :: rest) []).
Qed.

(** *** Ranking by confidence *)

(** Keys that do not increase along the list. *)
Definition descending {A} (key : A -> Q) (l : list A) : Prop :=
  StronglySorted (fun a b => (key b <= key a)%Q) l.

Lemma insert_desc_perm {A} (key : A -> Q) a (l : list A) :
  Permutation (insert_desc key a l) (a :: l).
Proof.
  induction l as [| b l IH]; simpl; [reflexivity |].
  destruct (Qltb _ _); [| reflexivity].
  rewrite IH. apply perm_swap.
Qed.

Lemma sort_desc_perm {A} (key : A -> Q) (l : list A) :
  Permutation (sort_desc key l) l.
Proof.
  unfold sort_desc. induction l as [| a l IH]; simpl; [reflexivity |].
  rewrite insert_desc_perm. now constructor.
Qed.

Lemma insert_desc_descending {A} (key : A -> Q) a (l : list A) :
  descending key l -> descending key (insert_desc key a l).
Proof.
  unfold descending. induction 1 as [| b l Hl IH Hb]; simpl.
  - repeat constructor.
  - destruct (Qltb (key a) (key b)) eqn:Hlt.
    + apply ConfidenceProps.Qltb_true in Hlt. constructor; [exact IH |].
      apply ConfidenceProps.insert_desc_Forall; [lra | exact Hb].
    + apply ConfidenceProps.Qltb_false in Hlt.
      constructor; [now constructor |].
      constructor; [exact Hlt |].
      eapply List.Forall_impl; [| exact Hb]. simpl. intros c Hc. lra.
Qed.

Lemma sort_desc_descending {A} (key : A -> Q) (l : list A) :
  descending key (sort_desc key l).
Proof.
  unfold sort_desc. induction l as [| a l IH]; simpl; [constructor |].
  now apply insert_desc_descending.
Qed.

(** The sort is stable: on a list that is already in order it changes
    nothing. *)
Lemma sort_desc_sorted {A} (key : A -> Q) (l : list A) :
  descending key l -> sort_desc key l = l.
Proof.
  unfold descending, sort_desc. induction 1 as [| a l Hl IH Ha]; simpl;
    [reflexivity |].
  rewrite IH. destruct l as [| b l']; [reflexivity |]. simpl.
  inversion Ha as [| ? ? Hb _]; subst.
  unfold Qltb. destruct (Qlt_le_dec (key a) (key b)); [lra | reflexivity].
Qed.

Section Ranking.
Context {U : Text.Unicode}.
Variable Image : Type.
Variable VISION_AVAILABLE : bool.
Variable OCR_AVAILABLE : bool.
Variable confidence_threshold : Q.
Variable image_to_data : Image -> outcome (list OCREngine.RawBox).
Variable match_template : Image -> Image -> outcome (list (Z * Z * Q)).
Variable template_shape : Image -> Z * Z.
Variable contours_50_150 : Image -> outcome (list Contour).
Variable contours_30_100 : Image -> outcome (list Contour).
Variable contours_blue : Image -> outcome (list Contour).
Variable region_size : Image -> Z -> Z -> Z -> Z -> outcome Z.
Variable button_features : Image -> Z -> Z -> Z -> Z -> outcome ButtonFeatures.
Variable input_features : Image -> Z -> Z -> Z -> Z -> outcome InputFeatures.

Local Abbreviation buttons :=
  (find_button Image VISION_AVAILABLE OCR_AVAILABLE confidence_threshold
     image_to_data match_template template_shape contours_50_150 region_size
     button_features).
Local Abbreviation input_fields :=
  (find_input_field Image VISION_AVAILABLE OCR_AVAILABLE image_to_data
     contours_30_100 region_size input_features).
Local Abbreviation clickable_elements :=
  (find_clickable_elements Image VISION_AVAILABLE OCR_AVAILABLE
     confidence_threshold image_to_data match_template template_shape
     contours_50_150 contours_blue region_size button_features).

(** X4.  The lists returned by [find_button], [find_input_field] and
    [find_clickable_elements] are ranked: confidence never increases from
    one candidate to the next, so the first candidate is a best one. *)
Theorem finders_rank_by_confidence :
  (forall image button_text button_template,
     descending confidence (buttons image button_text button_template))
  /\ (forall image field_name,
        descending confidence (input_fields image field_name))
  /\ (forall image, descending confidence (clickable_elements image)).
Proof.
  split; [| split]; intros;
    unfold find_button, find_input_field, find_clickable_elements;
    (destruct (negb VISION_AVAILABLE); [constructor |]);
    apply sort_desc_descending.
Qed.

End Ranking.

(** Two 100x10 boxes that share 70 of their 130 columns. *)
Lemma calculate_overlap_ratio_witness :
  (0 <= _calculate_overlap (DedupProps.box 0 0 100 10) (DedupProps.box 30 0 100 10)
   <= 1)%Q.
Proof.
  refine (proj1 (proj2 (calculate_overlap_ratio
            (DedupProps.box 0 0 100 10) (DedupProps.box 30 0 100 10) _ _ _ _)));
    simpl; lia.
Defined.

(** The same two boxes as candidates: they overlap by 70/130, which is not
    more than 0.7, and both come back. *)
Lemma deduplicate_separated_witness :
  _deduplicate_elements [DedupProps.left_box; DedupProps.right_box]
  = [DedupProps.left_box; DedupProps.right_box].
Proof.
  apply deduplicate_separated.
  intros i j ei ej Hlt Hi Hj.
  destruct i as [| [| i]], j as [| [| j]]; simpl in Hi, Hj;
    try lia; try discriminate.
  injection Hi as <-. injection Hj as <-. vm_compute. discriminate.
Defined.

End DetectorProps.

Module TextSearchProps.
Import OCREngine.
Local Open Scope Q_scope.

(** How [find_text_location] scores a match for [target_text]: an exact
    match has score 1; a match found by containment of the lower-cased
    texts has the quotient of the two lengths, which is not negative; a
    fuzzy match has its similarity, above 0.6 and at most 1. *)
Definition scored (target_text : string) (m : TextMatch) : Prop :=
  (match_type m = "exact"%string /\ text (info m) = target_text
   /\ match_score m == 1)
  \/ (match_type m = "contains"%string /\ text (info m) <> target_text
      /\ 0 <= match_score m)
  \/ (match_type m = "fuzzy"%string /\ text (info m) <> target_text
      /\ 0.6 < match_score m <= 1).

Section Search.
Context {U : Text.Unicode}.
Variable Image : Type.
Variable OCR_AVAILABLE : bool.
Variable image_to_data : Image -> outcome (list RawBox).

Local Abbreviation read := (read_screen_text Image OCR_AVAILABLE image_to_data).
Local Abbreviation find := (find_text_location Image OCR_AVAILABLE image_to_data).

(** What [read_screen_text] lets through. *)
Definition legible (t : TextInfo) : Prop :=
  text t <> ""%string /\ (confidence_threshold <= confidence t)%Z.

Lemma read_screen_text_legible image : Forall legible (read image).
Proof.
  unfold read_screen_text. destruct (negb OCR_AVAILABLE); [constructor |].
  destruct (image_to_data image) as [boxes | e]; simpl; [| constructor].
  apply ConfidenceProps.omap_Forall. intros b t.
  destruct (Z.ltb_spec (raw_conf b) confidence_threshold); [discriminate |].
  destruct (String.eqb_spec (Text.strip (raw_text b)) ""); [discriminate |].
  intros [= <-]. split; simpl; assumption.
Qed.

Lemma match_one_returns target_text fuzzy_match t :
  text t <> ""%string ->
  exists found, match_one target_text fuzzy_match t = Returns found
    /\ (forall m, found = Some m -> info m = t /\ scored target_text m)
    /\ (text t = target_text ->
        exists m, found = Some m /\ match_score m == 1).
Proof.
  intros Hne. unfold match_one.
  destruct (String.eqb_spec target_text (text t)) as [Heq | Hneq].
  { eexists. split; [reflexivity |]. split.
    - intros m [= <-]. split; [reflexivity |]. left. cbn.
      split; [reflexivity |]. split; [now symmetry | reflexivity].
    - intros _. eexists. split; [reflexivity |]. reflexivity. }
  assert (Hexact : forall found : option TextMatch,
            text t = target_text ->
            exists m, found = Some m /\ match_score m == 1) by congruence.
  assert (Hother : text t <> target_text) by congruence.
  destruct (Text.contains _ _).
  { destruct (true_div _ _) as [q | e] eqn:Hdiv.
    - eexists. split; [reflexivity |]. split; [| apply Hexact].
      intros m [= <-]. split; [reflexivity |]. right. left. cbn.
      split; [reflexivity |]. split; [exact Hother |].
      eapply ConfidenceProps.true_div_nonneg; [| | exact Hdiv];
        apply TextProps.len_nonneg.
    - exfalso. unfold true_div in Hdiv.
      destruct (Z.eqb_spec (Text.len (text t)) 0) as [E | _]; [| discriminate].
      apply Hne. now apply TextProps.len_zero_empty. }
  destruct (_ && _)%bool.
  - destruct (Qltb _ _) eqn:Hscore; eexists; (split; [reflexivity |]);
      (split; [| apply Hexact]).
    + intros m [= <-]. split; [reflexivity |]. right. right. cbn.
      split; [reflexivity |]. split; [exact Hother |].
      split; [now apply ConfidenceProps.Qltb_true |].
      apply ConfidenceProps.calculate_similarity_unit.
    + discriminate.
  - eexists. split; [reflexivity |]. split; [discriminate | apply Hexact].
Qed.

Lemma collect_matches_returns target_text fuzzy_match all_texts :
  Forall legible all_texts ->
  exists matches,
    collect_matches target_text fuzzy_match all_texts = Returns matches
    /\ Forall (fun m => info m ∈ all_texts /\ scored target_text m) matches
    /\ (forall t, t ∈ all_texts -> text t = target_text ->
        exists m, m ∈ matches /\ match_score m == 1).
Proof.
  induction 1 as [| t rest [Hne _] Hrest IH]; simpl.
  - exists []. split; [reflexivity |]. split; [constructor |].
    intros t Ht. inversion Ht.
  - destruct (match_one_returns target_text fuzzy_match t Hne)
      as (found & -> & Hinfo & Hexact).
    destruct IH as (more & -> & Hin & Hexacts).
    eexists. split; [reflexivity |]. split.
    + assert (Hmore : Forall (fun m => info m ∈ t :: rest /\ scored target_text m)
                             more).
      { eapply List.Forall_impl; [| exact Hin]. simpl.
        intros m [Hm Hs]. split; [apply elem_of_cons; now right | exact Hs]. }
      destruct found as [m |]; [| exact Hmore].
      constructor; [| exact Hmore].
      destruct (Hinfo m eq_refl) as [-> Hs].
      split; [apply elem_of_cons; now left | exact Hs].
    + intros t' Ht' Heq. apply elem_of_cons in Ht' as [-> | Ht'].
      * destruct (Hexact Heq) as (m & -> & Hm). exists m.
        split; [apply elem_of_cons; now left | exact Hm].
      * destruct (Hexacts t' Ht' Heq) as (m & Hm & Hs).
        exists m. split; [| exact Hs].
        destruct found; [apply elem_of_cons; right |]; exact Hm.
Qed.

(** X5.  The matches of [find_text_location] are ranked by score, highest
    first.  Every match is a recognised text that is not empty and has a
    Tesseract confidence of at least 30, and is scored by its kind: 1 for
    an exact match, a quotient that is not negative for a containment
    match, a similarity above 0.6 and at most 1 for a fuzzy match.  When
    some recognised text equals the target exactly, there are matches and
    the first has a score of at least 1 (a containment match can score
    above 1 and then ranks ahead of the exact one). *)
Theorem find_text_location_ranked (image : Image) (target_text : string)
    (fuzzy_match : bool) :
  let matches := find image target_text fuzzy_match in
  DetectorProps.descending match_score matches
  /\ Forall (fun m => scored target_text m /\ legible (info m)
                      /\ info m ∈ read image) matches
  /\ (forall t, t ∈ read image -> text t = target_text ->
      exists first others,
        matches = first :: others /\ 1 <= match_score first).
Proof.
  cbv zeta.
  pose proof (read_screen_text_legible image) as Hleg.
  unfold find_text_location in *.
  destruct (negb OCR_AVAILABLE) eqn:Hneg.
  { split; [constructor |]. split; [constructor |].
    intros t Ht. unfold read_screen_text in Ht. rewrite Hneg in Ht. inversion Ht. }
  destruct (read image) as [| t0 ts] eqn:Hread.
  { split; [constructor |]. split; [constructor |].
    intros t Ht. inversion Ht. }
  destruct (collect_matches_returns target_text fuzzy_match (t0 :: ts) Hleg)
    as (matches & Hrun & Hin & Hexact).
  rewrite Hrun in *. simpl or_else in *.
  split; [apply DetectorProps.sort_desc_descending |].
  assert (Hall : Forall (fun m => scored target_text m /\ legible (info m)
                                  /\ info m ∈ t0 :: ts)
                        (sort_desc match_score matches)).
  { rewrite List.Forall_forall in *. intros m Hm.
    assert (Hm0 : In m matches).
    { apply (Permutation_in _ (DetectorProps.sort_desc_perm match_score matches)).
      exact Hm. }
    destruct (Hin m Hm0) as [Hfrom Hscored].
    split; [exact Hscored |]. split; [| exact Hfrom].
    apply list_elem_of_In in Hfrom. apply (Hleg _ Hfrom). }
  split; [exact Hall |].
  intros t Ht Heq. destruct (Hexact t Ht Heq) as (m & Hm & Hscore).
  pose proof (DetectorProps.sort_desc_descending match_score matches) as Hsorted.
  assert (Hm' : In m (sort_desc match_score matches)).
  { apply (Permutation_in _ (Permutation_sym (DetectorProps.sort_desc_perm _ _))).
    now apply list_elem_of_In. }
  destruct (sort_desc match_score matches) as [| first others]; [inversion Hm' |].
  exists first, others. split; [reflexivity |].
  inversion Hsorted as [| ? ? _ Hfirst]; subst.
  destruct Hm' as [-> | Hm']; [rewrite Hscore; apply Qle_refl |].
  rewrite List.Forall_forall in Hfirst. specialize (Hfirst m Hm').
  rewrite <- Hscore. exact Hfirst.
Qed.

End Search.
(** Tesseract reads "OK" with confidence 90, and "OK" is searched for. *)
Lemma find_text_location_ranked_witness :
  exists first others,
    find_text_location (U := Text.sample_unicode) unit true
      (fun _ => Returns ConfidenceWitness.ocr_boxes) tt "OK" true
    = first :: others
    /\ 1 <= match_score first.
Proof.
  eapply (proj2 (proj2 (find_text_location_ranked (U := Text.sample_unicode)
                          unit true
                          (fun _ => Returns ConfidenceWitness.ocr_boxes)
                          tt "OK" true))).
  - vm_compute. constructor.
  - reflexivity.
Defined.

(** Tesseract reads the letter i with a combining dot, and then the dotted
    capital I U+0130, whose lower-case form is that same pair; the pair
    is searched for.  The first text is an exact match with score 1; the
    second is a containment match with score 2 / 1, and is ranked first. *)
Definition dotted_boxes : list RawBox :=
  [{| raw_text := Text.chr 0x69 ++ Text.chr 0x307; raw_conf := 90;
      raw_left := 10; raw_top := 10; raw_width := 8; raw_height := 20;
      raw_level := 5 |};
   {| raw_text := Text.chr 0x130; raw_conf := 90;
      raw_left := 50; raw_top := 10; raw_width := 8; raw_height := 20;
      raw_level := 5 |}].

Example containment_outranks_exact :
  map (fun m => (match_type m, Qred (match_score m)))
      (find_text_location (U := Text.sample_unicode) unit true
         (fun _ => Returns dotted_boxes) tt
         (Text.chr 0x69 ++ Text.chr 0x307) true)
  = [("contains"%string, 2); ("exact"%string, 1)].
Proof. vm_compute. reflexivity. Qed.

End TextSearchProps.

Module CascadeProps.
Import MultiOCR MultiOCRProps.

(** X6.  [_estimate_confidence] answers 0 exactly for a text that is empty
    or blank (whatever the blanks: [strip()] removes the ideographic space
    as it does the ASCII one), and for any other text a value between 0.4
    and 0.9500000000000001, which is what 0.85 + 0.05 + 0.05 comes to in
    float arithmetic; so the estimate never exceeds 1. *)
Theorem estimate_confidence_range {U : Text.Unicode} (text engine_name : string) :
  (gave_text text = false ->
   MultiOCR._estimate_confidence text engine_name = 0.0%Q)
  /\ (gave_text text = true ->
      (0.4 <= MultiOCR._estimate_confidence text engine_name
           <= 0.9500000000000001)%Q
      /\ (MultiOCR._estimate_confidence text engine_name <= 1)%Q).
Proof.
  pose proof (TextProps.len_nonneg (Text.strip text)) as Hlen.
  assert (Hblank : String.eqb text "" || (Text.len (Text.strip text) =? 0)
                   = negb (gave_text text)).
  { unfold gave_text. rewrite negb_andb, negb_involutive. f_equal.
    destruct (Z.eqb_spec (Text.len (Text.strip text)) 0) as [-> | Hne];
      [reflexivity |].
    symmetry. apply negb_false_iff, Z.ltb_lt. lia. }
  destruct (ConfidenceProps.estimate_confidence_cases text engine_name)
    as [[Hyes Hzero] | [Hno Hrange]]; rewrite Hblank in *.
  - apply negb_true_iff in Hyes. rewrite Hyes.
    split; [intros _; exact Hzero | discriminate].
  - apply negb_false_iff in Hno. rewrite Hno.
    split; [discriminate |]. intros _. split; [exact Hrange |].
    eapply Qle_trans; [apply Hrange | discriminate].
Qed.

(** X7.  [_update_engine_stats] does nothing for an engine without a
    statistics entry.  For an engine with an entry and a total that is not
    negative and converts to a float (it is below 2^1023), the call
    returns and touches that entry only: it raises the
    total by one and the success count by one exactly when told of a
    success; the first time recorded becomes the average; and an average
    and a time that are not negative give an average that is not
    negative. *)
Theorem update_engine_stats_tally
    (engine_name : string) (success : bool) (execution_time : Q)
    (stats : gmap string EngineStats) :
  (stats !! engine_name = None ->
   _update_engine_stats engine_name success execution_time stats
   = (Returns tt, stats))
  /\ (forall st,
        stats !! engine_name = Some st ->
        0 <= total st < 2 ^ 1023 ->
        exists st',
          _update_engine_stats engine_name success execution_time stats
          = (Returns tt, <[engine_name := st']> stats)
          /\ total st' = total st + 1
          /\ MultiOCR.success st'
             = MultiOCR.success st + (if success then 1 else 0)
          /\ (total st = 0 -> avg_time st' = execution_time)
          /\ ((0 <= avg_time st)%Q -> (0 <= execution_time)%Q ->
              (0 <= avg_time st')%Q)).
Proof.
  split.
  - intros Hnone. unfold _update_engine_stats. now rewrite Hnone.
  - intros st Hst [Htotal _]. unfold _update_engine_stats. rewrite Hst.
    destruct (Z.eqb_spec (total st + 1) 1) as [E1 | N1].
    + eexists. split; [reflexivity |]. simpl.
      split; [reflexivity |]. split; [destruct success; lia |].
      split; [reflexivity |]. intros _ Ht. exact Ht.
    + destruct (Z.eqb_spec (total st + 1) 0) as [E0 | N0]; [lia |].
      eexists. split; [reflexivity |]. simpl.
      split; [reflexivity |]. split; [destruct success; lia |].
      split; [lia |]. intros Havg Ht.
      assert (Hold : (0 <= Float.of_int (total st + 1 - 1))%Q)
        by (apply FloatProps.of_int_nonneg; lia).
      assert (Hnew : (0 <= Float.of_int (total st + 1))%Q)
        by (apply FloatProps.of_int_nonneg; lia).
      assert (Hmul : (0 <= Float.mul (avg_time st)
                             (Float.of_int (total st + 1 - 1)))%Q)
        by (apply FloatProps.round_nonneg; nra).
      assert (Hadd : (0 <= Float.add
                             (Float.mul (avg_time st)
                                (Float.of_int (total st + 1 - 1)))
                             execution_time)%Q)
        by (apply FloatProps.round_nonneg; lra).
      apply FloatProps.round_nonneg.
      unfold Qdiv. apply Qmult_le_0_compat; [exact Hadd |].
      apply Qinv_le_0_compat. exact Hnew.
Qed.

Lemma recorded_lookup_none engine_name success t stats name :
  stats !! name = None -> recorded engine_name success t stats !! name = None.
Proof.
  intros Hnone. destruct (decide (name = engine_name)) as [-> | Hne].
  - unfold recorded, _update_engine_stats. now rewrite Hnone.
  - now rewrite recorded_lookup_ne.
Qed.

(** How often an engine appears among logged calls. *)
Definition calls_of (name : string) (new : list (string * gmap string EngineStats))
  : Z :=
  Z.of_nat (length (List.filter (fun c => String.eqb (fst c) name) new)).

(** The engines of an order that are loaded, in that order. *)
Definition loaded (self : Self) (names : list string) : list string :=
  List.filter (fun name => bool_decide (name ∈ engines self)) names.

(** How one engine's entry moved over some calls: the total up by the
    number of calls of that engine, the successes up by at most as much;
    an engine without an entry stays without. *)
Definition tallied (before after : gmap string EngineStats)
    (new : list (string * gmap string EngineStats)) (name : string) : Prop :=
  match before !! name with
  | Some st =>
      exists st', after !! name = Some st'
        /\ total st' = total st + calls_of name new
        /\ MultiOCR.success st <= MultiOCR.success st'
           <= MultiOCR.success st + calls_of name new
  | None => after !! name = None
  end.

Lemma tallied_one engine_name success t stats snapshot name :
  stats_ok stats ->
  tallied stats (recorded engine_name success t stats)
    [(engine_name, snapshot)] name.
Proof.
  intros Hok. unfold tallied, calls_of. simpl.
  destruct (stats !! name) as [st |] eqn:Hst; [| now apply recorded_lookup_none].
  destruct (String.eqb_spec engine_name name) as [-> | Hne]; simpl.
  - destruct (recorded_lookup name success t stats st Hok Hst)
      as (st' & Hst' & Ht & Hs).
    exists st'. split; [exact Hst' |]. split; [lia |]. destruct success; lia.
  - exists st. rewrite recorded_lookup_ne by congruence.
    split; [exact Hst |]. split; lia.
Qed.

Lemma tallied_cons before middle after call new name :
  tallied before middle [call] name ->
  tallied middle after new name ->
  tallied before after (call :: new) name.
Proof.
  unfold tallied, calls_of. simpl.
  destruct (before !! name) as [st |].
  - intros (st1 & -> & Ht1 & Hs1) (st' & Hst' & Ht' & Hs').
    exists st'. split; [exact Hst' |].
    destruct (String.eqb (fst call) name); simpl in *; split; lia.
  - intros ->. trivial.
Qed.

Section Accounting.
Context {U : Text.Unicode}.
Variable Image : Type.
Variable paddle_ocr : Image -> outcome (list PaddleLine).
Variable easyocr_readtext : Image -> outcome (list EasyItem).
Variable tesseract_image_to_string : Image -> outcome string.
Variable builtin_contours : Image -> outcome Z.
Variable time_time : nat -> Q.

Local Abbreviation run :=
  (_extract_with_engine Image paddle_ocr easyocr_readtext
     tesseract_image_to_string builtin_contours).
Local Abbreviation try_all :=
  (try_engines Image paddle_ocr easyocr_readtext tesseract_image_to_string
     builtin_contours time_time).
Local Abbreviation extract :=
  (extract_text Image paddle_ocr easyocr_readtext tesseract_image_to_string
     builtin_contours time_time).
Local Abbreviation step_to :=
  (after_try Image paddle_ocr easyocr_readtext tesseract_image_to_string
     builtin_contours time_time).
Local Abbreviation answer_of :=
  (found_by Image paddle_ocr easyocr_readtext tesseract_image_to_string
     builtin_contours time_time).

(** What the pass for one engine finds, in terms of the engine's call. *)
Lemma found_by_text image engine_name w e :
  answer_of image engine_name w = Some e ->
  exists result,
    run image engine_name = Returns result /\ gave_text result = true
    /\ text e = Text.strip result.
Proof.
  unfold found_by.
  destruct (run image engine_name) as [result | err]; [| discriminate].
  destruct (gave_text result) eqn:Hg; [| discriminate].
  intros [= <-]. exists result. repeat split. exact Hg.
Qed.

Lemma found_by_none image engine_name w :
  answer_of image engine_name w = None -> failed (run image engine_name).
Proof.
  unfold found_by, failed.
  destruct (run image engine_name) as [result | err]; [| trivial].
  destruct (gave_text result); [discriminate | reflexivity].
Qed.

(** The calls [new] end with the first engine that gave text: all the
    calls before the last failed, and the last, of [name], returned
    [result], which is text. *)
Definition first_to_answer (image : Image)
    (new : list (string * gmap string EngineStats)) (name result : string)
  : Prop :=
  exists earlier snapshot,
    new = earlier ++ [(name, snapshot)]
    /\ Forall (fun call => failed (run image (fst call))) earlier
    /\ run image name = Returns result
    /\ gave_text result = true.

Lemma try_engines_accounting image names : forall w,
  stats_ok (engine_stats (self w)) ->
  exists found w' new,
    try_all image names w = (Returns found, w')
    /\ invocations w' = invocations w ++ new
    /\ map fst new `prefix_of` loaded (self w) names
    /\ (found = None ->
        map fst new = loaded (self w) names
        /\ Forall (fun call => failed (run image (fst call))) new)
    /\ (forall e, found = Some e ->
        ok e = true
        /\ exists name result,
             engine_used e = Some name /\ text e = Text.strip result
             /\ first_to_answer image new name result)
    /\ (forall name,
          tallied (engine_stats (self w)) (engine_stats (self w')) new name).
Proof.
  induction names as [| name0 rest IH]; intros w Hok.
  - exists None, w, []. split; [reflexivity |]. split; [now rewrite app_nil_r |].
    split; [reflexivity |]. split; [split; [reflexivity | constructor] |].
    split; [discriminate |].
    intros name. unfold tallied, calls_of. simpl.
    destruct (engine_stats (self w) !! name) as [st |]; [| reflexivity].
    exists st. split; [reflexivity |]. split; lia.
  - cbn [try_engines]. unfold Eff.bind at 1. unfold Eff.get at 1.
    unfold loaded. cbn [List.filter].
    destruct (bool_decide (name0 ∈ engines (self w))) eqn:Hin.
    + unfold Eff.bind at 1.
      rewrite (try_engine_spec Image paddle_ocr easyocr_readtext
                 tesseract_image_to_string builtin_contours time_time _ _ _ Hok).
      pose proof (tallied_one name0
                    (match run image name0 with Returns _ => true | Raises _ => false end)
                    (measured time_time w) (engine_stats (self w))
                    (engine_stats (self w))) as Hone.
      destruct (answer_of image name0 w) as [e |] eqn:Hfound.
      * exists (Some e), (step_to image name0 w), [(name0, engine_stats (self w))].
        unfold Eff.ret. split; [reflexivity |]. split; [reflexivity |].
        split; [apply prefix_cons, prefix_nil |]. split; [discriminate |].
        split.
        -- intros e' [= <-].
           destruct (found_by_text _ _ _ _ Hfound) as (result & Hrun & Hgave & Htext).
           apply found_by_some in Hfound as (H1 & _ & H3).
           split; [exact H1 |]. exists name0, result.
           split; [exact H3 |]. split; [exact Htext |].
           exists [], (engine_stats (self w)).
           split; [reflexivity |]. split; [constructor |]. split; assumption.
        -- intros name. apply Hone. exact Hok.
      * apply found_by_none in Hfound.
        destruct (IH (step_to image name0 w)
                    (after_try_ok Image paddle_ocr easyocr_readtext
                       tesseract_image_to_string builtin_contours time_time
                       image name0 w Hok))
          as (found & w' & new & Hrun & Hinv & Hpre & Hnone & Hsome & Htally).
        exists found, w', ((name0, engine_stats (self w)) :: new).
        split; [exact Hrun |].
        split; [rewrite Hinv; simpl; now rewrite <- app_assoc |].
        split; [simpl; now apply prefix_cons |].
        split.
        { intros Hf. destruct (Hnone Hf) as [Hall Hfailed].
          split; [simpl; f_equal; exact Hall |].
          constructor; [exact Hfound | exact Hfailed]. }
        split.
        -- intros e He.
           destruct (Hsome e He)
             as (Hk & name & result & Hu & Htext & earlier & snapshot & -> & Hfailed
                 & Hanswer & Hgave).
           split; [exact Hk |]. exists name, result.
           split; [exact Hu |]. split; [exact Htext |].
           exists ((name0, engine_stats (self w)) :: earlier), snapshot.
           split; [reflexivity |].
           split; [constructor; [exact Hfound | exact Hfailed] |].
           split; assumption.
        -- intros name. eapply tallied_cons; [apply Hone; exact Hok | apply Htally].
    + destruct (IH w Hok)
        as (found & w' & new & Hrun & Hinv & Hpre & Hnone & Hsome & Htally).
      exists found, w', new. repeat (split; [assumption |]). assumption.
Qed.



End Accounting.
Lemma estimate_confidence_range_witness :
  (0.4 <= MultiOCR._estimate_confidence (U := Text.sample_unicode)
            "Login" "easyocr"
       <= 0.9500000000000001)%Q
  /\ (MultiOCR._estimate_confidence (U := Text.sample_unicode) "Login" "easyocr"
      <= 1)%Q.
Proof.
  apply (proj2 (estimate_confidence_range (U := Text.sample_unicode)
                  "Login" "easyocr")).
  reflexivity.
Defined.

(** The highest estimate: PaddleOCR on a long text with a letter in it.
    In float arithmetic 0.85 + 0.05 + 0.05 is the double above 0.95. *)
Example estimate_confidence_highest :
  Qred (MultiOCR._estimate_confidence (U := Text.sample_unicode)
          "Hello, world" "paddleocr")
  = (8556839292003943 # 9007199254740992)%Q
  /\ (0.95 < MultiOCR._estimate_confidence (U := Text.sample_unicode)
               "Hello, world" "paddleocr")%Q.
Proof. split; vm_compute; reflexivity. Qed.

(** The first recording for EasyOCR on a fresh manager. *)
Lemma update_engine_stats_tally_witness :
  exists st',
    _update_engine_stats "easyocr" true 2 (engine_stats (init true true true))
    = (Returns tt, <["easyocr"%string := st']> (engine_stats (init true true true)))
    /\ total st' = 0 + 1
    /\ MultiOCR.success st' = 0 + 1
    /\ avg_time st' = 2%Q.
Proof.
  destruct (proj2 (update_engine_stats_tally "easyocr" true 2
                     (engine_stats (init true true true)))
                  {| success := 0; total := 0; avg_time := 0 |})
    as (st' & Hrun & Htotal & Hsuccess & Hfirst & _).
  - vm_compute. reflexivity.
  - simpl. split; [lia | reflexivity].
  - exists st'. split; [exact Hrun |]. split; [exact Htotal |].
    split; [exact Hsuccess |]. apply Hfirst. reflexivity.
Defined.

(** The running average is a float: after times of 0.7 and 0.7 and then
    0.2, it is 0.5333333333333333, and three times that is not the sum of
    the three times. *)
Example running_average_is_rounded :
  let stats := {[ "easyocr"%string :=
                    {| success := 2; total := 2; avg_time := Float.round 0.7 |} ]} in
  exists st',
    snd (_update_engine_stats "easyocr" true (Float.round 0.2) stats)
      !! "easyocr"%string = Some st'
    /\ Qred (avg_time st') = (4803839602528529 # 9007199254740992)%Q
    /\ ~ (avg_time st' * 3 == Float.round 0.7 * 2 + Float.round 0.2)%Q.
Proof.
  eexists. split; [vm_compute; reflexivity |]. split; [vm_compute; reflexivity |].
  vm_compute. discriminate.
Qed.


Lemma zeroed_rates (names : list string) :
  forall name st,
    (list_to_map
       (map (fun n => (n, {| success := 0; total := 0; avg_time := 0 |}))
            names) : gmap string EngineStats) !! name = Some st ->
    0 <= MultiOCR.success st <= total st.
Proof.
  induction names as [| n names IH]; intros name st; simpl.
  - rewrite lookup_empty. discriminate.
  - destruct (decide (n = name)) as [-> | Hne].
    + rewrite lookup_insert_eq. intros [= <-]. simpl. lia.
    + rewrite lookup_insert_ne by assumption. apply IH.
Qed.


End CascadeProps.

Module BestEngineProps.
Import MultiOCR BestEngine.

(** An entry that [get_best_engine] considers: a loaded engine with at
    least one attempt. *)
Definition eligible (engines : gset string) (item : string * EngineStats) : Prop :=
  fst item ∈ engines /\ total (snd item) <> 0.

Lemma best_of_spec engines items : forall best_engine best_score,
  let '(best', score') := best_of engines items best_engine best_score in
  (forall item, item ∈ items -> eligible engines item ->
     (score (snd item) <= score')%Q)
  /\ ((best' = best_engine /\ score' = best_score)
      \/ exists before name stats after,
           items = before ++ (name, stats) :: after
           /\ best' = Some name
           /\ score' = score stats
           /\ eligible engines (name, stats)
           /\ (best_score < score stats)%Q
           /\ forall item, item ∈ before -> eligible engines item ->
                (score (snd item) < score stats)%Q).
Proof.
  induction items as [| [name stats] rest IH]; intros best_engine best_score.
  - simpl. split; [intros item Hin; inversion Hin | left; auto].
  - cbn [best_of].
    destruct (negb (bool_decide (name ∈ engines)) || (total stats =? 0)) eqn:Hskip.
    + specialize (IH best_engine best_score).
      destruct (best_of engines rest best_engine best_score) as [best' score'].
      destruct IH as [Hmax Hwho].
      assert (Hnot : ~ eligible engines (name, stats)).
      { intros [Hin Htot]. simpl in *. apply orb_true_iff in Hskip as [H | H].
        - apply negb_true_iff, bool_decide_eq_false in H. contradiction.
        - apply Z.eqb_eq in H. contradiction. }
      split.
      * intros item Hin Hel. apply elem_of_cons in Hin as [-> | Hin];
          [contradiction | now apply Hmax].
      * destruct Hwho as [Hsame | (before & n & st & after & -> & Hb & Hs & Hel & Hlt & Hbefore)];
          [left; exact Hsame |].
        right. exists ((name, stats) :: before), n, st, after.
        split; [reflexivity |]. repeat (split; [assumption |]).
        intros item Hin Hel'. apply elem_of_cons in Hin as [-> | Hin];
          [contradiction | now apply Hbefore].
    + apply orb_false_iff in Hskip as [Hin Htot].
      apply negb_false_iff, bool_decide_eq_true in Hin. apply Z.eqb_neq in Htot.
      assert (Hhere : eligible engines (name, stats)) by (split; assumption).
      cbv zeta. destruct (Qltb best_score (score stats)) eqn:Hlt.
      * apply ConfidenceProps.Qltb_true in Hlt.
        specialize (IH (Some name) (score stats)).
        destruct (best_of engines rest (Some name) (score stats)) as [best' score'].
        destruct IH as [Hmax Hwho].
        assert (Hge : (score stats <= score')%Q).
        { destruct Hwho as [[_ ->] | (_ & _ & st & _ & _ & _ & -> & _ & H & _)]; lra. }
        split.
        -- intros item Hi Hel. apply elem_of_cons in Hi as [-> | Hi];
             [exact Hge | now apply Hmax].
        -- right.
           destruct Hwho as [[-> ->] | (before & n & st & after & -> & Hb & Hs & Hel & Hlt' & Hbefore)].
           ++ exists [], name, stats, rest. split; [reflexivity |].
              repeat (split; [assumption || reflexivity |]).
              intros item Hi. inversion Hi.
           ++ exists ((name, stats) :: before), n, st, after.
              split; [reflexivity |]. split; [exact Hb |]. split; [exact Hs |].
              split; [exact Hel |]. split; [lra |].
              intros item Hi Hel'. apply elem_of_cons in Hi as [-> | Hi];
                [exact Hlt' | now apply Hbefore].
      * apply ConfidenceProps.Qltb_false in Hlt.
        specialize (IH best_engine best_score).
        destruct (best_of engines rest best_engine best_score) as [best' score'].
        destruct IH as [Hmax Hwho].
        assert (Hge : (best_score <= score')%Q).
        { destruct Hwho as [[_ ->] | (_ & _ & st & _ & _ & _ & -> & _ & H & _)]; lra. }
        split.
        -- intros item Hi Hel. apply elem_of_cons in Hi as [-> | Hi];
             [simpl; lra | now apply Hmax].
        -- destruct Hwho as [Hsame | (before & n & st & after & -> & Hb & Hs & Hel & Hlt' & Hbefore)];
             [left; exact Hsame |].
           right. exists ((name, stats) :: before), n, st, after.
           split; [reflexivity |]. repeat (split; [assumption |]).
           intros item Hi Hel'. apply elem_of_cons in Hi as [-> | Hi];
             [simpl; lra | now apply Hbefore].
Qed.

Lemma score_nonneg (stats : EngineStats) :
  0 <= success stats -> 0 < total stats -> (0 <= score stats)%Q.
Proof.
  intros Hs Ht. unfold score.
  assert (Hrate : (0 <= Float.div (inject_Z (success stats))
                                  (inject_Z (total stats)))%Q).
  { apply FloatProps.round_nonneg.
    apply Qle_shift_div_l; [now apply ConfidenceProps.inject_Z_pos |].
    rewrite Qmult_0_l. now apply ConfidenceProps.inject_Z_nonneg. }
  pose proof (Q.le_max_l 0 (Float.sub 1 (Float.div (avg_time stats) 10)))
    as Hspeed.
  assert (H7 : (0 <= Float.round 0.7)%Q) by discriminate.
  assert (H3 : (0 <= Float.round 0.3)%Q) by discriminate.
  apply FloatProps.round_nonneg.
  apply (Qle_trans _ (0 + 0)); [discriminate |].
  apply Qplus_le_compat; apply FloatProps.round_nonneg;
    apply Qmult_le_0_compat; assumption.
Qed.

(** X10.  When some loaded engine has been tried, and the counters of the
    tried engines are in order (a positive total, and successes between 0
    and the total),
    [get_best_engine] returns a loaded, tried engine whose score is the
    highest of all such engines, and among engines of equal score the one
    that comes first in the statistics; engine names are not empty.  The
    scores are the floats that the code compares: two engines whose exact
    scores are equal can have different float scores, and then the one
    with the higher float score is returned, wherever it comes. *)
Theorem get_best_engine_maximal
    (self : Self) (items : list (string * EngineStats)) :
  (forall item, item ∈ items -> eligible (engines self) item ->
     fst item <> ""%string
     /\ 0 <= success (snd item) <= total (snd item) /\ 0 < total (snd item)) ->
  (exists item, item ∈ items /\ eligible (engines self) item) ->
  exists before name stats after,
    get_best_engine self items = Returns (Some name)
    /\ items = before ++ (name, stats) :: after
    /\ eligible (engines self) (name, stats)
    /\ (forall item, item ∈ items -> eligible (engines self) item ->
        (score (snd item) <= score stats)%Q)
    /\ (forall item, item ∈ before -> eligible (engines self) item ->
        (score (snd item) < score stats)%Q).
Proof.
  intros Hsane (item0 & Hin0 & Hel0). unfold get_best_engine.
  pose proof (best_of_spec (engines self) items None (-1)%Q) as Hspec.
  destruct (best_of (engines self) items None (-1)%Q) as [best' score'].
  destruct Hspec as [Hmax Hwho]. simpl fst.
  destruct Hwho as [[-> ->] | (before & name & stats & after & Hitems & -> & -> & Hel & Hlt & Hbefore)].
  - exfalso. specialize (Hmax item0 Hin0 Hel0).
    destruct (Hsane item0 Hin0 Hel0) as (_ & [Hs _] & Ht).
    pose proof (score_nonneg (snd item0) Hs Ht). lra.
  - assert (Hname : name <> ""%string).
    { apply (Hsane (name, stats)); [| exact Hel].
      rewrite Hitems. apply elem_of_app. right. left. }
    destruct (String.eqb_spec name ""); [contradiction |].
    exists before, name, stats, after. repeat (split; [assumption || reflexivity |]).
    exact Hbefore.
Qed.

(** X11.  When no loaded engine has been tried yet, [get_best_engine] falls
    back on the first engine of the fallback order if any engine is loaded,
    and on [None] if none is. *)
Theorem get_best_engine_fallback
    (self : Self) (items : list (string * EngineStats)) :
  (forall item, item ∈ items -> ~ eligible (engines self) item) ->
  get_best_engine self items
  = if bool_decide (engines self = ∅) then Returns None
    else match fallback_order self with
         | first :: _ => Returns (Some first)
         | [] => Raises "IndexError: list index out of range"
         end.
Proof.
  intros Hnone. unfold get_best_engine.
  pose proof (best_of_spec (engines self) items None (-1)%Q) as Hspec.
  destruct (best_of (engines self) items None (-1)%Q) as [best' score'].
  destruct Hspec as [_ [[-> _] | (before & name & stats & after & Hitems & _ & _ & Hel & _)]].
  - reflexivity.
  - exfalso. apply (Hnone (name, stats)); [| exact Hel].
    rewrite Hitems. apply elem_of_app. right. left.
Qed.

(** PaddleOCR has succeeded once in two attempts, EasyOCR twice in two. *)
Definition sample_items : list (string * EngineStats) :=
  [("paddleocr"%string, {| success := 1; total := 2; avg_time := 1 |});
   ("easyocr"%string, {| success := 2; total := 2; avg_time := 1 |});
   ("tesseract"%string, {| success := 0; total := 0; avg_time := 0 |})].

Lemma get_best_engine_maximal_witness :
  exists before name stats after,
    get_best_engine (init true true true) sample_items = Returns (Some name)
    /\ sample_items = before ++ (name, stats) :: after
    /\ eligible (engines (init true true true)) (name, stats)
    /\ (forall item, item ∈ sample_items ->
        eligible (engines (init true true true)) item ->
        (score (snd item) <= score stats)%Q)
    /\ (forall item, item ∈ before ->
        eligible (engines (init true true true)) item ->
        (score (snd item) < score stats)%Q).
Proof.
  apply (get_best_engine_maximal (init true true true) sample_items).
  - intros item Hin [_ Htotal]. unfold sample_items in Hin.
    repeat (apply elem_of_cons in Hin as [-> | Hin]);
      [| | | inversion Hin]; simpl in *;
      (split; [discriminate | lia]).
  - exists ("paddleocr"%string, {| success := 1; total := 2; avg_time := 1 |}).
    split; [left |]. split; [| discriminate].
    apply (bool_decide_unpack _). vm_compute. exact I.
Defined.

(** Two engines whose exact scores are both 19/25: one success in one
    attempt at 8 s on average, and 7 successes in 10 attempts at 1 s.  The
    float scores are 0.7599999999999999 and 0.76, and the second engine is
    returned. *)
Definition tied_items : list (string * EngineStats) :=
  [("paddleocr"%string, {| success := 1; total := 1; avg_time := 8 |});
   ("easyocr"%string, {| success := 7; total := 10; avg_time := 1 |})].

Example float_scores_break_the_tie :
  map (fun item => Qred (score (snd item))) tied_items
  = [(6845471433603153 # 9007199254740992)%Q;
     (3422735716801577 # 4503599627370496)%Q]
  /\ get_best_engine (init true true true) tied_items
     = Returns (Some "easyocr"%string).
Proof. split; vm_compute; reflexivity. Qed.

(** A fresh manager on which only the built-in engine could be loaded: the
    answer is the head of the fallback order, which is not loaded. *)
Lemma get_best_engine_fallback_witness :
  get_best_engine (init false false false)
    [("builtin"%string, {| success := 0; total := 0; avg_time := 0 |})]
  = Returns (Some "paddleocr"%string)
  /\ "paddleocr"%string ∉ engines (init false false false).
Proof.
  split.
  - rewrite get_best_engine_fallback; [vm_compute; reflexivity |].
    intros item Hin [_ Htotal].
    apply list_elem_of_singleton in Hin as ->. simpl in Htotal. lia.
  - apply (bool_decide_unpack _). vm_compute. exact I.
Defined.

End BestEngineProps.

Module BackoffLoopProps.
Import Retry RetryProps.

(** A wait that [time.sleep] accepts and that respects the manager's cap. *)
Definition within_cap (self : Self) (secs : Q) : Prop :=
  (0 <= secs <= max_wait_time self)%Q.

Lemma record_success_keeps_cap context attempts self :
  max_wait_time (snd (_record_success context attempts self)) = max_wait_time self.
Proof. unfold _record_success. destruct (_ =? 0); reflexivity. Qed.

(** The wait that [_calculate_wait_time] returns is at most the cap. *)
Lemma calculate_wait_time_cap random_uniform self attempt failure_type s wait s' :
  _calculate_wait_time random_uniform self attempt failure_type s
  = (Returns wait, s') ->
  (wait <= max_wait_time self)%Q.
Proof.
  unfold _calculate_wait_time, Eff.bind, Eff.lift, uniform, Eff.ret.
  destruct (times_pow2 (base_wait_time self) attempt); [| discriminate].
  intros [= <- _]. apply Q.le_min_r.
Qed.

Section Sleeps.
Context {U : Text.Unicode}.
Variable OpSt : Type.
Variable operation :
  OpSt -> RetryContext -> Self -> outcome OpReturn * RetryContext * Self * OpSt.
Variable time_time : nat -> Q.
Variable random_randint : nat -> Z.
Variable random_uniform : nat -> Q.

Local Abbreviation W := (World OpSt).
Local Abbreviation try_block :=
  (attempt_try OpSt operation time_time random_randint random_uniform).
Local Abbreviation except_block := (attempt_except OpSt time_time).
Local Abbreviation once :=
  (attempt_once OpSt operation time_time random_randint random_uniform).
Local Abbreviation loop :=
  (attempts_loop OpSt operation time_time random_randint random_uniform).
Local Abbreviation execute :=
  (execute_with_retry OpSt operation time_time random_randint random_uniform).
Local Abbreviation failure_tail :=
  (after_failure OpSt random_randint random_uniform).
Local Abbreviation respectful := (respects_manager OpSt operation).

(** What a block did to the log of sleeps: it added [extra], all within
    the cap, and left the cap alone. *)
Definition slept (w w' : W) (extra : list Q) : Prop :=
  sleeps w' = sleeps w ++ extra
  /\ Forall (within_cap (self w)) extra
  /\ max_wait_time (self w') = max_wait_time (self w).

Lemma slept_nothing (w w' : W) :
  sleeps w' = sleeps w -> max_wait_time (self w') = max_wait_time (self w) ->
  slept w w' [].
Proof.
  intros Hs Hm. split; [now rewrite app_nil_r |]. split; [constructor | exact Hm].
Qed.

Lemma slept_trans (w w1 w2 : W) extra1 extra2 :
  slept w w1 extra1 -> slept w1 w2 extra2 -> slept w w2 (extra1 ++ extra2).
Proof.
  intros (Hs1 & Hf1 & Hm1) (Hs2 & Hf2 & Hm2). split; [| split].
  - rewrite Hs2, Hs1. now rewrite app_assoc.
  - apply Forall_app. split; [exact Hf1 |].
    eapply List.Forall_impl; [| exact Hf2]. unfold within_cap.
    intros s. now rewrite Hm1.
  - congruence.
Qed.

Lemma on_context_sleeps {A} (m : Strat A) (w : W) :
  sleeps (snd (on_context OpSt m w)) = sleeps w
  /\ self (snd (on_context OpSt m w)) = self w.
Proof.
  unfold on_context. destruct (m (context w, draws w)) as [o [c d]].
  split; reflexivity.
Qed.

Lemma time_sleep_slept (secs : Q) (w : W) :
  (secs <= max_wait_time (self w))%Q ->
  exists extra, slept w (snd (time_sleep OpSt secs w)) extra
                /\ (length extra <= 1)%nat.
Proof.
  intros Hcap. unfold time_sleep.
  destruct (Qle_bool 0 secs) eqn:Hle.
  - exists [secs]. split; [| simpl; lia]. split; [reflexivity |].
    split; [| reflexivity]. repeat constructor; [| exact Hcap].
    now apply Qle_bool_iff.
  - exists []. split; [| simpl; lia]. now apply slept_nothing.
Qed.

Lemma after_failure_slept attempt last_result w :
  let '(res, w') := failure_tail attempt last_result w in
  exists extra,
    slept w w' extra /\ (length extra <= 1)%nat
    /\ match res with
       | Returns (Continue _) => True
       | _ => extra = []
       end.
Proof.
  unfold after_failure. unfold Eff.bind at 1, Eff.get at 1.
  destruct (max_retries (self w) <=? attempt).
  { exists []. split; [now apply slept_nothing |]. split; [simpl; lia | reflexivity]. }
  unfold Eff.bind at 1.
  set (failure_type := _analyze_failure last_result (context w)).
  destruct (on_context OpSt (append_failure failure_type) w) as [[[] | e1] w1] eqn:E1;
    destruct (on_context_sleeps (append_failure failure_type) w) as [Hs1 Hc1];
    rewrite E1 in Hs1, Hc1; simpl in Hs1, Hc1.
  2: { exists []. split; [apply slept_nothing; congruence |].
       split; [simpl; lia | reflexivity]. }
  unfold Eff.bind at 1.
  destruct (on_context OpSt (_apply_retry_strategy random_randint failure_type attempt) w1)
    as [[[] | e2] w2] eqn:E2;
    destruct (on_context_sleeps
                (_apply_retry_strategy random_randint failure_type attempt) w1)
      as [Hs2 Hc2];
    rewrite E2 in Hs2, Hc2; simpl in Hs2, Hc2.
  2: { exists []. split; [apply slept_nothing; congruence |].
       split; [simpl; lia | reflexivity]. }
  unfold Eff.bind at 1, Eff.get at 1. unfold Eff.bind at 1.
  set (wait := _calculate_wait_time random_uniform (self w2) attempt failure_type).
  destruct (on_context OpSt wait w2) as [[wait_time | e3] w3] eqn:E3;
    destruct (on_context_sleeps wait w2) as [Hs3 Hc3];
    rewrite E3 in Hs3, Hc3; simpl in Hs3, Hc3.
  2: { exists []. split; [apply slept_nothing; congruence |].
       split; [simpl; lia | reflexivity]. }
  assert (Hcap : (wait_time <= max_wait_time (self w3))%Q).
  { rewrite Hc3. unfold on_context in E3.
    destruct (wait (context w2, draws w2)) as [o [c d]] eqn:Hrun.
    injection E3 as -> _. subst wait.
    exact (calculate_wait_time_cap _ _ _ _ _ _ _ Hrun). }
  assert (Hstart : slept w w3 []).
  { apply slept_nothing; congruence. }
  unfold Eff.bind, Eff.ret.
  destruct (Qltb 0 wait_time) eqn:Hw.
  - destruct (time_sleep_slept wait_time w3 Hcap) as (extra & Hslept & Hlen).
    destruct (time_sleep OpSt wait_time w3) as [[[] | e4] w4] eqn:E4; simpl in Hslept.
    + exists extra. split; [exact (slept_trans _ _ _ _ _ Hstart Hslept) |].
      split; [exact Hlen | exact I].
    + unfold time_sleep in E4.
      assert (Hle : Qle_bool 0 wait_time = true).
      { apply Qle_bool_iff, Qlt_le_weak, ConfidenceProps.Qltb_true, Hw. }
      rewrite Hle in E4. discriminate.
  - exists []. split; [exact Hstart |]. split; [simpl; lia | exact I].
Qed.

Lemma try_block_slept attempt start_time w :
  respectful ->
  let '(res, w') := try_block attempt start_time w in
  exists extra,
    slept w w' extra /\ (length extra <= 1)%nat
    /\ match res with
       | Returns (Continue _) => True
       | _ => extra = []
       end.
Proof.
  intros Hresp. unfold attempt_try. unfold Eff.bind at 1, invoke.
  destruct (Hresp (op_state w) (context w) (self w)) as [(_ & _ & Hcap0) _].
  destruct (operation (op_state w) (context w) (self w))
    as [[[o context'] self'] op_state'].
  cbn [fst snd] in Hcap0.
  destruct o as [result | e].
  2: { exists []. split; [now apply slept_nothing |]. split; [simpl; lia | reflexivity]. }
  unfold Eff.bind at 1, now at 1. cbn [ticks].
  unfold Eff.bind at 1, Eff.get at 1.
  match goal with
  | |- context [?k ?x] =>
      match type of x with
      | World OpSt => set (w1 := x)
      end
  end.
  assert (Hstart : slept w w1 []) by (now apply slept_nothing).
  clearbody w1.
  assert (Htail : forall last_result,
            let '(res, w') := failure_tail attempt last_result w1 in
            exists extra,
              slept w w' extra /\ (length extra <= 1)%nat
              /\ match res with
                 | Returns (Continue _) => True
                 | _ => extra = []
                 end).
  { intros last_result.
    pose proof (after_failure_slept attempt last_result w1) as H.
    destruct (failure_tail attempt last_result w1) as [res w'].
    destruct H as (extra & Hslept & Hlen & Hres).
    exists extra. split; [exact (slept_trans _ _ _ _ _ Hstart Hslept) |].
    split; assumption. }
  destruct result as [r | v]; cbn [with_execution_time success].
  - destruct (success r).
    + unfold Eff.bind, on_self, Eff.ret.
      pose proof (record_success_keeps_cap (context w1) attempt (self w1)) as Hcap.
      destruct (_record_success (context w1) attempt (self w1)) as [[[] | e] self2];
        simpl in Hcap;
        (exists []; split; [| split; [simpl; lia | reflexivity]]);
        apply (slept_trans _ _ _ [] [] Hstart); now apply slept_nothing.
    + apply Htail.
  - destruct (truthy v).
    + unfold Eff.ret. exists []. split; [exact Hstart |].
      split; [simpl; lia | reflexivity].
    + apply Htail.
Qed.

Lemma except_block_slept attempt start_time e w :
  let '(res, w') := except_block attempt start_time e w in
  exists extra,
    slept w w' extra /\ (length extra <= 1)%nat
    /\ match res with
       | Returns (Continue _) => True
       | _ => extra = []
       end.
Proof.
  unfold attempt_except, Eff.bind, now, on_context, set_last_error,
    Eff.get, Eff.ret, Eff.lift. cbn [fst snd context draws self].
  destruct (max_retries (self w) <=? attempt).
  { exists []. split; [now apply slept_nothing |]. split; [simpl; lia | reflexivity]. }
  destruct (times_pow2 (base_wait_time (self w)) attempt) as [base_wait | e1].
  2: { exists []. split; [now apply slept_nothing |]. split; [simpl; lia | reflexivity]. }
  match goal with
  | |- context [time_sleep OpSt ?s ?x] => set (secs := s); set (w1 := x)
  end.
  assert (Hcap : (secs <= max_wait_time (self w1))%Q) by apply Q.le_min_r.
  assert (Hstart : slept w w1 []) by (now apply slept_nothing).
  destruct (time_sleep_slept secs w1 Hcap) as (extra & Hslept & Hlen).
  destruct (time_sleep OpSt secs w1) as [[[] | e4] w4] eqn:E4; simpl in Hslept.
  - exists extra. split; [exact (slept_trans _ _ _ _ _ Hstart Hslept) |].
    split; [exact Hlen | exact I].
  - unfold time_sleep in E4. destruct (Qle_bool 0 secs); [discriminate |].
    injection E4 as _ <-.
    exists []. split; [exact Hstart |]. split; [simpl; lia | reflexivity].
Qed.

Lemma once_slept attempt w :
  respectful ->
  let '(res, w') := once attempt w in
  exists extra,
    slept w w' extra /\ (length extra <= 1)%nat
    /\ match res with
       | Returns (Continue _) => True
       | _ => extra = []
       end.
Proof.
  intros Hresp. unfold attempt_once, Eff.bind, now, Eff.try_except.
  match goal with
  | |- context [attempt_try _ _ _ _ _ _ ?s ?x] => set (start_time := s); set (w0 := x)
  end.
  assert (Hstart : slept w w0 []) by (now apply slept_nothing).
  pose proof (try_block_slept attempt start_time w0 Hresp) as Htry.
  destruct (try_block attempt start_time w0) as [[sig | e] w1].
  - destruct Htry as (extra & Hslept & Hlen & Hres).
    exists extra. split; [exact (slept_trans _ _ _ _ _ Hstart Hslept) |].
    split; assumption.
  - destruct Htry as (extra & Hslept & _ & ->).
    pose proof (except_block_slept attempt start_time e w1) as Hexc.
    destruct (except_block attempt start_time e w1) as [res w2].
    destruct Hexc as (extra2 & Hslept2 & Hlen2 & Hres2).
    exists extra2. split; [| split; assumption].
    exact (slept_trans _ _ _ _ _ Hstart (slept_trans _ _ _ _ _ Hslept Hslept2)).
Qed.

Lemma loop_slept count : forall start last_result w,
  respectful ->
  manager_ok (self w) ->
  (count <> 0%nat -> Z.of_nat (start + count) = max_retries (self w) + 1) ->
  exists extra,
    slept w (snd (loop (span start count) last_result w)) extra
    /\ (length extra <= pred count)%nat.
Proof.
  induction count as [| count IH]; intros start last_result w Hresp Hok Hend.
  - exists []. split; [now apply slept_nothing | simpl; lia].
  - specialize (Hend ltac:(discriminate)).
    unfold span. cbn [seq map attempts_loop]. fold (span (S start) count).
    unfold Eff.bind at 1.
    destruct (once_spec OpSt operation time_time random_randint random_uniform
                (Z.of_nat start) w Hresp Hok)
      as (res & w1 & Hrun & Hok1 & Hsame1 & _ & Hres).
    assert (Hmax1 : max_retries (self w1) = max_retries (self w)) by apply Hsame1.
    pose proof (once_slept (Z.of_nat start) w Hresp) as Hs. rewrite Hrun in *.
    destruct Hs as (extra1 & Hslept1 & Hlen1 & Hres1).
    destruct res as [[r | r | r] | e].
    + subst extra1. exists []. split; [exact Hslept1 | simpl; lia].
    + subst extra1. exists []. split; [exact Hslept1 | simpl; lia].
    + destruct Hres as [_ Hlt].
      destruct (IH (S start) (Some r) w1 Hresp Hok1) as (extra & Hslept & Hlen);
        [intros _; lia |].
      exists (extra1 ++ extra).
      split; [exact (slept_trans _ _ _ _ _ Hslept1 Hslept) |].
      rewrite length_app. simpl in *. lia.
    + subst extra1. exists []. split; [exact Hslept1 | simpl; lia].
Qed.

(** X12.  [execute_with_retry] sleeps only between attempts: with a
    callback that leaves the manager's settings alone, it makes itself at
    most [max_retries] calls of [time.sleep], each for a time between 0
    and [max_wait_time], so the time it spends backing off is at most
    [max_retries * max_wait_time]. *)
Theorem execute_with_retry_backoff (w : W) :
  respectful ->
  manager_ok (self w) ->
  exists extra,
    sleeps (snd (execute w)) = sleeps w ++ extra
    /\ Z.of_nat (length extra) <= Z.max 0 (max_retries (self w))
    /\ Forall (within_cap (self w)) extra
    /\ (fold_right Qplus 0 extra
        <= inject_Z (Z.of_nat (length extra)) * max_wait_time (self w))%Q.
Proof.
  intros Hresp Hok.
  destruct (loop_slept (Z.to_nat (max_retries (self w) + 1)) 0 None w Hresp Hok)
    as (extra & (Hs & Hf & Hm) & Hlen).
  { intros Hne. rewrite Nat.add_0_l. lia. }
  exists extra.
  assert (Hsame : sleeps (snd (execute w))
                  = sleeps (snd (loop (span 0 (Z.to_nat (max_retries (self w) + 1)))
                                   None w))).
  { unfold execute_with_retry. unfold Eff.bind at 1, Eff.get at 1.
    unfold Eff.bind at 1. rewrite range_span.
    destruct (loop (span 0 (Z.to_nat (max_retries (self w) + 1))) None w)
      as [[[r | last'] | e] w'];
      reflexivity. }
  rewrite Hsame. split; [exact Hs |]. split; [lia |]. split; [exact Hf |].
  clear - Hf. induction Hf as [| s extra [_ Hs] _ IH]; cbn [fold_right length].
  - discriminate.
  - rewrite Nat2Z.inj_succ, <- Z.add_1_r, inject_Z_plus.
    change (inject_Z 1) with 1%Q. lra.
Qed.

End Sleeps.
(** The flaky callback on a fresh manager. *)
Lemma execute_with_retry_backoff_witness :
  exists extra,
    sleeps (snd sample_run) = sleeps sample_world ++ extra
    /\ Z.of_nat (length extra) <= Z.max 0 (max_retries init)
    /\ Forall (within_cap init) extra
    /\ (fold_right Qplus 0 extra
        <= inject_Z (Z.of_nat (length extra)) * max_wait_time init)%Q.
Proof.
  apply (execute_with_retry_backoff (U := Text.sample_unicode) nat flaky
           (fun n => inject_Z (Z.of_nat n)) (fun _ => 0) (fun _ => 1%Q)
           sample_world).
  - apply flaky_respects_manager.
  - apply fresh_retry_manager_ok.
Defined.

End BackoffLoopProps.

Module TuningProps.
Import Retry RetryProps RetryTuning.

(** A manager in working order whose retry budget is in the range that
    [optimize_retry_parameters] steers it to. *)
Definition tuned (self : Self) : Prop :=
  manager_ok self /\ 3 <= max_retries self <= 8.

Lemma optimize_cases self :
  optimize_retry_parameters self = self
  \/ optimize_retry_parameters self
     = with_max_retries self (Z.min (max_retries self + 1) 8)
  \/ optimize_retry_parameters self
     = with_max_retries self (Z.max (max_retries self - 1) 3).
Proof.
  unfold optimize_retry_parameters.
  destruct (_ <? 10); [now left |].
  destruct (Qltb _ 0.7); [right; now left |].
  destruct (Qltb 0.95 _); [right; now right | now left].
Qed.

Lemma optimize_needs_data self :
  sum_over total_attempts (failure_stats self) < 10 ->
  optimize_retry_parameters self = self.
Proof.
  intros Hlt. unfold optimize_retry_parameters.
  destruct (Z.ltb_spec (sum_over total_attempts (failure_stats self)) 10);
    [reflexivity | lia].
Qed.

Lemma optimize_frame self :
  base_wait_time (optimize_retry_parameters self) = base_wait_time self
  /\ max_wait_time (optimize_retry_parameters self) = max_wait_time self
  /\ failure_stats (optimize_retry_parameters self) = failure_stats self.
Proof.
  destruct (optimize_cases self) as [-> | [-> | ->]]; repeat split.
Qed.

Section Runs.
Context {U : Text.Unicode}.
Variable OpSt : Type.
Variable operation :
  OpSt -> RetryContext -> Self -> outcome OpReturn * RetryContext * Self * OpSt.
Variable time_time : nat -> Q.
Variable random_randint : nat -> Z.
Variable random_uniform : nat -> Q.

Local Abbreviation W := (World OpSt).
Local Abbreviation once :=
  (attempt_once OpSt operation time_time random_randint random_uniform).
Local Abbreviation loop :=
  (attempts_loop OpSt operation time_time random_randint random_uniform).
Local Abbreviation execute :=
  (execute_with_retry OpSt operation time_time random_randint random_uniform).
Local Abbreviation respectful := (respects_manager OpSt operation).

Lemma loop_keeps_manager attempts : forall last_result w res w',
  respectful ->
  manager_ok (self w) ->
  loop attempts last_result w = (res, w') ->
  manager_ok (self w') /\ max_retries (self w') = max_retries (self w).
Proof.
  induction attempts as [| attempt rest IH]; intros last_result w res w' Hresp Hok.
  - intros [= _ <-]. split; [exact Hok | reflexivity].
  - cbn [attempts_loop]. unfold Eff.bind.
    destruct (once_spec OpSt operation time_time random_randint random_uniform
                attempt w Hresp Hok)
      as (sig & w1 & Hrun & Hok1 & (Hmax1 & _) & _ & _).
    rewrite Hrun. destruct sig as [[r | r | r] | e].
    + intros [= _ <-]. split; assumption.
    + intros [= _ <-]. split; assumption.
    + intros Hrest. destruct (IH _ _ _ _ Hresp Hok1 Hrest) as [Hok' Hmax'].
      split; [exact Hok' | congruence].
    + intros [= _ <-]. split; assumption.
Qed.

Lemma execute_keeps_manager (w : W) res w' :
  respectful ->
  manager_ok (self w) ->
  execute w = (res, w') ->
  manager_ok (self w') /\ max_retries (self w') = max_retries (self w).
Proof.
  intros Hresp Hok. unfold execute_with_retry. unfold Eff.bind at 1, Eff.get at 1.
  unfold Eff.bind at 1.
  destruct (loop (range (max_retries (self w) + 1)) None w)
    as [[[r | last'] | e] w1] eqn:Hloop;
    destruct (loop_keeps_manager _ _ _ _ _ Hresp Hok Hloop) as [Hok1 Hmax1].
  - intros [= _ <-]. split; assumption.
  - unfold Eff.bind, Eff.get, on_self, Eff.ret.
    destruct (record_failure_ok (context w1) (max_retries (self w1) + 1)
                (self w1) Hok1) as [Hok2 (Hmax2 & _)].
    destruct (_record_failure (context w1) (max_retries (self w1) + 1) (self w1))
      as [[[] | e] self2]; cbn [snd] in Hok2, Hmax2;
      intros [= _ <-]; cbn [self]; (split; [assumption | congruence]).
  - intros [= _ <-]. split; assumption.
Qed.

(** X13.  The retry budget stays between 3 and 8.  A manager built by
    [__init__] is in working order with a budget of 5;
    [optimize_retry_parameters] moves the budget of such a manager by at
    most one and keeps it in 3..8, touching nothing else, and leaves the
    manager as it is while fewer than 10 operations are on record; and
    [execute_with_retry] itself never assigns the budget: when the
    callback leaves the manager's settings alone, the budget after the
    call is the budget before it. *)
Theorem retry_budget_stays_in_range :
  tuned init
  /\ (forall self,
        tuned self ->
        let self' := optimize_retry_parameters self in
        tuned self'
        /\ Z.abs (max_retries self' - max_retries self) <= 1
        /\ base_wait_time self' = base_wait_time self
        /\ max_wait_time self' = max_wait_time self
        /\ failure_stats self' = failure_stats self
        /\ (sum_over total_attempts (failure_stats self) < 10 -> self' = self))
  /\ (forall w : W,
        respectful ->
        tuned (self w) ->
        tuned (self (snd (execute w)))
        /\ max_retries (self (snd (execute w))) = max_retries (self w)).
Proof.
  split; [| split].
  - split; [apply fresh_retry_manager_ok | simpl; lia].
  - intros self [Hok Hrange] self'. subst self'.
    destruct (optimize_frame self) as (Hb' & Hm' & Hs').
    assert (Hmax : 3 <= max_retries (optimize_retry_parameters self) <= 8
                   /\ Z.abs (max_retries (optimize_retry_parameters self)
                             - max_retries self) <= 1).
    { destruct (optimize_cases self) as [-> | [-> | ->]];
        cbn [max_retries with_max_retries]; lia. }
    destruct Hmax as [Hrange' Hstep].
    split; [| split; [exact Hstep | split; [exact Hb' | split; [exact Hm' |
              split; [exact Hs' | apply optimize_needs_data]]]]].
    split; [| exact Hrange'].
    destruct Hok as (Hb & Hm & Hst).
    split; [now rewrite Hb' | split; [now rewrite Hm' | now rewrite Hs']].
  - intros w Hresp [Hok Hrange].
    destruct (execute_keeps_manager w _ _ Hresp Hok (surjective_pairing _))
      as [Hok' Hmax'].
    split; [split; [exact Hok' | lia] | exact Hmax'].
Qed.

End Runs.
(** The manager that [__init__] builds, optimised and then used. *)
Lemma retry_budget_stays_in_range_witness :
  tuned (optimize_retry_parameters init)
  /\ tuned (self (snd (execute_with_retry (U := Text.sample_unicode) nat flaky
                         (fun n => inject_Z (Z.of_nat n)) (fun _ => 0)
                         (fun _ => 1%Q) sample_world))).
Proof.
  pose proof (retry_budget_stays_in_range (U := Text.sample_unicode) nat flaky
                (fun n => inject_Z (Z.of_nat n)) (fun _ => 0) (fun _ => 1%Q))
    as (Hinit & Hoptimize & Hexecute).
  split.
  - apply (Hoptimize init). split; [apply fresh_retry_manager_ok | simpl; lia].
  - apply (Hexecute sample_world); [apply flaky_respects_manager |].
    split; [apply fresh_retry_manager_ok | simpl; lia].
Defined.

(** A callback that assigns the budget of the manager that is calling it:
    the budget after the call is the one the callback has set. *)
Definition meddling (n : nat) (context : RetryContext) (self : Self)
  : outcome OpReturn * RetryContext * Self * nat :=
  (Returns (RetOther (VBool true)), context, with_max_retries self 0, S n).

Example meddling_callback_sets_budget :
  max_retries
    (self (snd (execute_with_retry (U := Text.sample_unicode) nat meddling
                  (fun n => inject_Z (Z.of_nat n)) (fun _ => 0)
                  (fun _ => 1%Q) sample_world)))
  = 0.
Proof. reflexivity. Qed.

End TuningProps.

(** ** The retry strategies write their own parameters only *)
Module StrategyProps.
Import Retry.

(** The keys of [context.parameters] that the strategy of a failure type
    assigns. *)
Definition strategy_keys (failure_type : FailureType) : list string :=
  match failure_type with
  | ELEMENT_NOT_FOUND =>
      ["search_tolerance"; "detection_method"; "search_area_expansion";
       "force_new_screenshot"; "try_scroll"; "scroll_direction"]
  | CLICK_FAILED =>
      ["click_offset"; "click_method"; "pre_click_wait"; "click_duration"]
  | INPUT_FAILED =>
      ["clear_before_input"; "input_delay"; "refocus"; "input_method"]
  | OCR_FAILED =>
      ["preferred_ocr_engine"; "image_preprocessing"; "ocr_region_expansion";
       "confidence_threshold"]
  | TIMEOUT => ["operation_timeout"; "element_wait_time"]
  | NETWORK_ERROR => ["connection_timeout"; "enable_reconnect"]
  | PERMISSION_DENIED =>
      ["request_elevated_privileges"; "use_alternative_method"]
  | UNKNOWN => ["generic_wait_time"; "verbose_logging"]
  end%string.

(** From [c] to [c'] only the parameters named in [keys] were assigned:
    every other parameter is as it was, no parameter was removed, and the
    rest of the context is untouched. *)
Definition assigned_only (keys : list string) (c c' : RetryContext) : Prop :=
  operation_type c' = operation_type c
  /\ target c' = target c
  /\ attempt_count c' = attempt_count c
  /\ last_error c' = last_error c
  /\ failure_history c' = failure_history c
  /\ (forall key, ~ In key keys -> parameters c' !! key = parameters c !! key)
  /\ (forall key, is_Some (parameters c !! key) -> is_Some (parameters c' !! key)).

Definition writes_only {A} (keys : list string) (m : Strat A) : Prop :=
  forall s, assigned_only keys (fst s) (fst (snd (m s))).

Lemma assigned_only_refl keys c : assigned_only keys c c.
Proof. repeat split; auto. Qed.

Lemma assigned_only_trans keys c1 c2 c3 :
  assigned_only keys c1 c2 -> assigned_only keys c2 c3 -> assigned_only keys c1 c3.
Proof.
  intros (H1 & H2 & H3 & H4 & H5 & H6 & H7) (K1 & K2 & K3 & K4 & K5 & K6 & K7).
  repeat split; try congruence.
  - intros key Hkey. rewrite K6, H6 by assumption. reflexivity.
  - intros key Hsome. apply K7, H7, Hsome.
Qed.

Lemma writes_only_silent {A} keys (m : Strat A) :
  (forall s, fst (snd (m s)) = fst s) -> writes_only keys m.
Proof. intros H s. rewrite H. apply assigned_only_refl. Qed.

Lemma writes_only_bind {A B} keys (m : Strat A) (k : A -> Strat B) :
  writes_only keys m -> (forall a, writes_only keys (k a)) ->
  writes_only keys (Eff.bind m k).
Proof.
  intros Hm Hk s. unfold Eff.bind. specialize (Hm s).
  destruct (m s) as [[a | e] s1]; simpl in *; [| exact Hm].
  eapply assigned_only_trans; [exact Hm | apply Hk].
Qed.

Lemma writes_only_set_param keys key v :
  In key keys -> writes_only keys (set_param key v).
Proof.
  intros Hin [c d]. unfold set_param. simpl. repeat split.
  - intros key' Hout. apply lookup_insert_ne. intros ->. contradiction.
  - intros key' Hsome. cbn [parameters with_parameters]. destruct (decide (key = key')) as [<- | Hne].
    + rewrite lookup_insert_eq. eauto.
    + now rewrite lookup_insert_ne.
Qed.

Lemma writes_only_set_param_by_attempt keys key choices attempt :
  In key keys -> writes_only keys (set_param_by_attempt key choices attempt).
Proof.
  intros Hin. unfold set_param_by_attempt.
  destruct (_ <? _); [| now apply writes_only_silent].
  destruct (index choices attempt).
  - now apply writes_only_set_param.
  - now apply writes_only_silent.
Qed.

Lemma writes_only_get_param keys key : writes_only keys (get_param key).
Proof.
  apply writes_only_silent. intros [c d]. unfold get_param. simpl.
  now destruct (parameters c !! key).
Qed.

Ltac strategy_step :=
  match goal with
  | |- writes_only _ (Eff.bind _ _) => apply writes_only_bind; [| intros ?]
  | |- writes_only _ (set_param _ _) =>
      apply writes_only_set_param; simpl; tauto
  | |- writes_only _ (set_param_by_attempt _ _ _) =>
      apply writes_only_set_param_by_attempt; simpl; tauto
  | |- writes_only _ (get_param _) => apply writes_only_get_param
  | |- writes_only _ (if ?b then _ else _) => destruct b
  | |- writes_only _ (bump_int _ _ _) => unfold bump_int
  | |- writes_only _ _ =>
      apply writes_only_silent; intros [? ?]; reflexivity
  end.

Lemma writes_only_strategy random_randint failure_type attempt :
  writes_only (strategy_keys failure_type)
    (_apply_retry_strategy random_randint failure_type attempt).
Proof.
  destruct failure_type; cbn [_apply_retry_strategy strategy_keys];
    unfold _retry_element_search, _retry_click_operation, _retry_input_operation,
      _retry_ocr_recognition, _retry_with_longer_wait, _retry_network_operation,
      _retry_permission_operation, _retry_generic;
    repeat strategy_step.
Qed.

(** X14.  A retry strategy assigns only its own parameters.  Whatever the
    failure type and the attempt, and whether the strategy returns or
    raises, every parameter of the context outside the strategy's own keys
    keeps its value, no parameter is removed, and the operation type,
    target, attempt count, last error and failure history are untouched. *)
Theorem strategy_assigns_own_keys_only
    (random_randint : nat -> Z) (failure_type : FailureType) (attempt : Z)
    (context : RetryContext) (draws : nat) :
  let context' :=
    fst (snd (_apply_retry_strategy random_randint failure_type attempt
                (context, draws))) in
  assigned_only (strategy_keys failure_type) context context'.
Proof.
  exact (writes_only_strategy random_randint failure_type attempt (context, draws)).
Qed.

End StrategyProps.

(** ** Reading the action history back *)
Module HistoryProps.
Import ActionSystem ActionHistory.

Lemma last_items_snoc {A} (n : nat) (l : list A) (a : A) :
  (0 < n)%nat ->
  last_items n (l ++ [a]) = last_items (n - 1) l ++ [a].
Proof.
  intros Hn. unfold last_items. rewrite length_app. simpl.
  rewrite skipn_app.
  replace (length l + 1 - n)%nat with (length l - (n - 1))%nat by lia.
  replace (length l - (n - 1) - length l)%nat with 0%nat by lia.
  reflexivity.
Qed.

Lemma last_items_split {A} (n : nat) (l : list A) :
  l = firstn (length l - n) l ++ last_items n l.
Proof. unfold last_items. now rewrite firstn_skipn. Qed.

Lemma last_items_min {A} (n : nat) (l : list A) :
  length (last_items n l) = Nat.min n (length l).
Proof. unfold last_items. rewrite length_skipn. lia. Qed.

(** X15.  The record that [_record_action] makes is the newest entry of the
    history: the history becomes the kept part of the old one, in order,
    followed by the record, and nothing is dropped while the old history
    has fewer than 1000 records.  Read back with a positive limit,
    [get_action_history] gives the newest [limit] records (all of them
    when there are fewer), ending with the record just made; a limit
    of 0 or no limit gives the whole history, and a negative limit drops
    the oldest [-limit] records instead of limiting the answer. *)
Theorem record_action_read_back
    (action_history : list OperationRecord) (action_type : string)
    (params : gmap string PyVal) (result : ActionResult)
    (execution_time now : Q) :
  let record := {| rec_action_type := action_type; rec_params := params;
                   rec_success := success result;
                   rec_message := message result;
                   rec_execution_time := execution_time;
                   rec_timestamp := now |} in
  let history' :=
    _record_action action_history action_type params result execution_time now in
  (exists dropped kept,
     action_history = dropped ++ kept
     /\ history' = kept ++ [record]
     /\ ((length action_history < 1000)%nat -> dropped = []))
  /\ (forall limit,
        0 < limit ->
        exists older,
          get_action_history history' (Some limit) = older ++ [record]
          /\ (exists oldest, history' = oldest ++ older ++ [record])
          /\ length (older ++ [record])
             = Nat.min (Z.to_nat limit) (length history'))
  /\ get_action_history history' (Some 0) = history'
  /\ get_action_history history' None = history'
  /\ (forall limit,
        limit < 0 ->
        history' = firstn (Z.to_nat (- limit)) history'
                   ++ get_action_history history' (Some limit)).
Proof.
  intros record history'.
  assert (Hshape : exists dropped kept,
             action_history = dropped ++ kept
             /\ history' = kept ++ [record]
             /\ ((length action_history < 1000)%nat -> dropped = [])).
  { subst history'. unfold _record_action. fold record.
    destruct (Z.ltb_spec 1000 (Z.of_nat (length (action_history ++ [record]))))
      as [Hgt | Hle].
    - rewrite length_app in Hgt. simpl in Hgt.
      exists (firstn (length action_history - 499) action_history),
             (last_items 499 action_history).
      split; [apply last_items_split |].
      split; [now rewrite last_items_snoc by lia |]. lia.
    - exists [], action_history. repeat split. }
  split; [exact Hshape |].
  destruct Hshape as (dropped & kept & _ & Hhist & _).
  split; [| split; [reflexivity | split; [reflexivity |]]].
  - intros limit Hpos. unfold get_action_history.
    destruct (Z.eqb_spec limit 0) as [| _]; [lia |].
    destruct (Z.ltb_spec 0 limit) as [_ |]; [| lia].
    exists (last_items (Z.to_nat limit - 1) kept).
    assert (Heq : last_items (Z.to_nat limit) history'
                  = last_items (Z.to_nat limit - 1) kept ++ [record]).
    { rewrite Hhist. apply last_items_snoc. lia. }
    split; [exact Heq |]. split.
    + exists (firstn (length history' - Z.to_nat limit) history').
      rewrite <- Heq. apply last_items_split.
    + rewrite <- Heq. apply last_items_min.
  - intros limit Hneg. unfold get_action_history.
    destruct (Z.eqb_spec limit 0) as [| _]; [lia |].
    destruct (Z.ltb_spec 0 limit) as [| _]; [lia |].
    now rewrite firstn_skipn.
Qed.

Lemma record_action_read_back_witness :
  get_action_history
    (_record_action [ActionSystemProps.sample_record] "wait" ∅
       ActionSystemProps.sample_result 0 0) (Some 1)
  = [ActionSystemProps.sample_record].
Proof.
  destruct (proj1 (proj2 (record_action_read_back
              [ActionSystemProps.sample_record] "wait" ∅
              ActionSystemProps.sample_result 0 0)) 1 ltac:(lia))
    as (older & Hread & _ & Hlen).
  rewrite Hread. rewrite length_app in Hlen. simpl in Hlen.
  destruct older; [reflexivity | simpl in Hlen; lia].
Defined.

End HistoryProps.

(** ** Region capture: what a capture changes *)
Module CaptureProps.
Import ScreenCapture.

Section Props.
Variable Image : Type.
Variable VISION_AVAILABLE : bool.
Variable pyautogui_size : outcome (Z * Z).
Variable pyautogui_screenshot : Z -> Z -> Z -> Z -> outcome Image.
Variable cvtColor : Image -> outcome Image.
Variable imwrite : string -> Image -> outcome bool.
Variable region_file_name : Z -> Z -> Z -> Z -> string.
Variable path_join : string -> string -> string.
Variable time_time : Q.

Local Abbreviation capture :=
  (capture_region Image VISION_AVAILABLE pyautogui_size pyautogui_screenshot
     cvtColor imwrite region_file_name path_join time_time).

(** X16.  [capture_region] counts exactly the captures it delivers.  When
    it returns an image, the library is available, the region lies within
    the screen, the image is the converted screenshot of that region, it
    has been handed to [cv2.imwrite] under the save path (whether or not
    the write was reported as done), the counter has grown by one and the
    image and the time are remembered; the calls made are the size query,
    one screenshot and one write, in that order.  When it returns [None]
    the object is exactly as it was.  It never raises. *)
Theorem capture_region_counts_deliveries
    (x y width height : Z) (save_file : option string) (s : State Image) :
  let '(res, s') := capture x y width height save_file s in
  match res with
  | Returns (Some image) =>
      exists screen_width screen_height shot written,
        let file :=
          path_join (save_path (fst s))
            (default (region_file_name x y width height) save_file) in
        VISION_AVAILABLE = true
        /\ pyautogui_size = Returns (screen_width, screen_height)
        /\ 0 <= x /\ 0 <= y
        /\ x + width <= screen_width /\ y + height <= screen_height
        /\ pyautogui_screenshot x y width height = Returns shot
        /\ cvtColor shot = Returns image
        /\ imwrite file image = Returns written
        /\ fst s' = {| save_path := save_path (fst s);
                       screenshot_count := screenshot_count (fst s) + 1;
                       last_screenshot := Some image;
                       last_screenshot_time := Some time_time |}
        /\ snd s' = snd s ++ [CallSize; CallScreenshot x y width height;
                              CallImwrite file]
  | Returns None => fst s' = fst s
  | Raises _ => False
  end.
Proof.
  unfold capture_region. destruct VISION_AVAILABLE; simpl; [| reflexivity].
  unfold Eff.try_except, Eff.bind, call, Eff.lift, Eff.get, update_self,
    Eff.modify, Eff.ret. simpl.
  destruct pyautogui_size as [[screen_width screen_height] | e]; simpl;
    [| reflexivity].
  destruct (Z.ltb_spec x 0); simpl; [reflexivity |].
  destruct (Z.ltb_spec y 0); simpl; [reflexivity |].
  destruct (Z.ltb_spec screen_width (x + width)); simpl; [reflexivity |].
  destruct (Z.ltb_spec screen_height (y + height)); simpl; [reflexivity |].
  destruct (pyautogui_screenshot x y width height) as [shot | e] eqn:Hshot; simpl;
    [| reflexivity].
  destruct (cvtColor shot) as [image | e] eqn:Hcv; simpl; [| reflexivity].
  destruct save_file as [f |]; simpl.
  - destruct (imwrite (path_join (save_path (fst s)) f) image)
      as [written | e] eqn:Hw; simpl; [| reflexivity].
    exists screen_width, screen_height, shot, written.
    rewrite <- !app_assoc. simpl. repeat split; auto.
  - destruct (imwrite (path_join (save_path (fst s))
                         (region_file_name x y width height)) image)
      as [written | e] eqn:Hw; simpl; [| reflexivity].
    exists screen_width, screen_height, shot, written.
    rewrite <- !app_assoc. simpl. repeat split; auto.
Qed.

End Props.
End CaptureProps.

(** ** Running actions *)
Module ActionRunProps.
Import ActionSystem ActionRun.

(** The action types that [execute_action] dispatches on. *)
Definition known_types : list string :=
  ["click"; "type"; "key_press"; "hotkey"; "drag"; "scroll"; "window_open";
   "window_close"; "window_switch"; "window_resize"; "wait"]%string.

(** An action whose delay, its own or the default one, can be compared
    with 0, and whose parameters do not clash with those of
    [execute_action]. *)
Definition well_formed (config : Config) (action : Action) : Prop :=
  fields action !! "action_type"%string = None
  /\ fields action !! "self"%string = None
  /\ is_Some (Retry.number
                (default (default_delay config)
                         (fields action !! "delay"%string))).

Section Props.
Variable OS : Type.
Variable time_time : nat -> Q.
Variable _execute_click : Handler OS.
Variable _execute_type : Handler OS.
Variable _execute_key_press : Handler OS.
Variable _execute_hotkey : Handler OS.
Variable _execute_drag : Handler OS.
Variable _execute_scroll : Handler OS.
Variable _execute_window_open : Handler OS.
Variable _execute_window_close : Handler OS.
Variable _execute_window_switch : Handler OS.
Variable _execute_window_resize : Handler OS.
Variable _execute_wait : Handler OS.

Local Abbreviation action :=
  (execute_action OS time_time _execute_click _execute_type _execute_key_press
     _execute_hotkey _execute_drag _execute_scroll _execute_window_open
     _execute_window_close _execute_window_switch _execute_window_resize
     _execute_wait).
Local Abbreviation loop :=
  (sequence_loop OS time_time _execute_click _execute_type _execute_key_press
     _execute_hotkey _execute_drag _execute_scroll _execute_window_open
     _execute_window_close _execute_window_switch _execute_window_resize
     _execute_wait).
Local Abbreviation sequence :=
  (execute_sequence OS time_time _execute_click _execute_type _execute_key_press
     _execute_hotkey _execute_drag _execute_scroll _execute_window_open
     _execute_window_close _execute_window_switch _execute_window_resize
     _execute_wait).

(** The record that [_record_action] makes of a result. *)
Definition record_of (action_type : string) (kwargs : gmap string PyVal)
    (result : ActionResult) (execution_time timestamp : Q) : OperationRecord :=
  {| rec_action_type := action_type; rec_params := kwargs;
     rec_success := success result; rec_message := message result;
     rec_execution_time := execution_time; rec_timestamp := timestamp |}.

(** What one [execute_action] changes: the configuration is as it was,
    and so is the log of the sleeps that [execute_sequence] makes between
    actions (a handler's own sleeps are logged apart); the history is as
    it was, or has gained the record of the result returned. *)
Definition acted (action_type : string) (kwargs : gmap string PyVal)
    (result : ActionResult) (w w' : World OS) : Prop :=
  config w' = config w
  /\ naps w' = naps w
  /\ ((action_history w' = action_history w /\ success result = false)
      \/ exists execution_time timestamp,
           action_history w'
           = _record_action (action_history w) action_type kwargs result
               execution_time timestamp).

Lemma run_frame (handler : Handler OS) kwargs (w : World OS) :
  let '(o, w') := run OS handler kwargs w in
  action_history w' = action_history w /\ config w' = config w
  /\ naps w' = naps w.
Proof.
  unfold run. destruct (handler kwargs (ticks w, os w)) as [o [[t s] slept]].
  repeat split.
Qed.

Lemma execute_action_acted action_type kwargs (w : World OS) :
  exists result w',
    action action_type kwargs w = (Returns result, w')
    /\ acted action_type kwargs result w w'
    /\ (~ In action_type known_types ->
        success result = false
        /\ message result = ("未知操作类型: " ++ action_type)%string
        /\ exists execution_time timestamp,
             action_history w'
             = _record_action (action_history w) action_type kwargs result
                 execution_time timestamp).
Proof.
  unfold execute_action, Eff.try_except. unfold Eff.bind at 1.
  unfold now at 1. cbn [ticks os].
  set (w0 := with_clock OS w (S (ticks w)) (os w)).
  assert (Hhandler : forall handler : Handler OS,
            In action_type known_types ->
            exists result w',
              match
                (result <- run OS handler kwargs ;;
                 finish_time <- now OS time_time ;;
                 record OS time_time action_type kwargs result
                   (finish_time - time_time (ticks w))%Q ;;;
                 Eff.ret result)%eff w0
              with
              | (Returns a, s') => (Returns a, s')
              | (Raises e, s') =>
                  new_result OS time_time false ("操作执行异常: " ++ e) s'
              end = (Returns result, w')
              /\ acted action_type kwargs result w w'
              /\ (~ In action_type known_types ->
                  success result = false
                  /\ message result = ("未知操作类型: " ++ action_type)%string
                  /\ exists execution_time timestamp,
                       action_history w'
                       = _record_action (action_history w) action_type kwargs
                           result execution_time timestamp)).
  { intros handler Hknown. unfold Eff.bind at 1.
    pose proof (run_frame handler kwargs w0) as Hframe.
    destruct (run OS handler kwargs w0) as [[result | e] w1].
    - destruct Hframe as (Hh & Hc & Hn).
      eexists _, _. split; [reflexivity |]. split; [| intros H; contradiction].
      split; [exact Hc |]. split; [exact Hn |]. right.
      eexists _, _. cbn [action_history with_clock]. rewrite Hh. reflexivity.
    - destruct Hframe as (Hh & Hc & Hn).
      eexists _, _. split; [reflexivity |]. split; [| intros H; contradiction].
      split; [exact Hc |]. split; [exact Hn |]. left.
      split; [exact Hh | reflexivity]. }
  unfold known_types in *.
  repeat match goal with
         | |- context [String.eqb action_type ?s] =>
             destruct (String.eqb_spec action_type s) as [-> | ?];
               [apply Hhandler; simpl; tauto |]
         end.
  clear Hhandler.
  eexists _, _. split; [reflexivity |]. split.
  - split; [reflexivity |]. split; [reflexivity |]. right.
    eexists _, _. reflexivity.
  - intros _. split; [reflexivity |]. split; [reflexivity |].
    eexists _, _. reflexivity.
Qed.

Lemma new_result_frame success message (w : World OS) :
  exists result w',
    new_result OS time_time success message w = (Returns result, w')
    /\ ActionSystem.success result = success
    /\ ActionSystem.message result = message
    /\ action_history w' = action_history w
    /\ config w' = config w /\ naps w' = naps w.
Proof. eexists _, _. repeat split. Qed.

(** The flag that [execute_sequence] reads after a failed action. *)
Definition stops_on_failure (config : Config) : bool :=
  Retry.truthy (default (VBool false) (stop_on_failure config)).

(** What a run of the loop over [actions] did: it added [results] to the
    list of results and [extra] to the sleeps that [execute_sequence]
    makes itself, between actions. *)
Definition ran (actions : list Action) (results : list ActionResult)
    (extra : list Q) (w w' : World OS) : Prop :=
  config w' = config w
  /\ naps w' = naps w ++ extra
  /\ (length extra <= pred (length actions))%nat
  /\ Forall (fun secs => (0 < secs)%Q) extra
  /\ (length results <= length actions)%nat
  /\ ((length results < length actions)%nat ->
      stops_on_failure (config w) = true
      /\ exists earlier result,
           results = earlier ++ [result] /\ success result = false).

Lemma sequence_loop_ran count actions : forall i results (w : World OS),
  count = i + Z.of_nat (length actions) ->
  Forall (well_formed (config w)) actions ->
  exists results' extra w',
    loop count i actions results w = (Returns (results ++ results'), w')
    /\ ran actions results' extra w w'.
Proof.
  induction actions as [| a rest IH]; intros i results w Hcount Hwf.
  - exists [], [], w. split; [cbn; now rewrite app_nil_r |].
    split; [reflexivity |]. split; [now rewrite app_nil_r |].
    split; [simpl; lia |]. split; [constructor |]. split; [simpl; lia |].
    simpl. lia.
  - pose proof (List.Forall_inv Hwf) as (Hclash1 & Hclash2 & Hdelay).
    pose proof (List.Forall_inv_tail Hwf) as Hrest.
    assert (Hnext : count = i + 1 + Z.of_nat (length rest)).
    { cbn [length] in Hcount. lia. }
    cbn [sequence_loop]. cbv zeta.
    destruct (String.eqb (default ""%string (type a)) "").
    + unfold Eff.bind at 1.
      destruct (new_result_frame false
                  ("操作 " ++ Retry.str_int (i + 1) ++ " 缺少类型参数") w)
        as (result & w1 & -> & Hs & _ & _ & Hc & Hn).
      assert (Hwf1 : Forall (well_formed (config w1)) rest) by now rewrite Hc.
      destruct (IH (i + 1) (results ++ [result]) w1 Hnext Hwf1)
        as (results' & extra & w' & Hrun & Hc' & Hn' & Hlen & Hpos & Hres & Hstop).
      exists (result :: results'), extra, w'.
      split; [rewrite Hrun; now rewrite <- app_assoc |].
      split; [congruence |]. split; [congruence |].
      split; [simpl; lia |]. split; [exact Hpos |]. split; [simpl; lia |].
      intros Hshort. destruct Hstop as (Hflag & earlier & r & -> & Hr).
      { simpl in Hshort. lia. }
      split; [now rewrite <- Hc |].
      exists (result :: earlier), r. split; [reflexivity | exact Hr].
    + rewrite Hclash1, Hclash2.
      replace (bool_decide (is_Some (@None PyVal))) with false
        by (symmetry; apply bool_decide_eq_false; intros [? ?]; discriminate).
      cbn [orb]. unfold Eff.bind at 1.
      destruct (execute_action_acted (default ""%string (type a)) (fields a) w)
        as (result & w1 & -> & (Hc & Hn & _) & _).
      unfold Eff.bind at 1, Eff.get at 1.
      fold (stops_on_failure (config w1)).
      destruct (negb (success result) && stops_on_failure (config w1)) eqn:Hbreak.
      * apply andb_true_iff in Hbreak as [Hfail Hflag].
        apply negb_true_iff in Hfail.
        exists [result], [], w1. split; [reflexivity |].
        split; [exact Hc |]. split; [now rewrite app_nil_r |].
        split; [simpl; lia |]. split; [constructor |]. split; [simpl; lia |].
        intros _. split; [now rewrite <- Hc |].
        exists [], result. split; [reflexivity | exact Hfail].
      * unfold Eff.bind at 1.
        assert (Hwf1 : forall w2 : World OS,
                  config w2 = config w1 -> Forall (well_formed (config w2)) rest).
        { intros w2 ->. now rewrite Hc. }
        assert (Hafter : forall (w2 : World OS) nap,
                  config w2 = config w1 -> naps w2 = naps w1 ++ nap ->
                  Forall (fun secs => (0 < secs)%Q) nap ->
                  (length nap <= 1)%nat ->
                  (nap <> [] -> rest <> []) ->
                  exists results' extra w',
                    loop count (i + 1) rest (results ++ [result]) w2
                    = (Returns (results ++ results'), w')
                    /\ ran (a :: rest) results' extra w w').
        { intros w2 nap Hc2 Hn2 Hnap Hone Hroom.
          destruct (IH (i + 1) (results ++ [result]) w2 Hnext (Hwf1 w2 Hc2))
            as (results' & extra & w' & Hrun & Hc' & Hn' & Hlen & Hpos & Hres & Hstop).
          exists (result :: results'), (nap ++ extra), w'.
          split; [rewrite Hrun; now rewrite <- app_assoc |].
          split; [congruence |].
          split; [rewrite Hn', Hn2, Hn; now rewrite app_assoc |].
          split.
          { rewrite length_app. cbn [length].
            destruct nap as [| s nap']; [simpl; lia |].
            assert (rest <> []) by (apply Hroom; discriminate).
            destruct rest; [contradiction | simpl in *; lia]. }
          split; [now apply Forall_app |]. split; [simpl; lia |].
          intros Hshort. destruct Hstop as (Hflag & earlier & r & -> & Hr).
          { simpl in Hshort. lia. }
          split; [now rewrite <- Hc, <- Hc2 |].
          exists (result :: earlier), r. split; [reflexivity | exact Hr]. }
        destruct (Z.ltb_spec i (count - 1)) as [Hmore | Hlast].
        -- assert (Hroom : rest <> []).
           { intros ->. simpl in Hcount. lia. }
           rewrite Hc. unfold Eff.bind at 1, Eff.lift, is_positive.
           destruct Hdelay as [n Hnum]. rewrite Hnum.
           destruct (Qltb 0 (Retry.as_float n)) eqn:Hpos.
           ++ unfold time_sleep. rewrite Hnum.
              apply (Hafter _ [Retry.as_float n]);
                [reflexivity | reflexivity | | simpl; lia | intros _; exact Hroom].
              repeat constructor. now apply ConfidenceProps.Qltb_true.
           ++ unfold Eff.ret. apply (Hafter w1 []);
                [reflexivity | now rewrite app_nil_r | constructor | simpl; lia
                | intros H; contradiction].
        -- unfold Eff.ret. apply (Hafter w1 []);
             [reflexivity | now rewrite app_nil_r | constructor | simpl; lia
             | intros H; contradiction].
Qed.

(** X17.  [execute_action] never raises.  It leaves the configuration
    alone, and the history either as it was, the result then being a
    failure (the handler raised), or with the record of the very result it
    returns appended by [_record_action].  An action type it does not know
    gives a failure with the message "未知操作类型: <type>", and that
    attempt is recorded like any other. *)
Theorem execute_action_never_raises
    (action_type : string) (kwargs : gmap string PyVal) (w : World OS) :
  exists result w',
    action action_type kwargs w = (Returns result, w')
    /\ acted action_type kwargs result w w'
    /\ (~ In action_type known_types ->
        success result = false
        /\ message result = ("未知操作类型: " ++ action_type)%string
        /\ exists execution_time timestamp,
             action_history w'
             = _record_action (action_history w) action_type kwargs result
                 execution_time timestamp).
Proof. apply execute_action_acted. Qed.


End Props.

(** A desktop on which every handler succeeds at once, and a sequence of a
    click, an entry without a type, and a wait. *)
Definition obliging : Handler unit :=
  fun _ s =>
    (Returns {| success := true; message := "ok"; data := VNone; timestamp := 0 |},
     (s, [])).

(** A handler that sleeps as [_execute_wait] does: for the time given as
    [duration], a failure being reported for a time that [time.sleep]
    refuses. *)
Definition waiting : Handler unit :=
  fun kwargs s =>
    match kwargs !! "duration"%string with
    | None =>
        (Raises "TypeError: missing 1 required positional argument: 'duration'",
         (s, []))
    | Some duration =>
        match Retry.number duration with
        | Some n =>
            if Qle_bool 0 (Retry.as_float n)
            then (Returns {| success := true; message := "等待完成";
                             data := VNone; timestamp := 0 |},
                  (s, [Retry.as_float n]))
            else (Returns {| success := false; message := "等待异常";
                             data := VNone; timestamp := 0 |},
                  (s, []))
        | None =>
            (Returns {| success := false; message := "等待异常";
                        data := VNone; timestamp := 0 |},
             (s, []))
        end
    end.

Definition fresh_world : World unit :=
  {| action_history := [];
     config := {| default_delay := VFloat 0.5; stop_on_failure := None |};
     ticks := 0; os := tt; naps := []; handler_naps := [] |}.

Definition sample_actions : list Action :=
  [ {| type := Some "click"%string;
       fields := {[ "x"%string := VInt 10; "y"%string := VInt 20 ]} |};
    {| type := None; fields := ∅ |};
    {| type := Some "wait"%string;
       fields := {[ "duration"%string := VInt 1 ]} |} ].


(** An action type that does not exist. *)
Lemma execute_action_never_raises_witness :
  exists result w',
    execute_action unit (fun n => inject_Z (Z.of_nat n))
      obliging obliging obliging obliging obliging obliging obliging obliging
      obliging obliging obliging "fly" ∅ fresh_world
    = (Returns result, w')
    /\ success result = false
    /\ message result = "未知操作类型: fly"%string
    /\ length (action_history w') = 1%nat.
Proof.
  destruct (execute_action_never_raises unit (fun n => inject_Z (Z.of_nat n))
              obliging obliging obliging obliging obliging obliging obliging
              obliging obliging obliging obliging "fly" ∅ fresh_world)
    as (result & w' & Hrun & _ & Hunknown).
  destruct Hunknown as (Hfail & Hmsg & execution_time & timestamp & Hhist).
  - simpl. intuition discriminate.
  - exists result, w'. split; [exact Hrun |]. split; [exact Hfail |].
    split; [exact Hmsg |]. rewrite Hhist. reflexivity.
Defined.

(** The same run, evaluated: the entry without a type is reported as a
    failure and does not stop the sequence, and the only sleep is the
    default delay after the click. *)
Example sample_sequence_value :
  let '(results, w') :=
    execute_sequence unit (fun n => inject_Z (Z.of_nat n))
      obliging obliging obliging obliging obliging obliging obliging obliging
      obliging obliging obliging sample_actions fresh_world in
  (exists rs, results = Returns rs /\ map success rs = [true; false; true])
  /\ map Qred (naps w') = [(1 # 2)%Q]
  /\ map rec_action_type (action_history w') = ["click"; "wait"]%string.
Proof. vm_compute. split; [eexists; split; reflexivity |]. split; reflexivity. Qed.

(** Two wait actions of one second each: [execute_sequence] sleeps once,
    for the default delay, between the two, and each wait sleeps for its
    second; three sleeps for two actions. *)
Example two_waits_three_sleeps :
  let '(results, w') :=
    execute_sequence unit (fun n => inject_Z (Z.of_nat n))
      obliging obliging obliging obliging obliging obliging obliging obliging
      obliging obliging waiting
      [ {| type := Some "wait"%string;
           fields := {[ "duration"%string := VInt 1 ]} |};
        {| type := Some "wait"%string;
           fields := {[ "duration"%string := VInt 1 ]} |} ]
      fresh_world in
  (exists rs, results = Returns rs /\ map success rs = [true; true])
  /\ map Qred (naps w') = [(1 # 2)%Q]
  /\ map Qred (handler_naps w') = [1%Q; 1%Q].
Proof. vm_compute. split; [eexists; split; reflexivity |]. split; reflexivity. Qed.

End ActionRunProps.
